(** * roman-flappy: the simulation core of [flappy_bird.py]

    A shallow embedding of the game's entity classes, of the [FlappyBird]
    methods that advance the simulation, and of one iteration of the frame
    loop, followed by the properties of the design document.

    Conventions.
    - Python [int]s are [Z].  Python [float]s (positions, speeds, the score)
      are rationals [Q]; rounding is not modelled.  Every property below is
      either order-theoretic or about sums of 1/2 and 2, which floats
      represent exactly.
    - Every Python object carries an identity [oid]; [list.remove] compares
      by identity, as Python does for classes without [__eq__].
    - [self] is passed explicitly; the clock, the random generator, the
      allocator, the high-score file and the mixer live in an [Outside]
      record threaded by the monad [M], which also carries exceptions.
    - A Python [str] is the list of its code points.  What [int] needs of
      the interpreter, the decimal digits of the Unicode database and the
      limit on the length of a literal, comes with the environment. *)

From Stdlib Require Import ZArith QArith Qminmax List Bool String Ascii Lia.
From Stdlib Require Import DecimalString DecimalZ Qround Lqa.
Import ListNotations.
Open Scope Z_scope.

(** ** Numbers *)

(** [int(q)] on a float: truncation toward zero. *)
Definition int (q : Q) : Z := Z.quot (Qnum q) (Zpos (Qden q)).

(** [a < b] on numbers, as a boolean. *)
Definition Qlt_bool (a b : Q) : bool := negb (Qle_bool b a).

(** ** pygame.Rect *)

Module Rect.

Record t := make { x : Z; y : Z; w : Z; h : Z }.

(** Half sizes are [size >> 1] in pygame. *)
Definition left (r : t) : Z := x r.
Definition top (r : t) : Z := y r.
Definition right (r : t) : Z := x r + w r.
Definition bottom (r : t) : Z := y r + h r.
Definition centery (r : t) : Z := y r + Z.shiftr (h r) 1.

Definition set_x (r : t) (v : Z) : t := make v (y r) (w r) (h r).
Definition set_y (r : t) (v : Z) : t := make (x r) v (w r) (h r).
(** [r.centerx = v] moves the rectangle horizontally. *)
Definition set_centerx (r : t) (v : Z) : t := set_x r (v - Z.shiftr (w r) 1).
(** [surface.get_rect(center=(cx, cy))] for a surface of size [tw] x [th]. *)
Definition centered (tw th cx cy : Z) : t :=
  make (cx - Z.shiftr tw 1) (cy - Z.shiftr th 1) tw th.

(** [a.colliderect(b)]: overlap in both axes; a rectangle of zero width or
    height collides with nothing. *)
Definition colliderect (a b : t) : bool :=
  if (w a =? 0) || (h a =? 0) || (w b =? 0) || (h b =? 0) then false
  else (Z.min (x a) (x a + w a) <? Z.max (x b) (x b + w b))
    && (Z.min (y a) (y a + h a) <? Z.max (y b) (y b + h b))
    && (Z.max (x a) (x a + w a) >? Z.min (x b) (x b + w b))
    && (Z.max (y a) (y a + h a) >? Z.min (y b) (y b + h b)).

(** [r.collidepoint(pos)]. *)
Definition collidepoint (r : t) (pos : Z * Z) : bool :=
  (x r <=? fst pos) && (fst pos <? x r + w r)
  && (y r <=? snd pos) && (snd pos <? y r + h r).

End Rect.

(** ** Configuration ([levels.json])

    The file is not part of the sources; its recognised fields are taken as
    a record.  [level_*] are the fields of [config['levels'][0]]:
    [current_level] is set to 0 at start-up and never assigned again. *)

Module Config.

Record t := make {
  window_width : Z;
  window_height : Z;
  player_width : Z;
  player_height : Z;
  player_gravity : Q;
  player_flap_strength : Q;
  player_max_velocity : Q;
  walls_width : Z;
  walls_gap : Z;
  walls_speed : Q;
  enemies_width : Z;
  enemies_height : Z;
  enemies_speed : Q;
  enemies_spawn_rate : Z;
  level_wall_speed_multiplier : Q;
  level_enemy_speed_multiplier : Q;
  level_wall_frequency : Z;
  level_enemy_count : Z }.

End Config.

(** ** class GameObject *)

Module GameObject.

Record t := make {
  oid : nat;          (* identity of the Python object *)
  rect : Rect.t;
  x : Q;
  y : Q;
  width : Z;
  height : Z }.

(** [GameObject.__init__(x, y, width, height)], all callers pass integers
    for [x] and [y]. *)
Definition __init__ (id : nat) (x0 y0 : Z) (width0 height0 : Z) : t :=
  make id (Rect.make x0 y0 width0 height0)
       (inject_Z x0) (inject_Z y0) width0 height0.

Definition set_x (o : t) (v : Q) : t :=
  make (oid o) (rect o) v (y o) (width o) (height o).
Definition set_y (o : t) (v : Q) : t :=
  make (oid o) (rect o) (x o) v (width o) (height o).
Definition set_rect (o : t) (r : Rect.t) : t :=
  make (oid o) r (x o) (y o) (width o) (height o).

End GameObject.

(** ** class Player(GameObject) *)

Module Player.

Record t := make {
  base : GameObject.t;
  velocity : Q;
  gravity : Q;
  flap_strength : Q;
  max_velocity : Q }.

Definition set_base (p : t) (b : GameObject.t) : t :=
  make b (velocity p) (gravity p) (flap_strength p) (max_velocity p).
Definition set_velocity (p : t) (v : Q) : t :=
  make (base p) v (gravity p) (flap_strength p) (max_velocity p).

Definition rect (p : t) : Rect.t := GameObject.rect (base p).
Definition y (p : t) : Q := GameObject.y (base p).

(** [Player.__init__(x, y, config)] *)
Definition __init__ (id : nat) (x0 y0 : Z) (config : Config.t) : t :=
  make
    (GameObject.__init__ id x0 y0 (Config.player_width config)
                     (Config.player_height config))
    0
    (Config.player_gravity config)
    (Config.player_flap_strength config)
    (Config.player_max_velocity config).

Definition update (self : t) : t :=
  let self := set_velocity self
                (Qmin (velocity self + gravity self) (max_velocity self)) in
  let self := set_base self
                (GameObject.set_y (base self) (y self + velocity self)) in
  set_base self
    (GameObject.set_rect (base self) (Rect.set_y (rect self) (int (y self)))).

Definition flap (self : t) : t := set_velocity self (flap_strength self).

End Player.

(** ** class Wall(GameObject) *)

Module Wall.

Record t := make { base : GameObject.t; speed : Q }.

Definition oid (o : t) : nat := GameObject.oid (base o).
Definition rect (o : t) : Rect.t := GameObject.rect (base o).
Definition x (o : t) : Q := GameObject.x (base o).
Definition width (o : t) : Z := GameObject.width (base o).
Definition height (o : t) : Z := GameObject.height (base o).

Definition __init__ (id : nat) (x0 y0 width0 height0 : Z) (speed0 : Q) : t :=
  make (GameObject.__init__ id x0 y0 width0 height0) speed0.

Definition update (self : t) : t :=
  let b := GameObject.set_x (base self) (x self - speed self) in
  let b := GameObject.set_rect b
             (Rect.set_x (GameObject.rect b) (int (GameObject.x b))) in
  make b (speed self).

End Wall.

(** ** class Projectile(GameObject) *)

Module Projectile.

Record t := make { base : GameObject.t; speed : Q }.

Definition oid (o : t) : nat := GameObject.oid (base o).
Definition rect (o : t) : Rect.t := GameObject.rect (base o).
Definition x (o : t) : Q := GameObject.x (base o).

Definition __init__ (id : nat) (x0 y0 : Z) (speed0 : Q) : t :=
  make (GameObject.__init__ id x0 y0 20 10) speed0.

Definition update (self : t) : t :=
  let b := GameObject.set_x (base self) (x self + speed self) in
  let b := GameObject.set_rect b
             (Rect.set_x (GameObject.rect b) (int (GameObject.x b))) in
  make b (speed self).

End Projectile.

(** ** class Enemy(GameObject) *)

Module Enemy.

Record t := make {
  base : GameObject.t;
  speed : Q;
  direction : Z;
  amplitude : Q;
  original_y : Z;
  time : Q }.

Definition oid (o : t) : nat := GameObject.oid (base o).
Definition rect (o : t) : Rect.t := GameObject.rect (base o).
Definition x (o : t) : Q := GameObject.x (base o).
Definition y (o : t) : Q := GameObject.y (base o).

(** [Enemy.__init__]; [direction0] is the value of [random.choice([-1, 1])]
    and [r] the value of [random.random()], both drawn by the caller. *)
Definition __init__ (id : nat) (x0 y0 : Z) (config : Config.t)
    (speed_multiplier : Q) (direction0 : Z) (r : Q) : t :=
  make (GameObject.__init__ id x0 y0 (Config.enemies_width config)
                        (Config.enemies_height config))
       (Config.enemies_speed config * speed_multiplier)
       direction0
       100
       y0
       (r * 10).

(** [sin] stands for [math.sin]. *)
Definition update (sin : Q -> Q) (self : t) : t :=
  let b := GameObject.set_x (base self) (x self - speed self) in
  let time' := (time self + (5 # 100))%Q in
  let b := GameObject.set_y b
             (inject_Z (original_y self) + amplitude self * sin time') in
  let b := GameObject.set_rect b
             (Rect.set_x (GameObject.rect b) (int (GameObject.x b))) in
  let b := GameObject.set_rect b
             (Rect.set_y (GameObject.rect b) (int (GameObject.y b))) in
  make b (speed self) (direction self) (amplitude self) (original_y self)
       time'.

End Enemy.

(** ** Object identity *)

Class Identified (A : Type) := ident : A -> nat.
#[export] Instance Wall_Identified : Identified Wall.t := Wall.oid.
#[export] Instance Enemy_Identified : Identified Enemy.t := Enemy.oid.
#[export] Instance Projectile_Identified : Identified Projectile.t :=
  Projectile.oid.

Definition same_object {A} `{Identified A} (a b : A) : bool :=
  Nat.eqb (ident a) (ident b).

(** The effect, seen through a list that holds the object, of mutating the
    object [o] in place: the entry with [o]'s identity now shows the new
    attribute values. *)
Definition mutated {A} `{Identified A} (o : A) (l : list A) : list A :=
  map (fun a => if same_object a o then o else a) l.

(** ** Exceptions, the outside world and the monad *)

Inductive Exn := ValueError | OSError.

Inductive result (A : Type) :=
| Ok (a : A)
| Raise (e : Exn).
Arguments Ok {A} a.
Arguments Raise {A} e.

(** [l.remove(o)]: drops the first entry that is [o]; [ValueError] when
    there is none. *)
Fixpoint list_remove {A} `{Identified A} (o : A) (l : list A)
  : result (list A) :=
  match l with
  | [] => Raise ValueError
  | a :: l' =>
      if same_object a o then Ok l'
      else match list_remove o l' with
           | Ok l'' => Ok (a :: l'')
           | Raise e => Raise e
           end
  end.

(** A Python [str]: its code points. *)
Definition text := list N.

(** A literal, one character per byte; meant for ASCII literals. *)
Definition text_of_string (s : string) : text :=
  map N_of_ascii (list_ascii_of_string s).
Arguments text_of_string s%_string.

(** The content of [highscore.txt]. *)
Inductive Storage :=
| Missing                  (* the file does not exist *)
| Unreadable               (* it exists and cannot be opened *)
| Undecodable              (* its bytes are not text in the encoding in use *)
| Content (s : text).      (* the text that [f.read()] returns *)

Inductive Sound := flap_sound | enemy_sound | gameover_sound.

(** What the program obtains from its environment, by the number of the
    request. *)
Record Env := {
  ticks : nat -> Z;          (* readings of [pygame.time.get_ticks()] *)
  random_raw : nat -> Z;     (* raw draws behind [randint] and [choice] *)
  random_unit : nat -> Q;    (* values of [random.random()] *)
  sin : Q -> Q;              (* [math.sin] *)
  start_text_size : Z * Z;   (* size of 'Start Game' rendered at size 48 *)
  unicode_decimal : N -> option N;
                             (* the interpreter's Unicode database: the value
                                of a decimal digit beyond ASCII *)
  int_max_str_digits : N     (* [sys.get_int_max_str_digits()]; 0 when the
                                interpreter has no limit *)
}.

Record Outside := {
  highscore_txt : Storage;
  played : list Sound;       (* cues sent to the mixer, oldest first *)
  ticks_read : nat;
  random_drawn : nat;
  next_oid : nat }.

Definition M (A : Type) : Type := Outside -> result (A * Outside).

Definition ret {A} (a : A) : M A := fun o => Ok (a, o).
Definition bind {A B} (m : M A) (k : A -> M B) : M B :=
  fun o => match m o with
           | Ok (a, o') => k a o'
           | Raise e => Raise e
           end.
Definition raise {A} (e : Exn) : M A := fun _ => Raise e.
Definition lift {A} (r : result A) : M A :=
  fun o => match r with Ok a => Ok (a, o) | Raise e => Raise e end.

Notation "x <- m ;; k" := (bind m (fun x => k))
  (at level 61, m at next level, right associativity).
Notation "m ;;; k" := (bind m (fun _ => k))
  (at level 61, right associativity).

(** [for x in l: s = body x s], over a snapshot [l]. *)
Fixpoint for_each {A S} (l : list A) (body : A -> S -> M S) (s : S) : M S :=
  match l with
  | [] => ret s
  | a :: l' => s' <- body a s ;; for_each l' body s'
  end.

(** ** [int(text)] and [str(n)] on the high-score file *)

(** [int(s)] first rewrites the text to ASCII, then reads a literal in base
    10 from the ASCII buffer. *)

(** [Py_UNICODE_ISSPACE] beyond ASCII. *)
Definition is_unicode_space (c : N) : bool :=
  ((c =? 133) || (c =? 160) || (c =? 5760)
   || (8192 <=? c) && (c <=? 8202)
   || (c =? 8232) || (c =? 8233) || (c =? 8239) || (c =? 8287)
   || (c =? 12288))%N.

(** One character of [_PyUnicode_TransformDecimalAndSpaceToASCII]: a
    character below 127 is kept, white space becomes a blank, a decimal
    digit its ASCII digit; any other character makes the literal invalid. *)
Definition to_ascii_char (env : Env) (c : N) : option ascii :=
  if (c <? 127)%N then Some (ascii_of_N c)
  else if is_unicode_space c then Some " "%char
  else match unicode_decimal env c with
       | Some d => Some (ascii_of_N (48 + d))
       | None => None
       end.

Fixpoint to_ascii (env : Env) (s : text) : option (list ascii) :=
  match s with
  | [] => Some []
  | c :: s' =>
      match to_ascii_char env c, to_ascii env s' with
      | Some a, Some l => Some (a :: l)
      | _, _ => None
      end
  end.

(** [Py_ISSPACE]: tab, line feed, vertical tab, form feed, carriage return
    and blank. *)
Definition is_space (c : ascii) : bool :=
  let n := nat_of_ascii c in
  ((9 <=? n) && (n <=? 13) || (n =? 32))%nat.

Definition is_digit (c : ascii) : bool :=
  let n := nat_of_ascii c in ((48 <=? n) && (n <=? 57))%nat.

Definition digit_value (c : ascii) : Z := Z.of_nat (nat_of_ascii c - 48).

Fixpoint lstrip (l : list ascii) : list ascii :=
  match l with
  | c :: l' => if is_space c then lstrip l' else l
  | [] => []
  end.

Definition strip (l : list ascii) : list ascii :=
  rev (lstrip (rev (lstrip l))).

(** Decimal digits, single underscores allowed between two digits;
    [after_digit] tells whether the previous character was a digit. *)
Fixpoint digits (acc : Z) (after_digit : bool) (l : list ascii) : option Z :=
  match l with
  | [] => if after_digit then Some acc else None
  | c :: l' =>
      if is_digit c then digits (10 * acc + digit_value c) true l'
      else if Ascii.eqb c "_" then
             if after_digit
             then digits acc false l' else None
      else None
  end.

(** An optional sign, then digits. *)
Definition signed_digits (l : list ascii) : option Z :=
  match l with
  | "-"%char :: l' => option_map Z.opp (digits 0 false l')
  | "+"%char :: l' => digits 0 false l'
  | _ => digits 0 false l
  end.

(** The limit on the length of a literal: more than 640 digits and more
    than the interpreter's limit, when it has one. *)
Definition digit_count (l : list ascii) : N :=
  N.of_nat (List.length (filter is_digit l)).

Definition exceeds_limit (env : Env) (l : list ascii) : bool :=
  ((640 <? digit_count l) && (0 <? int_max_str_digits env)
   && (int_max_str_digits env <? digit_count l))%N.

(** [int(s)] for a string: surrounding white space, an optional sign,
    decimal digits.  [None] stands for [ValueError]. *)
Definition py_int (env : Env) (s : text) : option Z :=
  match to_ascii env s with
  | None => None
  | Some l =>
      if exceeds_limit env l then None else signed_digits (strip l)
  end.

(** The characters of a decimal numeral. *)
Definition chars (d : Decimal.uint) : list ascii :=
  list_ascii_of_string (NilEmpty.string_of_uint d).

(** The characters of [str(n)]: a minus sign for a negative number, then
    the decimal digits. *)
Definition numeral (n : Z) : list ascii :=
  list_ascii_of_string (DecimalString.NilZero.string_of_int (Z.to_int n)).

(** [str(n)] for an integer.  The numbers this program converts are a
    loaded high score, which passed the limit of [int], and [int(score)] of
    a float, which has at most 309 digits: the limit of [str] is never
    met. *)
Definition str (n : Z) : text := map N_of_ascii (numeral n).

Inductive GameState := START | PLAYING | GAME_OVER.

Definition GameState_eqb (a b : GameState) : bool :=
  match a, b with
  | START, START | PLAYING, PLAYING | GAME_OVER, GAME_OVER => true
  | _, _ => false
  end.

(** ** pygame events *)

Inductive EventType := QUIT | MOUSEBUTTONDOWN | KEYDOWN | OTHER_EVENT.
Inductive Key := K_SPACE | K_RIGHT | K_OTHER.

Definition EventType_eqb (a b : EventType) : bool :=
  match a, b with
  | QUIT, QUIT | MOUSEBUTTONDOWN, MOUSEBUTTONDOWN | KEYDOWN, KEYDOWN
  | OTHER_EVENT, OTHER_EVENT => true
  | _, _ => false
  end.

Definition Key_eqb (a b : Key) : bool :=
  match a, b with
  | K_SPACE, K_SPACE | K_RIGHT, K_RIGHT | K_OTHER, K_OTHER => true
  | _, _ => false
  end.

(** An event object; [button] and [pos] are read only on mouse events and
    [key] only on key events. *)
Record Event := {
  type : EventType;
  button : Z;
  pos : Z * Z;
  key : Key }.

(** ** class FlappyBird *)

Module FlappyBird.

(** The attributes of [self] that the simulation reads or writes; the
    display, the clock object, the images and [current_level] (always 0)
    are left out. *)
Record t := make {
  config : Config.t;
  width : Z;
  height : Z;
  score : Q;
  high_score : Z;
  game_state : GameState;
  bg_scroll : Q;
  bg_scroll_speed : Q;
  projectiles : list Projectile.t;
  last_shot : Z;
  shot_cooldown : Z;
  player : Player.t;
  walls : list Wall.t;
  enemies : list Enemy.t;
  last_wall : Z;
  last_enemy : Z;
  start_button_rect : option Rect.t }.

Definition set_score (self : t) (v : Q) : t :=
  make (config self) (width self) (height self) v (high_score self)
       (game_state self) (bg_scroll self) (bg_scroll_speed self)
       (projectiles self) (last_shot self) (shot_cooldown self)
       (player self) (walls self) (enemies self) (last_wall self)
       (last_enemy self) (start_button_rect self).

Definition set_high_score (self : t) (v : Z) : t :=
  make (config self) (width self) (height self) (score self) v
       (game_state self) (bg_scroll self) (bg_scroll_speed self)
       (projectiles self) (last_shot self) (shot_cooldown self)
       (player self) (walls self) (enemies self) (last_wall self)
       (last_enemy self) (start_button_rect self).

Definition set_game_state (self : t) (v : GameState) : t :=
  make (config self) (width self) (height self) (score self)
       (high_score self) v (bg_scroll self) (bg_scroll_speed self)
       (projectiles self) (last_shot self) (shot_cooldown self)
       (player self) (walls self) (enemies self) (last_wall self)
       (last_enemy self) (start_button_rect self).

Definition set_bg_scroll (self : t) (v : Q) : t :=
  make (config self) (width self) (height self) (score self)
       (high_score self) (game_state self) v (bg_scroll_speed self)
       (projectiles self) (last_shot self) (shot_cooldown self)
       (player self) (walls self) (enemies self) (last_wall self)
       (last_enemy self) (start_button_rect self).

Definition set_projectiles (self : t) (v : list Projectile.t) : t :=
  make (config self) (width self) (height self) (score self)
       (high_score self) (game_state self) (bg_scroll self)
       (bg_scroll_speed self) v (last_shot self) (shot_cooldown self)
       (player self) (walls self) (enemies self) (last_wall self)
       (last_enemy self) (start_button_rect self).

Definition set_last_shot (self : t) (v : Z) : t :=
  make (config self) (width self) (height self) (score self)
       (high_score self) (game_state self) (bg_scroll self)
       (bg_scroll_speed self) (projectiles self) v (shot_cooldown self)
       (player self) (walls self) (enemies self) (last_wall self)
       (last_enemy self) (start_button_rect self).

Definition set_player (self : t) (v : Player.t) : t :=
  make (config self) (width self) (height self) (score self)
       (high_score self) (game_state self) (bg_scroll self)
       (bg_scroll_speed self) (projectiles self) (last_shot self)
       (shot_cooldown self) v (walls self) (enemies self) (last_wall self)
       (last_enemy self) (start_button_rect self).

Definition set_walls (self : t) (v : list Wall.t) : t :=
  make (config self) (width self) (height self) (score self)
       (high_score self) (game_state self) (bg_scroll self)
       (bg_scroll_speed self) (projectiles self) (last_shot self)
       (shot_cooldown self) (player self) v (enemies self) (last_wall self)
       (last_enemy self) (start_button_rect self).

Definition set_enemies (self : t) (v : list Enemy.t) : t :=
  make (config self) (width self) (height self) (score self)
       (high_score self) (game_state self) (bg_scroll self)
       (bg_scroll_speed self) (projectiles self) (last_shot self)
       (shot_cooldown self) (player self) (walls self) v (last_wall self)
       (last_enemy self) (start_button_rect self).

Definition set_last_wall (self : t) (v : Z) : t :=
  make (config self) (width self) (height self) (score self)
       (high_score self) (game_state self) (bg_scroll self)
       (bg_scroll_speed self) (projectiles self) (last_shot self)
       (shot_cooldown self) (player self) (walls self) (enemies self) v
       (last_enemy self) (start_button_rect self).

Definition set_last_enemy (self : t) (v : Z) : t :=
  make (config self) (width self) (height self) (score self)
       (high_score self) (game_state self) (bg_scroll self)
       (bg_scroll_speed self) (projectiles self) (last_shot self)
       (shot_cooldown self) (player self) (walls self) (enemies self)
       (last_wall self) v (start_button_rect self).

Definition set_start_button_rect (self : t) (v : option Rect.t) : t :=
  make (config self) (width self) (height self) (score self)
       (high_score self) (game_state self) (bg_scroll self)
       (bg_scroll_speed self) (projectiles self) (last_shot self)
       (shot_cooldown self) (player self) (walls self) (enemies self)
       (last_wall self) (last_enemy self) v.

Section Methods.

Variable env : Env.

(** *** Requests to the outside world *)

(** [pygame.time.get_ticks()] *)
Definition get_ticks : M Z := fun o =>
  Ok (ticks env (ticks_read o),
      Build_Outside (highscore_txt o) (played o) (S (ticks_read o))
                    (random_drawn o) (next_oid o)).

Definition draw_raw : M Z := fun o =>
  Ok (random_raw env (random_drawn o),
      Build_Outside (highscore_txt o) (played o) (ticks_read o)
                    (S (random_drawn o)) (next_oid o)).

(** [random.randint(a, b)]: some [n] with [a <= n <= b]; [ValueError] on an
    empty range. *)
Definition randint (a b : Z) : M Z :=
  if b <? a then raise ValueError
  else r <- draw_raw ;; ret (a + r mod (b - a + 1)).

(** [random.choice([-1, 1])] *)
Definition choice_sign : M Z :=
  r <- draw_raw ;; ret (if Z.even r then -1 else 1).

(** [random.random()] *)
Definition random : M Q := fun o =>
  Ok (random_unit env (random_drawn o),
      Build_Outside (highscore_txt o) (played o) (ticks_read o)
                    (S (random_drawn o)) (next_oid o)).

(** The identity of a newly constructed object. *)
Definition new_oid : M nat := fun o =>
  Ok (next_oid o,
      Build_Outside (highscore_txt o) (played o) (ticks_read o)
                    (random_drawn o) (S (next_oid o))).

(** [self.sounds[s].play()] *)
Definition play (s : Sound) : M unit := fun o =>
  Ok (tt,
      Build_Outside (highscore_txt o) (played o ++ [s]) (ticks_read o)
                    (random_drawn o) (next_oid o)).

(** *** High score *)

Definition load_high_score : M Z := fun o =>
  match highscore_txt o with
  | Missing => Ok (0, o)                      (* except FileNotFoundError *)
  | Unreadable => Raise OSError
  | Undecodable => Raise ValueError           (* UnicodeDecodeError *)
  | Content s =>
      match py_int env s with
      | Some n => Ok (n, o)
      | None => Raise ValueError
      end
  end.

Definition save_high_score (self : t) : M unit := fun o =>
  Ok (tt,
      Build_Outside (Content (str (high_score self))) (played o)
                    (ticks_read o) (random_drawn o) (next_oid o)).

(** *** Spawning *)

Definition create_wall_pair (self : t) : M t :=
  let wall_config_gap := Config.walls_gap (config self) in
  gap_y <- randint wall_config_gap (height self - wall_config_gap) ;;
  let wall_speed := (Config.walls_speed (config self)
                     * Config.level_wall_speed_multiplier (config self))%Q in
  id_top <- new_oid ;;
  let top_wall :=
    Wall.__init__ id_top (width self) 0 (Config.walls_width (config self))
              (gap_y - wall_config_gap / 2) wall_speed in
  id_bottom <- new_oid ;;
  let bottom_wall :=
    Wall.__init__ id_bottom (width self) (gap_y + wall_config_gap / 2)
              (Config.walls_width (config self))
              (height self - (gap_y + wall_config_gap / 2)) wall_speed in
  ret (set_walls self (walls self ++ [top_wall; bottom_wall])).

Definition spawn_enemy (self : t) : M t :=
  let enemy_height := Config.enemies_height (config self) in
  y <- randint enemy_height (height self - enemy_height) ;;
  id <- new_oid ;;
  direction <- choice_sign ;;
  r <- random ;;
  let enemy :=
    Enemy.__init__ id (width self) y (config self)
               (Config.level_enemy_speed_multiplier (config self))
               direction r in
  ret (set_enemies self (enemies self ++ [enemy])).

Definition reset_game (self : t) : M t :=
  id <- new_oid ;;
  let self := set_player self
                (Player.__init__ id (width self / 4) (height self / 2)
                             (config self)) in
  let self := set_walls self [] in
  let self := set_enemies self [] in
  let self := set_projectiles self [] in
  let self := set_last_wall self 0 in
  now <- get_ticks ;;
  let self := set_last_enemy self now in
  now <- get_ticks ;;
  let self := set_last_shot self now in
  self <- create_wall_pair self ;;
  ret (set_score self 0).

Definition shoot_projectile (self : t) : M t :=
  current_time <- get_ticks ;;
  if current_time - last_shot self >? shot_cooldown self then
    id <- new_oid ;;
    let projectile :=
      Projectile.__init__ id (Rect.right (Player.rect (player self)))
                      (Rect.centery (Player.rect (player self))) 10 in
    let self := set_projectiles self (projectiles self ++ [projectile]) in
    ret (set_last_shot self current_time)
  else ret self.

(** *** Collisions *)

Definition check_collisions (self : t) : M bool :=
  let player_rect := Player.rect (player self) in
  if existsb (fun wall => Rect.colliderect player_rect (Wall.rect wall))
             (walls self)
  then ret true
  else if existsb (fun enemy =>
                     Rect.colliderect player_rect (Enemy.rect enemy))
                  (enemies self)
  then play enemy_sound ;;; ret true
  else if (Rect.top player_rect <=? 0)
          || (Rect.bottom player_rect >=? height self)
  then ret true
  else ret false.

(** *** One simulation step *)

(** Body of [for wall in self.walls[:]]. *)
Definition walls_loop_body (wall : Wall.t) (self : t) : M t :=
  let wall := Wall.update wall in
  let self := set_walls self (mutated wall (walls self)) in
  if Rect.right (Wall.rect wall) <? 0 then
    walls' <- lift (list_remove wall (walls self)) ;;
    let self := set_walls self walls' in
    ret (set_score self (score self + (1 # 2)))
  else ret self.

(** Body of [for enemy in self.enemies[:]]. *)
Definition enemies_loop_body (enemy : Enemy.t) (self : t) : M t :=
  let enemy := Enemy.update (sin env) enemy in
  let self := set_enemies self (mutated enemy (enemies self)) in
  if Rect.right (Enemy.rect enemy) <? 0 then
    enemies' <- lift (list_remove enemy (enemies self)) ;;
    ret (set_enemies self enemies')
  else ret self.

(** The inner [for enemy in self.enemies[:]] with its [break]: only the
    first enemy that the projectile touches is acted upon. *)
Definition hit_first_enemy (projectile : Projectile.t) (self : t) : M t :=
  match find (fun enemy => Rect.colliderect (Projectile.rect projectile)
                                            (Enemy.rect enemy))
             (enemies self) with
  | Some enemy =>
      enemies' <- lift (list_remove enemy (enemies self)) ;;
      let self := set_enemies self enemies' in
      projectiles' <- lift (list_remove projectile (projectiles self)) ;;
      let self := set_projectiles self projectiles' in
      ret (set_score self (score self + 2))
  | None => ret self
  end.

(** Body of [for projectile in self.projectiles[:]]. *)
Definition projectiles_loop_body (projectile : Projectile.t) (self : t)
  : M t :=
  let projectile := Projectile.update projectile in
  let self := set_projectiles self (mutated projectile (projectiles self)) in
  if Rect.left (Projectile.rect projectile) >? width self then
    projectiles' <- lift (list_remove projectile (projectiles self)) ;;
    ret (set_projectiles self projectiles')
  else hit_first_enemy projectile self.

Definition update_game_objects (self : t) : M t :=
  let self := set_player self (Player.update (player self)) in
  self <- for_each (walls self) walls_loop_body self ;;
  self <- for_each (enemies self) enemies_loop_body self ;;
  self <- for_each (projectiles self) projectiles_loop_body self ;;
  current_time <- get_ticks ;;
  self <- (if current_time - last_wall self
              >? Config.level_wall_frequency (config self)
           then self <- create_wall_pair self ;;
                ret (set_last_wall self current_time)
           else ret self) ;;
  if current_time - last_enemy self
     >? Config.enemies_spawn_rate (config self)
  then
    if Z.of_nat (List.length (enemies self))
       <? Config.level_enemy_count (config self)
    then self <- spawn_enemy self ;;
         ret (set_last_enemy self current_time)
    else ret self
  else ret self.

(** *** Drawing, as far as it writes attributes of [self] *)

Definition draw_scrolling_background (self : t) : t :=
  if GameState_eqb (game_state self) PLAYING
  then set_bg_scroll self (bg_scroll self + bg_scroll_speed self)
  else self.

(** The button rectangle returned by
    [create_button("Start Game", 48, y_position)]. *)
Definition create_button (self : t) (y_position : Z) : Rect.t :=
  let text_rect :=
    Rect.centered (fst (start_text_size env)) (snd (start_text_size env))
                  (width self / 2) y_position in
  let padding := 20 in
  let button_rect :=
    Rect.make (Rect.x text_rect - padding) (Rect.y text_rect - padding)
              (Rect.w text_rect + 2 * padding)
              (Rect.h text_rect + 2 * padding) in
  Rect.set_centerx button_rect (width self / 2).

Definition draw_start_screen (self : t) : t :=
  let self := draw_scrolling_background self in
  set_start_button_rect self (Some (create_button self (height self / 2))).

Definition draw_game_objects (self : t) : t :=
  draw_scrolling_background self.

Definition draw_game_over_screen (self : t) : t := self.

(** *** The frame loop *)

(** [hasattr(self, 'start_button_rect')] *)
Definition hasattr_start_button_rect (self : t) : bool :=
  match start_button_rect self with Some _ => true | None => false end.

(** [if self.start_button_rect.collidepoint(event.pos):
       self.game_state = "PLAYING"] *)
Definition click_start_button (event : Event) (self : t) : t :=
  match start_button_rect self with
  | Some button_rect =>
      if Rect.collidepoint button_rect (pos event)
      then set_game_state self PLAYING else self
  | None => self
  end.

(** Body of [for event in pygame.event.get()]; the state is the local
    [running] and [self].  The chain of [elif] is kept as written: the
    second test for [MOUSEBUTTONDOWN] comes after the first. *)
Definition handle_event (event : Event) (st : bool * t) : M (bool * t) :=
  let running := fst st in
  let self := snd st in
  if EventType_eqb (type event) QUIT then ret (false, self)
  else if EventType_eqb (type event) MOUSEBUTTONDOWN then
    if button event =? 1 then
      if GameState_eqb (game_state self) START
         && hasattr_start_button_rect self
      then ret (running, click_start_button event self)
      else ret (running, self)
    else ret (running, self)
  else if EventType_eqb (type event) MOUSEBUTTONDOWN then
    if button event =? 1 then
      if GameState_eqb (game_state self) START
         && hasattr_start_button_rect self
      then ret (running, click_start_button event self)
      else if GameState_eqb (game_state self) PLAYING
      then self <- shoot_projectile self ;; ret (running, self)
      else ret (running, self)
    else ret (running, self)
  else if EventType_eqb (type event) KEYDOWN then
    if Key_eqb (key event) K_SPACE then
      if GameState_eqb (game_state self) PLAYING
      then let self := set_player self (Player.flap (player self)) in
           play flap_sound ;;; ret (running, self)
      else if GameState_eqb (game_state self) GAME_OVER
      then self <- reset_game self ;;
           ret (running, set_game_state self PLAYING)
      else ret (running, self)
    else if Key_eqb (key event) K_RIGHT
            && GameState_eqb (game_state self) PLAYING
    then self <- shoot_projectile self ;; ret (running, self)
    else ret (running, self)
  else ret (running, self).

(** [if self.game_state == "PLAYING": ...] of [run]. *)
Definition simulate (self : t) : M t :=
  if GameState_eqb (game_state self) PLAYING then
    self <- update_game_objects self ;;
    collided <- check_collisions self ;;
    if collided : bool then
      play gameover_sound ;;;
      self <- (if Qlt_bool (inject_Z (high_score self)) (score self)
               then let self := set_high_score self (int (score self)) in
                    save_high_score self ;;; ret self
               else ret self) ;;
      ret (set_game_state self GAME_OVER)
    else ret self
  else ret self.

(** [# Draw current game state] of [run]. *)
Definition draw (self : t) : t :=
  match game_state self with
  | START => draw_start_screen self
  | PLAYING => draw_game_objects self
  | GAME_OVER => draw_game_over_screen self
  end.

(** One iteration of [while running], given the events that
    [pygame.event.get()] returns; the result tells whether the loop goes
    on. *)
Definition run_frame (events : list Event) (self : t) : M (bool * t) :=
  st <- for_each events handle_event (true, self) ;;
  self <- simulate (snd st) ;;
  ret (fst st, draw self).

(** [run], given the events of the successive frames. *)
Fixpoint run (frames : list (list Event)) (self : t) : M t :=
  match frames with
  | [] => ret self
  | events :: frames' =>
      st <- run_frame events self ;;
      if fst st : bool then run frames' (snd st) else ret (snd st)
  end.

(** [FlappyBird.__init__], given the loaded configuration.
    [before_reset] is [self] just before the call of [reset_game]: the
    attributes that [reset_game] assigns do not exist yet, the record holds
    fillers for them and [reset_game] overwrites them all. *)
Definition before_reset (config : Config.t) (high_score : Z) : t :=
  make config (Config.window_width config) (Config.window_height config)
       0 high_score START 0 (Config.walls_speed config)
       [] 0 500
       (Player.__init__ 0 0 0 config) [] [] 0 0 None.

Definition __init__ (config : Config.t) : M t :=
  high_score <- load_high_score ;;
  reset_game (before_reset config high_score).

End Methods.

End FlappyBird.

(** ** Predicates used by the properties *)

(** A list of wall segments made of consecutive (top, bottom) pairs whose
    two segments agree on horizontal position, width and speed. *)
Inductive paired : list Wall.t -> Prop :=
| paired_nil : paired []
| paired_cons (top_wall bottom_wall : Wall.t) (l : list Wall.t) :
    Wall.x top_wall = Wall.x bottom_wall ->
    Rect.x (Wall.rect top_wall) = Rect.x (Wall.rect bottom_wall) ->
    Rect.w (Wall.rect top_wall) = Rect.w (Wall.rect bottom_wall) ->
    Wall.width top_wall = Wall.width bottom_wall ->
    Wall.speed top_wall = Wall.speed bottom_wall ->
    paired l ->
    paired (top_wall :: bottom_wall :: l).

(** A score that is a whole, non-negative number of points. *)
Definition whole (q : Q) : Prop := exists n : Z, 0 <= n /\ (q == inject_Z n)%Q.

(** Every object of [l] was allocated before the allocator reached [n]. *)
Definition allocated {A} `{Identified A} (n : nat) (l : list A) : Prop :=
  Forall (fun a => (ident a < n)%nat) l.

(** The objects of [l] are pairwise distinct. *)
Definition distinct {A} `{Identified A} (l : list A) : Prop :=
  NoDup (map ident l).

(** [n] times [s = s + d]. *)
Fixpoint add_each (n : nat) (d s : Q) : Q :=
  match n with
  | O => s
  | S n' => add_each n' d (s + d)
  end.

(** The walls left, and the number of walls removed, by the loop over
    [self.walls[:]] when it starts from the list [l]. *)
Definition wall_off_screen (wall : Wall.t) : bool :=
  Rect.right (Wall.rect wall) <? 0.
Definition walls_kept (l : list Wall.t) : list Wall.t :=
  filter (fun wall => negb (wall_off_screen wall)) (map Wall.update l).
Definition walls_culled (l : list Wall.t) : nat :=
  List.length (filter wall_off_screen (map Wall.update l)).

(** The same for the loop over [self.enemies[:]]. *)
Definition enemy_off_screen (enemy : Enemy.t) : bool :=
  Rect.right (Enemy.rect enemy) <? 0.
Definition enemies_kept (sin : Q -> Q) (l : list Enemy.t) : list Enemy.t :=
  filter (fun enemy => negb (enemy_off_screen enemy))
         (map (Enemy.update sin) l).

(** [projectile.rect.colliderect(enemy.rect)] *)
Definition touches (projectile : Projectile.t) (enemy : Enemy.t) : bool :=
  Rect.colliderect (Projectile.rect projectile) (Enemy.rect enemy).

(** The list [l] once the object [o] is taken out. *)
Definition without {A} `{Identified A} (o : A) (l : list A) : list A :=
  filter (fun a => negb (same_object a o)) l.

(** Well-formed program states. *)
Record wf (self : FlappyBird.t) (o : Outside) : Prop := {
  wf_walls : distinct (FlappyBird.walls self);
  wf_enemies : distinct (FlappyBird.enemies self);
  wf_projectiles : distinct (FlappyBird.projectiles self);
  wf_walls_alloc : allocated (next_oid o) (FlappyBird.walls self);
  wf_enemies_alloc : allocated (next_oid o) (FlappyBird.enemies self);
  wf_projectiles_alloc : allocated (next_oid o) (FlappyBird.projectiles self);
  wf_paired : paired (FlappyBird.walls self);
  wf_whole : whole (FlappyBird.score self) }.

(** The states the program goes through: the constructor, then event
    handling, simulation and drawing steps in any order (the frame loop
    runs them in one fixed order, see [run_frame_reachable]). *)
Inductive reachable (env : Env) : FlappyBird.t -> Outside -> Prop :=
| reach_init config o self o' :
    FlappyBird.__init__ env config o = Ok (self, o') ->
    reachable env self o'
| reach_event event running self o running' self' o' :
    reachable env self o ->
    FlappyBird.handle_event env event (running, self) o
      = Ok ((running', self'), o') ->
    reachable env self' o'
| reach_simulate self o self' o' :
    reachable env self o ->
    FlappyBird.simulate env self o = Ok (self', o') ->
    reachable env self' o'
| reach_draw self o :
    reachable env self o ->
    reachable env (FlappyBird.draw env self) o.

(** The inputs that the design document lists as accepted in each state
    (sections 4.4 and 6): the quit signal; in START a pointer press on the
    start control; in PLAYING the flap key, the fire key and a pointer
    press; in GAME_OVER the restart key. *)
Definition hits_start_button (self : FlappyBird.t) (event : Event) : bool :=
  match FlappyBird.start_button_rect self with
  | Some button_rect => Rect.collidepoint button_rect (pos event)
  | None => false
  end.

Definition documented_trigger (self : FlappyBird.t) (event : Event) : bool :=
  match type event with
  | QUIT => true
  | MOUSEBUTTONDOWN =>
      (button event =? 1)
      && match FlappyBird.game_state self with
         | START => hits_start_button self event
         | PLAYING => true
         | GAME_OVER => false
         end
  | KEYDOWN =>
      match key event, FlappyBird.game_state self with
      | K_SPACE, PLAYING | K_SPACE, GAME_OVER | K_RIGHT, PLAYING => true
      | _, _ => false
      end
  | OTHER_EVENT => false
  end.

(** ** The loops and the drawing, described as functions *)

(** What the loop over [self.projectiles[:]] leaves when it starts from the
    projectiles [todo] and the enemies [enemies]: the projectiles kept, the
    enemies kept and the number of hits. *)
Fixpoint fire_pass (width : Z) (todo : list Projectile.t)
    (enemies : list Enemy.t) : list Projectile.t * list Enemy.t * nat :=
  match todo with
  | [] => ([], enemies, 0%nat)
  | projectile :: rest =>
      let moved := Projectile.update projectile in
      if Rect.left (Projectile.rect moved) >? width
      then fire_pass width rest enemies
      else match find (touches moved) enemies with
           | Some enemy =>
               let r := fire_pass width rest (without enemy enemies) in
               (fst (fst r), snd (fst r), S (snd r))
           | None =>
               let r := fire_pass width rest enemies in
               (moved :: fst (fst r), snd (fst r), snd r)
           end
  end.

Definition is_quit (event : Event) : bool := EventType_eqb (type event) QUIT.

(** The key that restarts the game in GAME_OVER. *)
Definition is_space_key (event : Event) : bool :=
  EventType_eqb (type event) KEYDOWN && Key_eqb (key event) K_SPACE.

Definition is_left_click (event : Event) : bool :=
  EventType_eqb (type event) MOUSEBUTTONDOWN && (button event =? 1).

(** [q % w] for a float [q] and an integer [w]. *)
Definition float_mod (q : Q) (w : Z) : Q :=
  (q - inject_Z w * inject_Z (Qfloor (q / inject_Z w)))%Q.

(** The blits of [draw_scrolling_background], in order: whether the image
    is the flipped one, and [x_pos].  The background was scaled to the
    window by [load_assets], so [bg_width] is [self.width]; [None] stands
    for the [ZeroDivisionError] of a window of width 0. *)
Definition scrolling_background_blits (self : FlappyBird.t)
  : option (list (bool * Q)) :=
  let bg_width := FlappyBird.width self in
  if bg_width =? 0 then None
  else
    let tiles :=
      Qceiling (inject_Z (FlappyBird.width self) / inject_Z bg_width) + 2 in
    let first_tile :=
      Qfloor (FlappyBird.bg_scroll self / inject_Z bg_width) in
    Some (map (fun i : nat =>
                 let current_tile := first_tile + Z.of_nat i in
                 let x_pos :=
                   (inject_Z (Z.of_nat i * bg_width)
                    - float_mod (FlappyBird.bg_scroll self) bg_width)%Q in
                 (negb (current_tile mod 2 =? 0), x_pos))
              (seq 0 (Z.to_nat tiles))).

(** ** Sample configuration, environment and inputs *)

Module Sample.

Definition config : Config.t :=
  Config.make 400 800 40 40 (1 # 2) (-10) 10 60 150 3 40 40 2 3000
              1 1 1500 3.

(** The same window with an odd gap. *)
Definition config_odd_gap : Config.t :=
  Config.make 400 800 40 40 (1 # 2) (-10) 10 60 151 3 40 40 2 3000
              1 1 1500 3.

(** An excerpt of the Unicode database: the Arabic-Indic, Devanagari and
    fullwidth digits. *)
Definition decimal (c : N) : option N :=
  if ((1632 <=? c) && (c <=? 1641))%N then Some (c - 1632)%N
  else if ((2406 <=? c) && (c <=? 2415))%N then Some (c - 2406)%N
  else if ((65296 <=? c) && (c <=? 65305))%N then Some (c - 65296)%N
  else None.

Definition env : Env :=
  {| ticks := fun n => 1000 * Z.of_nat n;
     random_raw := fun n => 137 * Z.of_nat n + 50;
     random_unit := fun _ => 1 # 2;
     sin := fun _ => 0%Q;
     start_text_size := (180, 34);
     unicode_decimal := decimal;
     int_max_str_digits := 4300 |}.

Definition outside : Outside := Build_Outside Missing [] 0 0 0.

Definition left_click (at_pos : Z * Z) : Event :=
  Build_Event MOUSEBUTTONDOWN 1 at_pos K_OTHER.
Definition key_down (k : Key) : Event := Build_Event KEYDOWN 0 (0, 0) k.

(** A projectile about to reach two enemies that stand at the same place. *)
Definition projectile : Projectile.t := Projectile.__init__ 7 100 400 10.
Definition first_enemy : Enemy.t :=
  Enemy.__init__ 8 120 395 config 1 1 (1 # 2).
Definition second_enemy : Enemy.t :=
  Enemy.__init__ 9 120 395 config 1 1 (1 # 2).
Definition under_fire : FlappyBird.t :=
  FlappyBird.set_enemies
    (FlappyBird.set_projectiles
       (FlappyBird.set_game_state (FlappyBird.before_reset config 0) PLAYING)
       [projectile])
    [first_enemy; second_enemy].

(** Start-up, one frame on the start screen, a click on the start button:
    the game is being played. *)
Abbreviation playing :=
  (bind (FlappyBird.__init__ env config)
        (FlappyBird.run env [[]; [left_click (200, 400)]]) outside).

(** The same, then frames without input until the player has fallen to
    the bottom of the screen. *)
Abbreviation game_over :=
  (bind (FlappyBird.__init__ env config)
        (FlappyBird.run env ([] :: [left_click (200, 400)] :: repeat [] 45))
        outside).

(** A faster game: walls that cross the screen in five steps, and a random
    source that always opens the gap in front of the player.  After
    fifteen simulation steps six pairs have gone by and the player is one
    step away from the bottom wall of the next pair. *)
Definition fast_config : Config.t :=
  Config.make 400 800 40 40 (1 # 2) (-10) 10 60 150 100 40 40 2 3000
              1 1 1500 3.

Definition steady_env : Env :=
  {| ticks := fun n => 1000 * Z.of_nat n;
     random_raw := fun _ => 270;
     random_unit := fun _ => 1 # 2;
     sin := fun _ => 0%Q;
     start_text_size := (180, 34);
     unicode_decimal := decimal;
     int_max_str_digits := 4300 |}.

Abbreviation about_to_crash :=
  (bind (FlappyBird.__init__ steady_env fast_config)
        (FlappyBird.run steady_env
           ([] :: [left_click (200, 400)] :: repeat [] 14))
        outside).

(** A gap wider than half the window, and enemies taller than half the
    window. *)
Definition wide_gap_config : Config.t :=
  Config.make 400 800 40 40 (1 # 2) (-10) 10 60 500 3 40 40 2 3000
              1 1 1500 3.

Definition tall_enemy_config : Config.t :=
  Config.make 400 800 40 40 (1 # 2) (-10) 10 60 150 3 40 500 2 3000
              1 1 1500 3.

(** The game with tall enemies, started and played for two steps: the
    next step is the first in which an enemy is due. *)
Abbreviation before_first_enemy :=
  (bind (FlappyBird.__init__ env tall_enemy_config)
        (FlappyBird.run env [[]; [left_click (200, 400)]; []])
        outside).

(** The game started, then the fire key in the third frame. *)
Abbreviation after_shot :=
  (bind (FlappyBird.__init__ env config)
        (FlappyBird.run env
           [[]; [left_click (200, 400)]; [key_down K_RIGHT]])
        outside).

(** Every draw gives 360: the enemies fly at the height of the shots. *)
Definition head_on_env : Env :=
  {| ticks := fun n => 1000 * Z.of_nat n;
     random_raw := fun _ => 360;
     random_unit := fun _ => 1 # 2;
     sin := fun _ => 0%Q;
     start_text_size := (180, 34);
     unicode_decimal := decimal;
     int_max_str_digits := 4300 |}.

(** A shot, then 19 frames: the projectile is about to reach the first of
    three enemies that fly in a row. *)
Abbreviation head_on :=
  (bind (FlappyBird.__init__ head_on_env config)
        (FlappyBird.run head_on_env
           ([] :: [left_click (200, 400)] :: [key_down K_RIGHT]
               :: repeat [] 19))
        outside).

End Sample.

(** * Properties *)

Import FlappyBird.

(** ** Reasoning about the monad *)

Lemma bind_Ok {A B} (m : M A) (k : A -> M B) (o : Outside) r :
  bind m k o = Ok r -> exists a o1, m o = Ok (a, o1) /\ k a o1 = Ok r.
Proof.
  unfold bind. destruct (m o) as [[a o1]|e]; [eauto | discriminate].
Qed.

Lemma bind_eq {A B} (m : M A) (k : A -> M B) (o o1 : Outside) a :
  m o = Ok (a, o1) -> bind m k o = k a o1.
Proof. unfold bind. intros ->. reflexivity. Qed.

Lemma lift_Ok {A} (r : result A) (o : Outside) a o' :
  lift r o = Ok (a, o') -> r = Ok a /\ o' = o.
Proof. unfold lift. destruct r; intros H; inversion H; auto. Qed.

Lemma ret_Ok {A} (a b : A) (o o' : Outside) :
  ret a o = Ok (b, o') -> b = a /\ o' = o.
Proof. unfold ret. intros H; inversion H; auto. Qed.

(** Splits a successful run into the runs of its parts. *)
Ltac run_inv H :=
  lazymatch type of H with
  | bind _ _ _ = Ok _ =>
      let a := fresh "a" in
      let o := fresh "o" in
      let H1 := fresh "Hrun" in
      let H2 := fresh "Hrun" in
      apply bind_Ok in H; destruct H as (a & o & H1 & H2);
      try run_inv H1; try run_inv H2
  | ret _ _ = Ok _ =>
      let E1 := fresh "E" in
      let E2 := fresh "E" in
      apply ret_Ok in H; destruct H as [E1 E2]; subst
  | lift _ _ = Ok _ =>
      let E1 := fresh "E" in
      let E2 := fresh "E" in
      apply lift_Ok in H; destruct H as [E1 E2]; subst
  | raise _ _ = Ok _ => discriminate H
  end.

Lemma get_ticks_Ok env o :
  get_ticks env o
  = Ok (ticks env (ticks_read o),
        Build_Outside (highscore_txt o) (played o) (S (ticks_read o))
                      (random_drawn o) (next_oid o)).
Proof. reflexivity. Qed.

Lemma randint_Ok env a b o n o' :
  randint env a b o = Ok (n, o') ->
  a <= n <= b /\ next_oid o' = next_oid o /\ highscore_txt o' = highscore_txt o.
Proof.
  unfold randint. destruct (Z.ltb_spec b a); [discriminate|].
  unfold bind, draw_raw, ret. intros H'; inversion H'; subst; simpl.
  pose proof (Z.mod_pos_bound (random_raw env (random_drawn o)) (b - a + 1)
                ltac:(lia)).
  repeat split; lia.
Qed.

Lemma randint_total env a b o :
  a <= b -> exists n o', randint env a b o = Ok (n, o').
Proof.
  intros Hab. unfold randint. destruct (Z.ltb_spec b a); [lia|].
  unfold bind, draw_raw, ret. eauto.
Qed.

(** ** The model on concrete inputs *)

Example py_int_examples :
  let int (s : string) := py_int Sample.env (text_of_string s) in
  (int "42" = Some 42
   /\ int " -1_000 " = Some (-1000)
   /\ int "+7" = Some 7
   /\ int "007" = Some 7
   /\ int "" = None
   /\ int "4.5" = None
   /\ int "1__0" = None
   /\ int "1_" = None
   /\ int "- 1" = None)%string.
Proof. repeat split. Qed.

(** Separators: the information separators 28 to 31 are not skipped, white
    space beyond ASCII is; digits of other scripts count. *)
Example py_int_beyond_ascii :
  py_int Sample.env [28; 55]%N = None
  /\ py_int Sample.env [160; 55]%N = Some 7
  /\ py_int Sample.env [8195; 45; 65303; 8232]%N = Some (-7)
  /\ py_int Sample.env [1636; 1634]%N = Some 42
  /\ py_int Sample.env [178]%N = None
  /\ py_int Sample.env [127; 55]%N = None.
Proof. repeat split. Qed.

(** The limit on the number of digits. *)
Example py_int_limit :
  (exists n, py_int Sample.env (repeat 55%N 4300) = Some n)
  /\ py_int Sample.env (repeat 55%N 4301) = None
  /\ py_int Sample.env (45%N :: repeat 48%N 4301 ++ [32%N]) = None
  /\ py_int Sample.env (45%N :: repeat 48%N 4300 ++ [32%N]) = Some 0.
Proof.
  split; [eexists; vm_compute; reflexivity|].
  split; [vm_compute; reflexivity|].
  split; vm_compute; reflexivity.
Qed.

Example start_up :
  exists self o top_wall bottom_wall,
    __init__ Sample.env Sample.config Sample.outside = Ok (self, o)
    /\ game_state self = START
    /\ walls self = [top_wall; bottom_wall]
    /\ Wall.height top_wall = 125
    /\ Rect.top (Wall.rect bottom_wall) = 275
    /\ Wall.height bottom_wall = 525
    /\ Player.rect (player self) = Rect.make 100 400 40 40.
Proof.
  eexists _, _, _, _. split; [vm_compute; reflexivity|]. repeat split.
Qed.

(** Fifteen steps of the fast game: six pairs have left the screen, each
    worth one point, and three pairs are on their way. *)
Example fast_game :
  exists self o,
    Sample.about_to_crash = Ok (self, o)
    /\ game_state self = PLAYING
    /\ (score self == 6)%Q
    /\ List.length (walls self) = 6%nat
    /\ ticks_read o = 17%nat.
Proof.
  eexists _, _. split; [vm_compute; reflexivity|]. repeat split.
Qed.

(** The sixteenth step ends it on the seventh point. *)
Example fast_game_over :
  exists self o self' o',
    Sample.about_to_crash = Ok (self, o)
    /\ simulate Sample.steady_env self o = Ok (self', o')
    /\ game_state self' = GAME_OVER
    /\ (score self' == 7)%Q
    /\ played o' = [gameover_sound].
Proof.
  eexists _, _, _, _. split; [vm_compute; reflexivity|].
  split; [vm_compute; reflexivity|]. repeat split.
Qed.

(** ** Obstacle pairs (C1) *)

Lemma C1_counterexample :
  let self := before_reset Sample.config_odd_gap 0 in
  exists top_wall bottom_wall o',
    create_wall_pair Sample.env self Sample.outside
    = Ok (set_walls self [top_wall; bottom_wall], o')
    /\ Config.walls_gap (config self) = 151
    /\ height self = 800
    /\ Wall.height top_wall + 151 + Wall.height bottom_wall = 801.
Proof.
  eexists _, _, _. split; [vm_compute; reflexivity|].
  repeat split.
Qed.

(** C1 (amended).  Whatever gap centre is drawn, a spawned pair is appended
    to the obstacles; the top segment starts at the top of the screen, the
    bottom segment ends at the bottom of the screen, and the clearance
    between them is twice the floored half of the configured gap.  So top
    height, twice the floored half gap and bottom height add up to the
    screen height; with the configured gap in place of twice its floored
    half, the sum is the screen height for an even gap and one more for an
    odd gap. *)
Theorem C1_wall_pair_spans_screen env self o :
  let gap := Config.walls_gap (config self) in
  gap <= height self - gap ->
  exists top_wall bottom_wall o',
    create_wall_pair env self o
    = Ok (set_walls self (walls self ++ [top_wall; bottom_wall]), o')
    /\ Rect.top (Wall.rect top_wall) = 0
    /\ Rect.bottom (Wall.rect bottom_wall) = height self
    /\ Rect.top (Wall.rect bottom_wall) - Rect.bottom (Wall.rect top_wall)
       = 2 * (gap / 2)
    /\ Wall.height top_wall + 2 * (gap / 2) + Wall.height bottom_wall
       = height self
    /\ Wall.height top_wall + gap + Wall.height bottom_wall
       = height self + gap mod 2
    /\ (Z.even gap = true ->
        Wall.height top_wall + gap + Wall.height bottom_wall = height self).
Proof.
  intros gap Hgap. unfold create_wall_pair, randint. fold gap.
  destruct (Z.ltb_spec (height self - gap) gap) as [Hlt|_]; [lia|].
  unfold bind, draw_raw, new_oid, ret.
  eexists _, _, _. split; [reflexivity|].
  unfold Wall.height, Wall.rect, Wall.__init__, GameObject.__init__,
    Rect.top, Rect.bottom.
  cbn [Wall.base GameObject.height GameObject.rect Rect.y Rect.h].
  pose proof (Z.div_mod gap 2 ltac:(lia)) as Hdm.
  split; [reflexivity|]. split; [lia|]. split; [lia|].
  split; [lia|]. split; [lia|].
  intros Heven. apply Z.even_spec in Heven. destruct Heven as [k Hk].
  assert (gap mod 2 = 0) by (rewrite Hk, Z.mul_comm; apply Z.mod_mul; lia).
  lia.
Qed.

Lemma C1_wall_pair_spans_screen_witness :
  let self := before_reset Sample.config 0 in
  exists top_wall bottom_wall o',
    create_wall_pair Sample.env self Sample.outside
    = Ok (set_walls self (walls self ++ [top_wall; bottom_wall]), o')
    /\ Wall.height top_wall + 150 + Wall.height bottom_wall = 800.
Proof.
  destruct (C1_wall_pair_spans_screen Sample.env
              (before_reset Sample.config 0) Sample.outside)
    as (top_wall & bottom_wall & o' & Hrun & _ & _ & _ & _ & _ & Heven).
  - vm_compute. discriminate.
  - exists top_wall, bottom_wall, o'. split; [exact Hrun|].
    apply Heven. reflexivity.
Defined.

(** ** Firing (C2, C3) *)

Lemma C2_counterexample :
  let self := set_last_shot (before_reset Sample.config 0) 500 in
  let o := Build_Outside Missing [] 1 0 0 in
  ticks Sample.env (ticks_read o) - last_shot self = shot_cooldown self
  /\ exists o', shoot_projectile Sample.env self o = Ok (self, o').
Proof. split; [reflexivity|]. eexists. reflexivity. Qed.

(** C2 (amended).  A fire command creates a projectile, and records the
    time of the shot, exactly when the time elapsed since the last
    successful fire is strictly greater than the cooldown; a command given
    before the interval has elapsed, or exactly when it has, changes neither
    the projectiles nor the time of the last shot. *)
Theorem C2_fire_needs_cooldown_exceeded env self o :
  let now := ticks env (ticks_read o) in
  exists self' o',
    shoot_projectile env self o = Ok (self', o')
    /\ (shot_cooldown self < now - last_shot self ->
        exists projectile,
          projectiles self' = projectiles self ++ [projectile]
          /\ last_shot self' = now)
    /\ (now - last_shot self <= shot_cooldown self ->
        projectiles self' = projectiles self
        /\ last_shot self' = last_shot self).
Proof.
  intros now. unfold shoot_projectile.
  rewrite (bind_eq _ _ _ _ _ (get_ticks_Ok env o)). fold now.
  destruct (Z.gtb_spec (now - last_shot self) (shot_cooldown self)) as [Hgt|Hle].
  - eexists _, _. split; [reflexivity|]. split; [|lia].
    intros _. eexists. split; reflexivity.
  - eexists _, _. split; [reflexivity|]. split; [lia|]. auto.
Qed.

Lemma C2_fire_needs_cooldown_exceeded_witness :
  let self := set_last_shot (before_reset Sample.config 0) 499 in
  let o := Build_Outside Missing [] 1 0 0 in
  exists self' o' projectile,
    shoot_projectile Sample.env self o = Ok (self', o')
    /\ projectiles self' = [projectile]
    /\ last_shot self' = 1000.
Proof.
  destruct (C2_fire_needs_cooldown_exceeded Sample.env
              (set_last_shot (before_reset Sample.config 0) 499)
              (Build_Outside Missing [] 1 0 0))
    as (self' & o' & Hrun & Hfire & _).
  destruct Hfire as (projectile & Hp & Ht); [vm_compute; reflexivity|].
  exists self', o', projectile. auto.
Defined.

(** A mouse event never reaches the second [MOUSEBUTTONDOWN] branch: outside
    START it changes nothing. *)
Lemma mouse_outside_START_ignored env event running self o :
  type event = MOUSEBUTTONDOWN ->
  game_state self <> START ->
  handle_event env event (running, self) o = Ok ((running, self), o).
Proof.
  intros Hty Hst. unfold handle_event. cbn [fst snd]. rewrite Hty.
  cbn [EventType_eqb].
  destruct (button event =? 1); [|reflexivity].
  destruct (game_state self); [congruence| |]; reflexivity.
Qed.

(** C3.  In the state reached by starting the game, with the cooldown
    elapsed, a left click leaves the program state as it is, whereas the
    fire key at the same moment adds a projectile. *)
Theorem C3_left_click_does_not_fire :
  exists self o,
    Sample.playing = Ok (self, o)
    /\ game_state self = PLAYING
    /\ shot_cooldown self < ticks Sample.env (ticks_read o) - last_shot self
    /\ handle_event Sample.env (Sample.left_click (200, 400)) (true, self) o
       = Ok ((true, self), o)
    /\ exists self' o' projectile,
         handle_event Sample.env (Sample.key_down K_RIGHT) (true, self) o
         = Ok ((true, self'), o')
         /\ projectiles self' = projectiles self ++ [projectile].
Proof.
  eexists _, _. split; [vm_compute; reflexivity|].
  split; [reflexivity|]. split; [reflexivity|]. split; [reflexivity|].
  eexists _, _, _. split; [vm_compute; reflexivity|]. reflexivity.
Qed.

(** ** Restart (C4) *)

Lemma C4_counterexample :
  exists self o self' o',
    Sample.game_over = Ok (self, o)
    /\ game_state self = GAME_OVER
    /\ handle_event Sample.env (Sample.key_down K_SPACE) (true, self) o
       = Ok ((true, self'), o')
    /\ ticks Sample.env (ticks_read o) = 48000
    /\ last_enemy self' = 48000
    /\ last_wall self' = 0.
Proof.
  eexists _, _, _, _. split; [vm_compute; reflexivity|].
  split; [reflexivity|]. split; [vm_compute; reflexivity|].
  repeat split.
Qed.

(** C4 (amended).  The restart key in GAME_OVER resets the session and
    moves to PLAYING: score 0, exactly one obstacle pair, no enemy, no
    projectile, a new player at the default position, the time of the last
    enemy and of the last shot set to the clock readings taken during the
    reset, and the time of the last obstacle set to 0. *)
Theorem C4_restart_resets_session env event running self o :
  type event = KEYDOWN ->
  key event = K_SPACE ->
  game_state self = GAME_OVER ->
  Config.walls_gap (config self) <= height self - Config.walls_gap (config self) ->
  exists self' o' top_wall bottom_wall,
    handle_event env event (running, self) o = Ok ((running, self'), o')
    /\ game_state self' = PLAYING
    /\ score self' = 0%Q
    /\ walls self' = [top_wall; bottom_wall]
    /\ enemies self' = []
    /\ projectiles self' = []
    /\ player self'
       = Player.__init__ (next_oid o) (width self / 4) (height self / 2)
                     (config self)
    /\ last_wall self' = 0
    /\ last_enemy self' = ticks env (ticks_read o)
    /\ last_shot self' = ticks env (S (ticks_read o)).
Proof.
  intros Hty Hkey Hst Hgap.
  unfold handle_event. cbn [fst snd]. rewrite Hty, Hkey, Hst.
  cbn [EventType_eqb Key_eqb GameState_eqb].
  unfold reset_game, create_wall_pair, randint.
  cbn [config height set_player set_walls set_enemies set_projectiles
       set_last_wall set_last_enemy set_last_shot].
  destruct (Z.ltb_spec (height self - Config.walls_gap (config self))
                       (Config.walls_gap (config self))); [lia|].
  eexists _, _, _, _. split; [reflexivity|].
  repeat split.
Qed.

Lemma C4_restart_resets_session_witness :
  exists self o self' o' top_wall bottom_wall,
    Sample.game_over = Ok (self, o)
    /\ handle_event Sample.env (Sample.key_down K_SPACE) (true, self) o
       = Ok ((true, self'), o')
    /\ game_state self' = PLAYING
    /\ score self' = 0%Q
    /\ walls self' = [top_wall; bottom_wall]
    /\ enemies self' = []
    /\ projectiles self' = []
    /\ last_wall self' = 0.
Proof.
  assert (Hrun : exists self o,
             Sample.game_over = Ok (self, o)
             /\ game_state self = GAME_OVER
             /\ Config.walls_gap (config self)
                <= height self - Config.walls_gap (config self)).
  { eexists _, _. split; [vm_compute; reflexivity|].
    split; [reflexivity|]. vm_compute. discriminate. }
  destruct Hrun as (self & o & Hrun & Hst & Hgap).
  destruct (C4_restart_resets_session Sample.env (Sample.key_down K_SPACE)
              true self o eq_refl eq_refl Hst Hgap)
    as (self' & o' & top_wall & bottom_wall & H).
  exists self, o, self', o', top_wall, bottom_wall.
  split; [exact Hrun|]. tauto.
Defined.

(** ** Loading the high score (C6) *)

(** What [load_high_score] does in each state of the storage: only the
    missing file is caught. *)
Lemma load_high_score_cases env config o :
  (highscore_txt o = Missing -> load_high_score env o = Ok (0, o))
  /\ (forall s n, highscore_txt o = Content s -> py_int env s = Some n ->
      load_high_score env o = Ok (n, o))
  /\ (highscore_txt o = Undecodable
      \/ (exists s, highscore_txt o = Content s /\ py_int env s = None) ->
      load_high_score env o = Raise ValueError
      /\ __init__ env config o = Raise ValueError)
  /\ (highscore_txt o = Unreadable ->
      load_high_score env o = Raise OSError
      /\ __init__ env config o = Raise OSError).
Proof.
  unfold __init__, bind, load_high_score.
  split; [intros ->; reflexivity|].
  split; [intros s n -> ->; reflexivity|].
  split; [intros [->|(s & -> & ->)]; split; reflexivity|].
  intros ->. split; reflexivity.
Qed.

(** C6 (the code at the failing inputs).  With [highscore.txt] holding
    [abc], holding nothing, or holding bytes that are not text, loading the
    high score does not return 0: it raises [ValueError], and so does the
    constructor of the game, whatever the environment and the configuration;
    a file that cannot be opened raises [OSError] in the same way.  Only the
    missing file gives 0. *)
Theorem C6_corrupt_high_score_crashes_start_up env config :
  let holding storage := Build_Outside storage [] 0 0 0 in
  let corrupt := holding (Content (text_of_string "abc")) in
  let empty := holding (Content []) in
  (py_int env (text_of_string "abc") = None
   /\ load_high_score env corrupt = Raise ValueError
   /\ __init__ env config corrupt = Raise ValueError)
  /\ (py_int env [] = None
      /\ load_high_score env empty = Raise ValueError
      /\ __init__ env config empty = Raise ValueError)
  /\ (load_high_score env (holding Undecodable) = Raise ValueError
      /\ __init__ env config (holding Undecodable) = Raise ValueError)
  /\ (load_high_score env (holding Unreadable) = Raise OSError
      /\ __init__ env config (holding Unreadable) = Raise OSError)
  /\ load_high_score env (holding Missing) = Ok (0, holding Missing).
Proof.
  cbv zeta.
  split; [split; [|split]; reflexivity|].
  split; [split; [|split]; reflexivity|].
  split; [split; reflexivity|].
  split; [split; reflexivity|].
  reflexivity.
Qed.

(** ** Lists of objects *)

Section Objects.

Context {A : Type} `{Identified A}.

Lemma mutated_other (o : A) (l : list A) :
  ~ In (ident o) (map ident l) -> mutated o l = l.
Proof.
  induction l as [|a l IH]; intros Hnot; [reflexivity|].
  cbn [mutated map] in *. unfold same_object at 1.
  destruct (Nat.eqb_spec (ident a) (ident o)) as [E|_].
  - exfalso. apply Hnot. left. exact E.
  - f_equal. apply IH. intros Hin. apply Hnot. right. exact Hin.
Qed.

Lemma distinct_middle (l1 l2 : list A) (a : A) :
  distinct (l1 ++ a :: l2) ->
  ~ In (ident a) (map ident l1) /\ ~ In (ident a) (map ident l2)
  /\ distinct (l1 ++ l2).
Proof.
  unfold distinct. rewrite !map_app. cbn [map]. intros Hnd.
  pose proof (NoDup_remove_1 _ _ _ Hnd) as H1.
  pose proof (NoDup_remove_2 _ _ _ Hnd) as H2.
  rewrite in_app_iff in H2. tauto.
Qed.

Lemma mutated_in_place (o a : A) (l1 l2 : list A) :
  distinct (l1 ++ a :: l2) -> ident o = ident a ->
  mutated o (l1 ++ a :: l2) = l1 ++ o :: l2.
Proof.
  intros Hnd Hid. destruct (distinct_middle _ _ _ Hnd) as (H1 & H2 & _).
  rewrite <- Hid in H1, H2.
  unfold mutated. rewrite map_app. cbn [map].
  fold (mutated o l1). fold (mutated o l2).
  rewrite (mutated_other o l1 H1), (mutated_other o l2 H2).
  unfold same_object. rewrite Hid, Nat.eqb_refl. reflexivity.
Qed.

Lemma list_remove_at (o a : A) (l1 l2 : list A) :
  ~ In (ident o) (map ident l1) -> ident a = ident o ->
  list_remove o (l1 ++ a :: l2) = Ok (l1 ++ l2).
Proof.
  intros Hnot Hid. induction l1 as [|b l1 IH]; cbn [list_remove app].
  - unfold same_object. rewrite Hid, Nat.eqb_refl. reflexivity.
  - unfold same_object at 1.
    destruct (Nat.eqb_spec (ident b) (ident o)) as [E|_].
    + exfalso. apply Hnot. left. exact E.
    + rewrite IH; [reflexivity|]. intros Hin. apply Hnot. right. exact Hin.
Qed.

Lemma distinct_replace (o a : A) (l1 l2 : list A) :
  distinct (l1 ++ a :: l2) -> ident o = ident a ->
  distinct ((l1 ++ [o]) ++ l2).
Proof.
  unfold distinct. intros Hnd Hid. rewrite <- app_assoc. cbn [app].
  rewrite map_app in *. cbn [map] in *. rewrite Hid. exact Hnd.
Qed.

Lemma find_split (f : A -> bool) (l : list A) (a : A) :
  find f l = Some a ->
  exists l1 l2, l = l1 ++ a :: l2 /\ f a = true
                /\ (forall b, In b l1 -> f b = false).
Proof.
  induction l as [|b l IH]; cbn [find]; [discriminate|].
  destruct (f b) eqn:Hb.
  - intros E; inversion E; subst. exists [], l. cbn. tauto.
  - intros Hfind. destruct (IH Hfind) as (l1 & l2 & -> & Ha & Hl1).
    exists (b :: l1), l2. cbn [app In]. repeat split; auto.
    intros c [<-|Hc]; auto.
Qed.

Lemma find_first (f : A -> bool) (l1 l2 : list A) (a : A) :
  f a = true -> (forall b, In b l1 -> f b = false) ->
  find f (l1 ++ a :: l2) = Some a.
Proof.
  intros Ha Hl1. induction l1 as [|b l1 IH]; cbn [find app].
  - rewrite Ha. reflexivity.
  - rewrite (Hl1 b (or_introl eq_refl)). apply IH.
    intros c Hc. apply Hl1. right. exact Hc.
Qed.

Lemma without_other (o : A) (l : list A) :
  ~ In (ident o) (map ident l) -> without o l = l.
Proof.
  induction l as [|a l IH]; intros Hnot; [reflexivity|].
  cbn [without filter map] in *. unfold same_object at 1.
  destruct (Nat.eqb_spec (ident a) (ident o)) as [E|_]; cbn [negb].
  - exfalso. apply Hnot. left. exact E.
  - f_equal. apply IH. intros Hin. apply Hnot. right. exact Hin.
Qed.

Lemma without_middle (a : A) (l1 l2 : list A) :
  distinct (l1 ++ a :: l2) -> without a (l1 ++ a :: l2) = l1 ++ l2.
Proof.
  intros Hnd. destruct (distinct_middle _ _ _ Hnd) as (H1 & H2 & _).
  unfold without. rewrite filter_app. cbn [filter].
  fold (without a l1). fold (without a l2).
  rewrite (without_other a l1 H1), (without_other a l2 H2).
  unfold same_object. rewrite Nat.eqb_refl. reflexivity.
Qed.

Lemma allocated_ids (n : nat) (l l' : list A) :
  incl (map ident l') (map ident l) -> allocated n l -> allocated n l'.
Proof.
  unfold allocated. rewrite !Forall_forall. intros Hincl Hl a Ha.
  assert (Hin : In (ident a) (map ident l))
    by (apply Hincl, in_map, Ha).
  apply in_map_iff in Hin. destruct Hin as (b & <- & Hb). apply Hl, Hb.
Qed.

Lemma allocated_more (n m : nat) (l : list A) :
  (n <= m)%nat -> allocated n l -> allocated m l.
Proof.
  unfold allocated. rewrite !Forall_forall. intros Hnm Hl a Ha.
  specialize (Hl a Ha). lia.
Qed.

Lemma distinct_snoc (n : nat) (l : list A) (a : A) :
  distinct l -> allocated n l -> (n <= ident a)%nat -> distinct (l ++ [a]).
Proof.
  unfold distinct, allocated. rewrite Forall_forall. intros Hnd Hl Ha.
  rewrite map_app. cbn [map].
  apply NoDup_rev in Hnd. rewrite <- (rev_involutive (_ ++ _)).
  apply NoDup_rev. rewrite rev_app_distr. cbn [rev app].
  constructor; [|exact Hnd].
  rewrite <- in_rev. intros Hin. apply in_map_iff in Hin.
  destruct Hin as (b & Hb & Hin). specialize (Hl b Hin). lia.
Qed.

Lemma allocated_snoc (n : nat) (l : list A) (a : A) :
  allocated n l -> (ident a < n)%nat -> allocated n (l ++ [a]).
Proof.
  unfold allocated. intros Hl Ha. apply Forall_app. split; [exact Hl|].
  constructor; [exact Ha | constructor].
Qed.

End Objects.

Lemma Wall_update_ident (wall : Wall.t) :
  ident (Wall.update wall) = ident wall.
Proof. reflexivity. Qed.

Lemma Enemy_update_ident sin (enemy : Enemy.t) :
  ident (Enemy.update sin enemy) = ident enemy.
Proof. reflexivity. Qed.

Lemma Projectile_update_ident (projectile : Projectile.t) :
  ident (Projectile.update projectile) = ident projectile.
Proof. reflexivity. Qed.

(** ** The three loops of a simulation step *)

Lemma walls_loop_body_run wall done rest self o :
  walls self = done ++ wall :: rest ->
  distinct (done ++ wall :: rest) ->
  walls_loop_body wall self o
  = Ok (if wall_off_screen (Wall.update wall)
        then set_score (set_walls self (done ++ rest))
                       (score self + (1 # 2))
        else set_walls self (done ++ Wall.update wall :: rest), o).
Proof.
  intros Hw Hnd. unfold walls_loop_body, wall_off_screen.
  cbn [walls set_walls]. rewrite Hw.
  rewrite (mutated_in_place _ _ _ _ Hnd (Wall_update_ident wall)).
  destruct (Rect.right (Wall.rect (Wall.update wall)) <? 0); [|reflexivity].
  destruct (distinct_middle _ _ _ Hnd) as (H1 & _ & _).
  rewrite (list_remove_at (Wall.update wall) (Wall.update wall) done rest);
    [reflexivity | exact H1 | reflexivity].
Qed.

Lemma walls_loop_run todo : forall done self o,
  walls self = done ++ todo ->
  distinct (done ++ todo) ->
  for_each todo walls_loop_body self o
  = Ok (set_score (set_walls self (done ++ walls_kept todo))
                  (add_each (walls_culled todo) (1 # 2) (score self)), o).
Proof.
  induction todo as [|wall rest IH]; intros done self o Hw Hnd.
  - cbn [for_each]. unfold walls_kept, walls_culled.
    cbn [map filter List.length add_each].
    rewrite app_nil_r in *. rewrite <- Hw. destruct self; reflexivity.
  - cbn [for_each].
    rewrite (bind_eq _ _ _ _ _ (walls_loop_body_run _ _ _ _ o Hw Hnd)).
    unfold walls_kept, walls_culled. cbn [map filter].
    destruct (wall_off_screen (Wall.update wall)) eqn:Hoff; cbn [negb].
    + rewrite (IH done); [reflexivity | reflexivity |].
      apply (distinct_middle _ _ _ Hnd).
    + rewrite (IH (done ++ [Wall.update wall])).
      * rewrite <- app_assoc. reflexivity.
      * cbn [walls set_walls]. rewrite <- app_assoc. reflexivity.
      * apply (distinct_replace _ _ _ _ Hnd (Wall_update_ident wall)).
Qed.

Lemma enemies_loop_body_run env enemy done rest self o :
  enemies self = done ++ enemy :: rest ->
  distinct (done ++ enemy :: rest) ->
  enemies_loop_body env enemy self o
  = Ok (if enemy_off_screen (Enemy.update (sin env) enemy)
        then set_enemies self (done ++ rest)
        else set_enemies self
               (done ++ Enemy.update (sin env) enemy :: rest), o).
Proof.
  intros He Hnd. unfold enemies_loop_body, enemy_off_screen.
  cbn [enemies set_enemies]. rewrite He.
  rewrite (mutated_in_place _ _ _ _ Hnd (Enemy_update_ident (sin env) enemy)).
  destruct (Rect.right (Enemy.rect (Enemy.update (sin env) enemy)) <? 0);
    [|reflexivity].
  destruct (distinct_middle _ _ _ Hnd) as (H1 & _ & _).
  rewrite (list_remove_at (Enemy.update (sin env) enemy)
             (Enemy.update (sin env) enemy) done rest);
    [reflexivity | exact H1 | reflexivity].
Qed.

Lemma enemies_loop_run env todo : forall done self o,
  enemies self = done ++ todo ->
  distinct (done ++ todo) ->
  for_each todo (enemies_loop_body env) self o
  = Ok (set_enemies self (done ++ enemies_kept (sin env) todo), o).
Proof.
  induction todo as [|enemy rest IH]; intros done self o He Hnd.
  - cbn [for_each]. unfold enemies_kept. cbn [map filter].
    rewrite app_nil_r in *. rewrite <- He. destruct self; reflexivity.
  - cbn [for_each].
    rewrite (bind_eq _ _ _ _ _ (enemies_loop_body_run env _ _ _ _ o He Hnd)).
    unfold enemies_kept. cbn [map filter].
    destruct (enemy_off_screen (Enemy.update (sin env) enemy)) eqn:Hoff;
      cbn [negb].
    + rewrite (IH done); [reflexivity | reflexivity |].
      apply (distinct_middle _ _ _ Hnd).
    + rewrite (IH (done ++ [Enemy.update (sin env) enemy])).
      * rewrite <- app_assoc. reflexivity.
      * cbn [enemies set_enemies]. rewrite <- app_assoc. reflexivity.
      * apply (distinct_replace _ _ _ _ Hnd
                 (Enemy_update_ident (sin env) enemy)).
Qed.

(** What one iteration of the loop over [self.projectiles[:]] does. *)
Lemma projectiles_loop_body_run projectile done rest self o :
  projectiles self = done ++ projectile :: rest ->
  distinct (done ++ projectile :: rest) ->
  distinct (enemies self) ->
  let moved := Projectile.update projectile in
  projectiles_loop_body projectile self o
  = Ok (if Rect.left (Projectile.rect moved) >? width self
        then set_projectiles self (done ++ rest)
        else match find (touches moved) (enemies self) with
             | Some enemy =>
                 set_score
                   (set_projectiles
                      (set_enemies self (without enemy (enemies self)))
                      (done ++ rest))
                   (score self + 2)
             | None => set_projectiles self (done ++ moved :: rest)
             end, o).
Proof.
  intros Hp Hnd Hen moved. unfold projectiles_loop_body.
  cbn [projectiles set_projectiles width]. rewrite Hp.
  rewrite (mutated_in_place _ _ _ _ Hnd (Projectile_update_ident projectile)).
  fold moved.
  destruct (distinct_middle _ _ _ Hnd) as (H1 & _ & _).
  assert (Hrm : list_remove moved (done ++ moved :: rest) = Ok (done ++ rest))
    by (apply list_remove_at; [exact H1 | reflexivity]).
  destruct (Rect.left (Projectile.rect moved) >? width self).
  - rewrite Hrm. reflexivity.
  - unfold hit_first_enemy. cbn [enemies projectiles set_projectiles].
    fold (touches moved).
    destruct (find (touches moved) (enemies self)) as [enemy|] eqn:Hfind;
      [|reflexivity].
    destruct (find_split _ _ _ Hfind) as (l1 & l2 & Hl & _ & _).
    rewrite Hl in Hen |- *.
    destruct (distinct_middle _ _ _ Hen) as (He1 & _ & _).
    rewrite (list_remove_at enemy enemy l1 l2 He1 eq_refl).
    rewrite (without_middle _ _ _ Hen).
    cbn [lift bind projectiles set_enemies set_projectiles].
    rewrite Hrm. reflexivity.
Qed.

(** ** One projectile against the enemies *)

(** When the loop over the projectiles reaches a projectile that,
    once moved, is not past the right edge and touches an enemy, the first
    such enemy in the enemy collection and the projectile are both removed
    in that iteration, the score grows by exactly 2, and the enemies after
    the first match stay in the collection. *)
Lemma projectile_iteration_takes_first_enemy
    projectile done rest enemy before after self o :
  let moved := Projectile.update projectile in
  projectiles self = done ++ projectile :: rest ->
  distinct (projectiles self) ->
  enemies self = before ++ enemy :: after ->
  distinct (enemies self) ->
  Rect.left (Projectile.rect moved) <= width self ->
  touches moved enemy = true ->
  (forall other, In other before -> touches moved other = false) ->
  exists self',
    projectiles_loop_body projectile self o = Ok (self', o)
    /\ enemies self' = before ++ after
    /\ projectiles self' = done ++ rest
    /\ score self' = (score self + 2)%Q
    /\ walls self' = walls self
    /\ player self' = player self
    /\ game_state self' = game_state self.
Proof.
  intros moved Hp Hpd He Hed Hlive Htouch Hfirst.
  rewrite Hp in Hpd.
  rewrite (projectiles_loop_body_run _ _ _ _ o Hp Hpd Hed). fold moved.
  destruct (Z.gtb_spec (Rect.left (Projectile.rect moved)) (width self));
    [lia|].
  rewrite He. rewrite (find_first _ _ _ _ Htouch Hfirst).
  rewrite He in Hed. rewrite (without_middle _ _ _ Hed).
  eexists. split; [reflexivity|]. repeat split.
Qed.

Example projectile_iteration_on_sample :
  exists self',
    projectiles_loop_body Sample.projectile Sample.under_fire Sample.outside
    = Ok (self', Sample.outside)
    /\ enemies self' = [Sample.second_enemy]
    /\ projectiles self' = []
    /\ score self' = (score Sample.under_fire + 2)%Q.
Proof.
  destruct (projectile_iteration_takes_first_enemy
              Sample.projectile [] [] Sample.first_enemy []
              [Sample.second_enemy] Sample.under_fire Sample.outside)
    as (self' & Hrun & He & Hp & Hs & _).
  - reflexivity.
  - repeat constructor; simpl; tauto.
  - reflexivity.
  - repeat constructor; simpl; intuition discriminate.
  - vm_compute. discriminate.
  - reflexivity.
  - intros other [].
  - exists self'. auto.
Qed.

(** The whole loop over the projectiles: every hit takes one enemy and
    adds 2 to the score; nothing else of [self] changes. *)
Lemma projectiles_loop_run todo : forall done self o,
  projectiles self = done ++ todo ->
  distinct (done ++ todo) ->
  distinct (enemies self) ->
  exists left_enemies left_projectiles hits,
    for_each todo projectiles_loop_body self o
    = Ok (set_score
            (set_projectiles (set_enemies self left_enemies)
                             left_projectiles)
            (add_each hits 2 (score self)), o)
    /\ distinct left_enemies
    /\ incl (map ident left_enemies) (map ident (enemies self))
    /\ distinct left_projectiles
    /\ incl (map ident left_projectiles) (map ident (done ++ todo))
    /\ (List.length left_enemies + hits = List.length (enemies self))%nat.
Proof.
  induction todo as [|projectile rest IH]; intros done self o Hp Hnd Hen.
  - exists (enemies self), done, 0%nat. cbn [for_each add_each].
    rewrite app_nil_r in *. rewrite <- Hp.
    split; [destruct self; reflexivity|].
    repeat split; auto using incl_refl. rewrite <- Hp in Hnd. exact Hnd.
  - cbn [for_each].
    rewrite (bind_eq _ _ _ _ _ (projectiles_loop_body_run _ _ _ _ o Hp Hnd Hen)).
    set (moved := Projectile.update projectile).
    assert (Hsub : incl (map ident (done ++ rest))
                        (map ident (done ++ projectile :: rest))).
    { rewrite !map_app. cbn [map]. intros i Hi.
      rewrite in_app_iff in *. cbn [In]. tauto. }
    destruct (Rect.left (Projectile.rect moved) >? width self).
    + destruct (IH done (set_projectiles self (done ++ rest)) o eq_refl)
        as (E & P & k & Hrun & HE & HEi & HP & HPi & Hlen).
      * apply (distinct_middle _ _ _ Hnd).
      * exact Hen.
      * exists E, P, k. rewrite Hrun. split; [reflexivity|].
        repeat split; auto. eapply incl_tran; eauto.
    + destruct (find (touches moved) (enemies self)) as [enemy|] eqn:Hfind.
      * destruct (find_split _ _ _ Hfind) as (l1 & l2 & Hl & _ & _).
        assert (Hw : without enemy (enemies self) = l1 ++ l2)
          by (rewrite Hl in Hen |- *; apply (without_middle _ _ _ Hen)).
        rewrite Hw.
        destruct (IH done
                    (set_score
                       (set_projectiles (set_enemies self (l1 ++ l2))
                                        (done ++ rest))
                       (score self + 2)) o eq_refl)
          as (E & P & k & Hrun & HE & HEi & HP & HPi & Hlen).
        -- apply (distinct_middle _ _ _ Hnd).
        -- cbn [enemies set_score set_projectiles set_enemies].
           rewrite Hl in Hen. apply (distinct_middle _ _ _ Hen).
        -- exists E, P, (S k). rewrite Hrun. split; [reflexivity|].
           cbn [enemies set_score set_projectiles set_enemies] in HEi, Hlen.
           repeat split; auto.
           ++ eapply incl_tran; [exact HEi|]. rewrite Hl, !map_app.
              cbn [map]. intros i Hi. rewrite in_app_iff in *. cbn [In].
              tauto.
           ++ eapply incl_tran; eauto.
           ++ rewrite Hl. rewrite !length_app in *. cbn [List.length]. lia.
      * destruct (IH (done ++ [moved])
                    (set_projectiles self (done ++ moved :: rest)) o)
          as (E & P & k & Hrun & HE & HEi & HP & HPi & Hlen).
        -- cbn [projectiles set_projectiles]. rewrite <- app_assoc.
           reflexivity.
        -- apply (distinct_replace _ _ _ _ Hnd
                    (Projectile_update_ident projectile)).
        -- exact Hen.
        -- exists E, P, k. rewrite Hrun. split; [reflexivity|].
           repeat split; auto.
           eapply incl_tran; [exact HPi|]. rewrite <- app_assoc.
           rewrite !map_app. cbn [map app].
           change (ident moved) with (ident projectile). apply incl_refl.
Qed.

(** ** Well-formed states *)

Section Objects_more.

Context {A : Type} `{Identified A}.

Lemma distinct_filter (p : A -> bool) (l : list A) :
  distinct l -> distinct (filter p l).
Proof.
  unfold distinct. induction l as [|a l IH]; cbn [filter map]; intros Hnd;
    [constructor|].
  inversion Hnd as [|i ids Hnot Hnd']; subst.
  destruct (p a); cbn [map]; [|auto].
  constructor; [|auto].
  intros Hin. apply Hnot. apply in_map_iff in Hin.
  destruct Hin as (b & Hb & Hin). apply filter_In in Hin.
  rewrite <- Hb. apply in_map. tauto.
Qed.

Lemma map_ident_same (g : A -> A) (l : list A) :
  (forall a, ident (g a) = ident a) -> map ident (map g l) = map ident l.
Proof.
  intros Hg. rewrite map_map. apply map_ext. exact Hg.
Qed.

Lemma distinct_map (g : A -> A) (l : list A) :
  (forall a, ident (g a) = ident a) -> distinct l -> distinct (map g l).
Proof.
  intros Hg. unfold distinct. rewrite (map_ident_same g l Hg). auto.
Qed.

Lemma allocated_filter (n : nat) (p : A -> bool) (l : list A) :
  allocated n l -> allocated n (filter p l).
Proof.
  unfold allocated. rewrite !Forall_forall. intros Hl a Ha.
  apply filter_In in Ha. apply Hl. tauto.
Qed.

Lemma allocated_map (n : nat) (g : A -> A) (l : list A) :
  (forall a, ident (g a) = ident a) -> allocated n l -> allocated n (map g l).
Proof.
  intros Hg. apply allocated_ids. rewrite (map_ident_same g l Hg).
  apply incl_refl.
Qed.

End Objects_more.

Lemma paired_app (l1 l2 : list Wall.t) :
  paired l1 -> paired l2 -> paired (l1 ++ l2).
Proof.
  intros H1 H2. induction H1; cbn [app]; [exact H2|].
  constructor; assumption.
Qed.


(** The two segments of a pair leave the screen in the same step. *)
Lemma pair_off_screen_together (top_wall bottom_wall : Wall.t) :
  Wall.x top_wall = Wall.x bottom_wall ->
  Rect.w (Wall.rect top_wall) = Rect.w (Wall.rect bottom_wall) ->
  Wall.speed top_wall = Wall.speed bottom_wall ->
  wall_off_screen (Wall.update top_wall)
  = wall_off_screen (Wall.update bottom_wall).
Proof.
  intros Hx Hw Hs. unfold wall_off_screen, Wall.update, Rect.right.
  unfold Wall.rect in *.
  cbn [Wall.base GameObject.rect GameObject.set_rect GameObject.set_x
       GameObject.x Rect.set_x Rect.x Rect.w].
  rewrite Hx, Hw, Hs. reflexivity.
Qed.

Lemma paired_update (top_wall bottom_wall : Wall.t) :
  Wall.x top_wall = Wall.x bottom_wall ->
  Rect.w (Wall.rect top_wall) = Rect.w (Wall.rect bottom_wall) ->
  Wall.width top_wall = Wall.width bottom_wall ->
  Wall.speed top_wall = Wall.speed bottom_wall ->
  paired [Wall.update top_wall; Wall.update bottom_wall].
Proof.
  intros Hx Hw Hwd Hs.
  unfold Wall.x, Wall.rect, Wall.width in *.
  constructor; try constructor;
    unfold Wall.x, Wall.rect, Wall.width, Wall.update;
    cbn [Wall.base Wall.speed GameObject.rect GameObject.set_rect
         GameObject.set_x GameObject.x GameObject.width Rect.set_x Rect.x
         Rect.w];
    unfold Wall.x; congruence.
Qed.

(** The loop over the walls keeps the pairs whole. *)
Lemma paired_kept (l : list Wall.t) :
  paired l ->
  paired (walls_kept l)
  /\ exists pairs,
       walls_culled l = (2 * pairs)%nat
       /\ List.length l = (List.length (walls_kept l) + 2 * pairs)%nat.
Proof.
  induction 1 as [|top_wall bottom_wall l Hx Hrx Hw Hwd Hs Hl [IH1 [k [IH2 IH3]]]].
  - split; [constructor|]. exists 0%nat. split; reflexivity.
  - pose proof (pair_off_screen_together _ _ Hx Hw Hs) as Hoff.
    pose proof (paired_update _ _ Hx Hw Hwd Hs) as Hup.
    unfold walls_kept, walls_culled in *. cbn [map filter].
    rewrite Hoff.
    destruct (wall_off_screen (Wall.update bottom_wall)); cbn [negb].
    + split; [exact IH1|]. exists (S k). cbn [List.length]. lia.
    + split.
      * inversion Hup; subst. constructor; assumption.
      * exists k. cbn [List.length]. lia.
Qed.

Lemma add_each_sum (n : nat) (d s : Q) :
  (add_each n d s == s + inject_Z (Z.of_nat n) * d)%Q.
Proof.
  revert s. induction n as [|n IH]; intros s.
  - cbn [add_each]. change (inject_Z (Z.of_nat 0)) with 0%Q. ring.
  - cbn [add_each]. rewrite IH, Nat2Z.inj_succ. unfold Z.succ.
    rewrite inject_Z_plus. change (inject_Z 1) with 1%Q. ring.
Qed.

Lemma whole_add (q : Q) (n : Z) (q' : Q) :
  whole q -> 0 <= n -> (q' == q + inject_Z n)%Q -> whole q'.
Proof.
  intros (m & Hm & Hq) Hn Hq'. exists (m + n). split; [lia|].
  rewrite Hq', Hq, inject_Z_plus. reflexivity.
Qed.

Lemma whole_zero : whole 0.
Proof. exists 0. split; [lia | reflexivity]. Qed.

Lemma wf_outside self o o' :
  wf self o -> (next_oid o <= next_oid o')%nat -> wf self o'.
Proof.
  intros [] Hle. constructor; eauto using allocated_more.
Qed.

Lemma create_wall_pair_run env self o self' o' :
  create_wall_pair env self o = Ok (self', o') ->
  exists top_wall bottom_wall,
    self' = set_walls self (walls self ++ [top_wall; bottom_wall])
    /\ paired [top_wall; bottom_wall]
    /\ ident top_wall = next_oid o
    /\ ident bottom_wall = S (next_oid o)
    /\ next_oid o' = S (S (next_oid o))
    /\ highscore_txt o' = highscore_txt o.
Proof.
  unfold create_wall_pair, randint.
  destruct (_ <? _); [discriminate|].
  unfold bind, draw_raw, new_oid, ret. intros Hrun; inversion Hrun; subst.
  eexists _, _. split; [reflexivity|].
  split; [repeat constructor|]. repeat split.
Qed.

Lemma wf_create_wall_pair env self o self' o' :
  wf self o -> create_wall_pair env self o = Ok (self', o') -> wf self' o'.
Proof.
  intros Hwf Hrun.
  destruct (create_wall_pair_run _ _ _ _ _ Hrun)
    as (top_wall & bottom_wall & -> & Hpair & Htop & Hbottom & Hnext & _).
  destruct Hwf. constructor; cbn [walls enemies projectiles score set_walls];
    rewrite ?Hnext; eauto using allocated_more.
  - change (walls self ++ [top_wall; bottom_wall])
      with (walls self ++ [top_wall] ++ [bottom_wall]).
    rewrite app_assoc.
    apply (distinct_snoc (S (next_oid o))); [| |lia].
    + apply (distinct_snoc (next_oid o)); [assumption|assumption|lia].
    + apply allocated_snoc; [|lia].
      eapply allocated_more; [|eassumption]. lia.
  - change (walls self ++ [top_wall; bottom_wall])
      with (walls self ++ [top_wall] ++ [bottom_wall]).
    rewrite app_assoc.
    apply allocated_snoc; [apply allocated_snoc|]; try lia.
    eapply allocated_more; [|eassumption]. lia.
  - apply paired_app; assumption.
Qed.

Lemma spawn_enemy_run env self o self' o' :
  spawn_enemy env self o = Ok (self', o') ->
  exists enemy,
    self' = set_enemies self (enemies self ++ [enemy])
    /\ ident enemy = next_oid o
    /\ next_oid o' = S (next_oid o)
    /\ highscore_txt o' = highscore_txt o.
Proof.
  unfold spawn_enemy, randint.
  destruct (_ <? _); [discriminate|].
  unfold bind, draw_raw, new_oid, choice_sign, random, ret.
  cbn [bind]. intros Hrun; inversion Hrun; subst.
  eexists. split; [reflexivity|]. repeat split.
Qed.

Lemma wf_spawn_enemy env self o self' o' :
  wf self o -> spawn_enemy env self o = Ok (self', o') -> wf self' o'.
Proof.
  intros Hwf Hrun.
  destruct (spawn_enemy_run _ _ _ _ _ Hrun) as (enemy & -> & Hid & Hnext & _).
  destruct Hwf.
  constructor; cbn [walls enemies projectiles score set_enemies];
    rewrite ?Hnext; eauto using allocated_more.
  - apply (distinct_snoc (next_oid o)); [assumption|assumption|lia].
  - apply allocated_snoc; [|lia]. eapply allocated_more; [|eassumption]. lia.
Qed.

Lemma shoot_projectile_run env self o self' o' :
  shoot_projectile env self o = Ok (self', o') ->
  highscore_txt o' = highscore_txt o
  /\ ((self' = self /\ next_oid o' = next_oid o)
      \/ exists projectile,
           self' = set_last_shot
                     (set_projectiles self (projectiles self ++ [projectile]))
                     (ticks env (ticks_read o))
           /\ ident projectile = next_oid o
           /\ next_oid o' = S (next_oid o)).
Proof.
  unfold shoot_projectile.
  rewrite (bind_eq _ _ _ _ _ (get_ticks_Ok env o)).
  destruct (_ >? _).
  - unfold bind, new_oid, ret. intros Hrun; inversion Hrun; subst.
    split; [reflexivity|]. right. eexists. split; [reflexivity|].
    split; reflexivity.
  - unfold ret. intros Hrun; inversion Hrun; subst.
    split; [reflexivity|]. left. split; reflexivity.
Qed.

Lemma wf_shoot_projectile env self o self' o' :
  wf self o -> shoot_projectile env self o = Ok (self', o') -> wf self' o'.
Proof.
  intros Hwf Hrun.
  destruct (shoot_projectile_run _ _ _ _ _ Hrun)
    as (_ & [[-> Hnext] | (projectile & -> & Hid & Hnext)]).
  - apply (wf_outside _ _ _ Hwf). lia.
  - destruct Hwf.
    constructor;
      cbn [walls enemies projectiles score set_projectiles set_last_shot];
      rewrite ?Hnext; eauto using allocated_more.
    + apply (distinct_snoc (next_oid o)); [assumption|assumption|lia].
    + apply allocated_snoc; [|lia].
      eapply allocated_more; [|eassumption]. lia.
Qed.

Lemma reset_game_run env self o self' o' :
  reset_game env self o = Ok (self', o') ->
  wf self' o'
  /\ highscore_txt o' = highscore_txt o
  /\ high_score self' = high_score self
  /\ config self' = config self.
Proof.
  unfold reset_game.
  unfold bind at 1. unfold new_oid at 1.
  rewrite (bind_eq _ _ _ _ _ (get_ticks_Ok env _)).
  rewrite (bind_eq _ _ _ _ _ (get_ticks_Ok env _)).
  intros Hrun. run_inv Hrun.
  match goal with
  | Hcreate : create_wall_pair _ _ _ = Ok _ |- _ =>
      destruct (create_wall_pair_run _ _ _ _ _ Hcreate)
        as (top_wall & bottom_wall & -> & Hpair & Htop & Hbottom & Hnext & Hhs)
  end.
  split; [|repeat split; exact Hhs].
  constructor;
    cbn [walls enemies projectiles score set_score set_walls set_last_shot
         set_last_enemy set_last_wall set_projectiles set_enemies set_player
         app];
    try (constructor; fail).
  - unfold distinct. cbn [map]. rewrite Htop, Hbottom.
    constructor; [intros [E|[]]; lia|]. constructor; [intros []|constructor].
  - rewrite Hnext. constructor; [rewrite Htop; lia|].
    constructor; [rewrite Hbottom; lia | constructor].
  - exact Hpair.
  - apply whole_zero.
Qed.

Lemma wf_same self self' o :
  walls self' = walls self ->
  enemies self' = enemies self ->
  projectiles self' = projectiles self ->
  score self' = score self ->
  wf self o -> wf self' o.
Proof.
  intros Hw He Hp Hs []. constructor; rewrite ?Hw, ?He, ?Hp, ?Hs; assumption.
Qed.

(** What a simulation step keeps and what it adds to the score: one point
    for each pair of walls removed and two for each enemy hit. *)
Lemma update_game_objects_run env self o self' o' :
  wf self o ->
  update_game_objects env self o = Ok (self', o') ->
  wf self' o'
  /\ player self' = Player.update (player self)
  /\ game_state self' = game_state self
  /\ high_score self' = high_score self
  /\ highscore_txt o' = highscore_txt o
  /\ exists pairs hits : nat,
       walls_culled (walls self) = (2 * pairs)%nat
       /\ (score self'
           == score self + inject_Z (Z.of_nat pairs)
              + inject_Z (2 * Z.of_nat hits))%Q.
Proof.
  intros Hwf. unfold update_game_objects.
  set (self0 := set_player self (Player.update (player self))).
  assert (Hwf0 : wf self0 o) by (apply (wf_same self); auto).
  rewrite (bind_eq _ _ _ _ _
             (walls_loop_run (walls self0) [] self0 o eq_refl (wf_walls _ _ Hwf0))).
  cbn [app].
  set (self1 := set_score _ _).
  destruct (paired_kept _ (wf_paired _ _ Hwf0)) as (Hpaired & pairs & Hculled & _).
  assert (Hscore1 : (score self1 == score self + inject_Z (Z.of_nat pairs))%Q).
  { unfold self1. cbn [score set_score]. rewrite add_each_sum, Hculled.
    change (score self0) with (score self).
    rewrite Nat2Z.inj_mul, inject_Z_mult.
    change (inject_Z (Z.of_nat 2)) with 2%Q. field. }
  assert (Hwf1 : wf self1 o).
  { destruct Hwf0. constructor; unfold self1;
      cbn [walls enemies projectiles score set_score set_walls]; auto.
    - apply distinct_filter, distinct_map; [reflexivity | assumption].
    - apply allocated_filter, allocated_map; [reflexivity | assumption].
    - eapply whole_add; [eassumption | apply Nat2Z.is_nonneg | exact Hscore1]. }
  rewrite (bind_eq _ _ _ _ _
             (enemies_loop_run env (enemies self1) [] self1 o eq_refl
                               (wf_enemies _ _ Hwf1))).
  cbn [app].
  set (self2 := set_enemies _ _).
  assert (Hwf2 : wf self2 o).
  { destruct Hwf1. constructor; unfold self2;
      cbn [walls enemies projectiles score set_enemies]; auto.
    - apply distinct_filter, distinct_map; [reflexivity | assumption].
    - apply allocated_filter, allocated_map; [reflexivity | assumption]. }
  destruct (projectiles_loop_run (projectiles self2) [] self2 o eq_refl
              (wf_projectiles _ _ Hwf2) (wf_enemies _ _ Hwf2))
    as (E & P & hits & Hloop & HE & HEi & HP & HPi & _).
  rewrite (bind_eq _ _ _ _ _ Hloop).
  set (self3 := set_score _ _).
  assert (Hscore3 : (score self3 == score self + inject_Z (Z.of_nat pairs)
                                    + inject_Z (2 * Z.of_nat hits))%Q).
  { unfold self3. cbn [score set_score]. rewrite add_each_sum.
    change (score self2) with (score self1). rewrite Hscore1.
    rewrite inject_Z_mult. change (inject_Z 2) with 2%Q. ring. }
  assert (Hwf3 : wf self3 o).
  { destruct Hwf2. constructor; unfold self3;
      cbn [walls enemies projectiles score set_score set_projectiles
           set_enemies]; auto.
    - eapply allocated_ids; eassumption.
    - eapply allocated_ids; eassumption.
    - destruct Hwf as [_ _ _ _ _ _ _ Hwhole].
      destruct Hwhole as (n & Hn & Hq).
      exists (n + Z.of_nat pairs + 2 * Z.of_nat hits). split; [lia|].
      change (score self3 == inject_Z (n + Z.of_nat pairs + 2 * Z.of_nat hits))%Q.
      rewrite Hscore3, Hq, !inject_Z_plus. reflexivity. }
  rewrite (bind_eq _ _ _ _ _ (get_ticks_Ok env o)).
  set (o3 := Build_Outside _ _ _ _ _).
  assert (Hwf3' : wf self3 o3) by (apply (wf_outside _ _ _ Hwf3); cbn; lia).
  set (now := ticks env (ticks_read o)).
  intros Hrun. apply bind_Ok in Hrun.
  destruct Hrun as (self4 & o4 & Hwalls & Henemies).
  assert (H4 : wf self4 o4 /\ player self4 = player self3
               /\ game_state self4 = game_state self3
               /\ high_score self4 = high_score self3
               /\ score self4 = score self3
               /\ config self4 = config self3
               /\ highscore_txt o4 = highscore_txt o3).
  { destruct (_ >? _) in Hwalls.
    - run_inv Hwalls.
      match goal with
      | Hcreate : create_wall_pair _ _ _ = Ok _ |- _ =>
          pose proof (wf_create_wall_pair _ _ _ _ _ Hwf3' Hcreate) as Hwf4;
          destruct (create_wall_pair_run _ _ _ _ _ Hcreate)
            as (top_wall & bottom_wall & E4 & _ & _ & _ & _ & Hhs)
      end.
      split; [eapply wf_same; [| | | |exact Hwf4]; reflexivity|].
      rewrite E4. repeat split. exact Hhs.
    - run_inv Hwalls. split; [exact Hwf3'|]. repeat split. }
  destruct H4 as (Hwf4 & Hp4 & Hg4 & Hh4 & Hs4 & Hc4 & Ho4).
  assert (H5 : wf self' o' /\ player self' = player self4
               /\ game_state self' = game_state self4
               /\ high_score self' = high_score self4
               /\ score self' = score self4
               /\ highscore_txt o' = highscore_txt o4).
  { destruct (_ >? _) in Henemies; [destruct (_ <? _) in Henemies|].
    - run_inv Henemies.
      match goal with
      | Hspawn : spawn_enemy _ _ _ = Ok _ |- _ =>
          pose proof (wf_spawn_enemy _ _ _ _ _ Hwf4 Hspawn) as Hwf5;
          destruct (spawn_enemy_run _ _ _ _ _ Hspawn)
            as (enemy & E5 & _ & _ & Hhs)
      end.
      split; [eapply wf_same; [| | | |exact Hwf5]; reflexivity|].
      rewrite E5. repeat split. exact Hhs.
    - run_inv Henemies. split; [exact Hwf4|]. repeat split.
    - run_inv Henemies. split; [exact Hwf4|]. repeat split. }
  destruct H5 as (Hwf5 & Hp5 & Hg5 & Hh5 & Hs5 & Ho5).
  split; [exact Hwf5|].
  split; [rewrite Hp5, Hp4; reflexivity|].
  split; [rewrite Hg5, Hg4; reflexivity|].
  split; [rewrite Hh5, Hh4; reflexivity|].
  split; [rewrite Ho5, Ho4; reflexivity|].
  exists pairs, hits. split; [exact Hculled|].
  rewrite Hs5, Hs4. exact Hscore3.
Qed.

Lemma play_Ok s o :
  play s o
  = Ok (tt, Build_Outside (highscore_txt o) (played o ++ [s]) (ticks_read o)
                          (random_drawn o) (next_oid o)).
Proof. reflexivity. Qed.

Lemma check_collisions_run self o :
  exists collided o',
    check_collisions self o = Ok (collided, o')
    /\ next_oid o' = next_oid o
    /\ highscore_txt o' = highscore_txt o.
Proof.
  unfold check_collisions.
  destruct (existsb _ (walls self)); [eexists _, _; repeat split|].
  destruct (existsb _ (enemies self)); [eexists _, _; repeat split|].
  destruct (_ || _); eexists _, _; repeat split.
Qed.

(** What the simulation block of a frame does. *)
Lemma simulate_run env self o self' o' :
  wf self o ->
  simulate env self o = Ok (self', o') ->
  wf self' o'
  /\ (game_state self <> PLAYING -> self' = self /\ o' = o)
  /\ (game_state self = PLAYING ->
      exists mid o1 collided o2,
        update_game_objects env self o = Ok (mid, o1)
        /\ check_collisions mid o1 = Ok (collided, o2)
        /\ score self' = score mid
        /\ if collided : bool
           then game_state self' = GAME_OVER
                /\ if Qlt_bool (inject_Z (high_score self)) (score mid)
                   then high_score self' = int (score mid)
                        /\ highscore_txt o' = Content (str (int (score mid)))
                   else high_score self' = high_score self
                        /\ highscore_txt o' = highscore_txt o
           else self' = mid /\ o' = o2).
Proof.
  intros Hwf. unfold simulate.
  destruct (game_state self) eqn:Hst; cbn [GameState_eqb].
  1, 3: intros Hrun; run_inv Hrun;
        (split; [exact Hwf|]); (split; [auto | discriminate]).
  intros Hrun. apply bind_Ok in Hrun.
  destruct Hrun as (mid & o1 & Hupdate & Hrun).
  destruct (update_game_objects_run _ _ _ _ _ Hwf Hupdate)
    as (Hwf1 & _ & _ & Hhigh & Hhs1 & _).
  destruct (check_collisions_run mid o1) as (collided & o2 & Hcheck & Hn2 & Hhs2).
  rewrite (bind_eq _ _ _ _ _ Hcheck) in Hrun.
  assert (Hwf2 : wf mid o2) by (apply (wf_outside _ _ _ Hwf1); lia).
  destruct collided.
  - rewrite (bind_eq _ _ _ _ _ (play_Ok _ _)) in Hrun.
    rewrite Hhigh in Hrun.
    destruct (Qlt_bool (inject_Z (high_score self)) (score mid)) eqn:Hlt.
    + cbn in Hrun. inversion Hrun; subst; clear Hrun.
      split; [|split; [congruence|]].
      * eapply wf_same; [| | | |apply (wf_outside _ _ _ Hwf2); cbn; lia];
          reflexivity.
      * intros _. exists mid, o1, true, o2.
        rewrite Hlt. repeat split; assumption.
    + cbn in Hrun. inversion Hrun; subst; clear Hrun.
      split; [|split; [congruence|]].
      * eapply wf_same; [| | | |apply (wf_outside _ _ _ Hwf2); cbn; lia];
          reflexivity.
      * intros _. exists mid, o1, true, o2. cbn [highscore_txt].
        rewrite Hlt.
        split; [assumption|]. split; [assumption|]. split; [reflexivity|].
        split; [reflexivity|]. split; [exact Hhigh | congruence].
  - run_inv Hrun. split; [exact Hwf2|]. split; [congruence|].
    intros _. exists mid, o1, false, o2. repeat split; assumption.
Qed.

(** ** Events *)

Lemma click_start_button_run event self :
  click_start_button event self = self
  \/ (hits_start_button self event = true
      /\ click_start_button event self = set_game_state self PLAYING).
Proof.
  unfold click_start_button, hits_start_button.
  destruct (start_button_rect self) as [button_rect|]; [|auto].
  destruct (Rect.collidepoint button_rect (pos event)); auto.
Qed.

(** Where an event leads, case by case. *)
Lemma handle_event_run env event running self o running' self' o' :
  handle_event env event (running, self) o = Ok ((running', self'), o') ->
  (self' = self /\ o' = o)
  \/ (game_state self = START /\ type event = MOUSEBUTTONDOWN
      /\ button event = 1 /\ hits_start_button self event = true
      /\ self' = set_game_state self PLAYING /\ o' = o)
  \/ (game_state self = PLAYING /\ type event = KEYDOWN
      /\ key event = K_SPACE
      /\ self' = set_player self (Player.flap (player self))
      /\ play flap_sound o = Ok (tt, o'))
  \/ (game_state self = GAME_OVER /\ type event = KEYDOWN
      /\ key event = K_SPACE
      /\ exists mid, reset_game env self o = Ok (mid, o')
                     /\ self' = set_game_state mid PLAYING)
  \/ (game_state self = PLAYING /\ type event = KEYDOWN
      /\ key event = K_RIGHT
      /\ shoot_projectile env self o = Ok (self', o')).
Proof.
  unfold handle_event. cbn [fst snd].
  destruct (type event) eqn:Hty; cbn [EventType_eqb].
  - intros Hrun; run_inv Hrun. inversion E; subst. auto.
  - destruct (Z.eqb_spec (button event) 1) as [Hb|_];
      [|intros Hrun; run_inv Hrun; inversion E; subst; auto].
    destruct (game_state self) eqn:Hst; cbn [GameState_eqb andb];
      try (intros Hrun; run_inv Hrun; inversion E; subst; auto; fail).
    destruct (hasattr_start_button_rect self);
      intros Hrun; run_inv Hrun; inversion E; subst; auto.
    destruct (click_start_button_run event self) as [->|[Hhit ->]]; auto.
    right. left. repeat split; auto.
  - destruct (key event) eqn:Hkey; cbn [Key_eqb andb].
    + destruct (game_state self) eqn:Hst; cbn [GameState_eqb].
      * intros Hrun; run_inv Hrun; inversion E; subst; auto.
      * intros Hrun. apply bind_Ok in Hrun.
        destruct Hrun as ([] & o1 & Hplay & Hrun).
        run_inv Hrun. inversion E; subst.
        right. right. left. repeat split; auto.
      * intros Hrun. apply bind_Ok in Hrun.
        destruct Hrun as (mid & o1 & Hreset & Hrun).
        run_inv Hrun. inversion E; subst.
        right. right. right. left. repeat split; eauto.
    + destruct (game_state self) eqn:Hst; cbn [GameState_eqb].
      * intros Hrun; run_inv Hrun; inversion E; subst; auto.
      * intros Hrun. apply bind_Ok in Hrun.
        destruct Hrun as (mid & o1 & Hshoot & Hrun).
        run_inv Hrun. inversion E; subst.
        right. right. right. right. repeat split; auto.
      * intros Hrun; run_inv Hrun; inversion E; subst; auto.
    + intros Hrun; run_inv Hrun; inversion E; subst; auto.
  - intros Hrun; run_inv Hrun. inversion E; subst. auto.
Qed.

Lemma handle_event_wf env event running self o running' self' o' :
  wf self o ->
  handle_event env event (running, self) o = Ok ((running', self'), o') ->
  wf self' o'.
Proof.
  intros Hwf Hrun.
  destruct (handle_event_run _ _ _ _ _ _ _ _ Hrun)
    as [[-> ->] | [(_ & _ & _ & _ & -> & ->)
       | [(_ & _ & _ & -> & Hplay)
       | [(_ & _ & _ & mid & Hreset & ->) | (_ & _ & _ & Hshoot)]]]].
  - exact Hwf.
  - eapply wf_same; [| | | |exact Hwf]; reflexivity.
  - rewrite play_Ok in Hplay. inversion Hplay; subst.
    eapply wf_same; [| | | |apply (wf_outside _ _ _ Hwf); cbn; lia];
      reflexivity.
  - destruct (reset_game_run _ _ _ _ _ Hreset) as (Hwf' & _).
    eapply wf_same; [| | | |exact Hwf']; reflexivity.
  - eapply wf_shoot_projectile; eassumption.
Qed.

Lemma draw_wf env self o : wf self o -> wf (draw env self) o.
Proof.
  intros Hwf. unfold draw, draw_start_screen, draw_game_objects,
    draw_game_over_screen, draw_scrolling_background.
  destruct (game_state self) eqn:Hst; cbn [GameState_eqb];
    try exact Hwf; (eapply wf_same; [| | | |exact Hwf]; reflexivity).
Qed.

Lemma draw_game_state env self :
  game_state (draw env self) = game_state self.
Proof.
  unfold draw, draw_start_screen, draw_game_objects,
    draw_game_over_screen, draw_scrolling_background.
  destruct (game_state self) eqn:Hst; cbn [GameState_eqb];
    cbn [game_state set_bg_scroll set_start_button_rect]; congruence.
Qed.

Lemma init_wf env config o self o' :
  __init__ env config o = Ok (self, o') -> wf self o'.
Proof.
  unfold __init__. intros Hrun. apply bind_Ok in Hrun.
  destruct Hrun as (high & o1 & _ & Hreset).
  apply (reset_game_run _ _ _ _ _ Hreset).
Qed.

(** Every state the program goes through is well formed. *)
Lemma reachable_wf env self o : reachable env self o -> wf self o.
Proof.
  induction 1.
  - eapply init_wf; eassumption.
  - eapply handle_event_wf; eassumption.
  - eapply simulate_run; eassumption.
  - apply draw_wf; assumption.
Qed.

(** The frame loop only goes through reachable states. *)
Lemma for_each_events_reachable env events : forall running self o st o',
  reachable env self o ->
  for_each events (handle_event env) (running, self) o = Ok (st, o') ->
  reachable env (snd st) o'.
Proof.
  induction events as [|event events IH]; intros running self o st o' Hr Hrun.
  - cbn in Hrun. inversion Hrun; subst. exact Hr.
  - cbn [for_each] in Hrun. apply bind_Ok in Hrun.
    destruct Hrun as ([running1 self1] & o1 & Hev & Hrun).
    apply (IH running1 self1 o1 st o'); [|exact Hrun].
    eapply reach_event; eassumption.
Qed.

Lemma run_frame_reachable env events self o st o' :
  reachable env self o ->
  run_frame env events self o = Ok (st, o') ->
  reachable env (snd st) o'.
Proof.
  intros Hr Hrun. unfold run_frame in Hrun. apply bind_Ok in Hrun.
  destruct Hrun as (st1 & o1 & Hev & Hrun). apply bind_Ok in Hrun.
  destruct Hrun as (self2 & o2 & Hsim & Hrun). run_inv Hrun.
  cbn [snd]. apply reach_draw. eapply reach_simulate; [|exact Hsim].
  eapply for_each_events_reachable; eassumption.
Qed.

Lemma run_reachable env frames : forall self o self' o',
  reachable env self o ->
  run env frames self o = Ok (self', o') ->
  reachable env self' o'.
Proof.
  induction frames as [|events frames IH]; intros self o self' o' Hr Hrun.
  - cbn in Hrun. inversion Hrun; subst. exact Hr.
  - cbn [run] in Hrun. apply bind_Ok in Hrun.
    destruct Hrun as (st & o1 & Hframe & Hrun).
    pose proof (run_frame_reachable _ _ _ _ _ _ Hr Hframe) as Hr1.
    destruct (fst st).
    + eapply IH; eassumption.
    + run_inv Hrun. exact Hr1.
Qed.

Lemma start_and_run_reachable env config frames o self o' :
  bind (__init__ env config) (run env frames) o = Ok (self, o') ->
  reachable env self o'.
Proof.
  intros Hrun. apply bind_Ok in Hrun.
  destruct Hrun as (self0 & o0 & Hinit & Hrun).
  eapply run_reachable; [|exact Hrun]. eapply reach_init; exact Hinit.
Qed.

(** ** Player motion (C7) *)

Lemma for_each_preserves {A S B : Type} (f : S -> B)
    (body : A -> S -> M S) (l : list A) :
  (forall a s o s' o', body a s o = Ok (s', o') -> f s' = f s) ->
  forall s o s' o', for_each l body s o = Ok (s', o') -> f s' = f s.
Proof.
  intros Hbody. induction l as [|a l IH]; intros s o s' o' Hrun.
  - cbn in Hrun. inversion Hrun; subst. reflexivity.
  - cbn [for_each] in Hrun. apply bind_Ok in Hrun.
    destruct Hrun as (s1 & o1 & Hb & Hrun).
    rewrite (IH _ _ _ _ Hrun). eapply Hbody; exact Hb.
Qed.

Lemma walls_loop_body_player wall self o self' o' :
  walls_loop_body wall self o = Ok (self', o') -> player self' = player self.
Proof.
  unfold walls_loop_body. destruct (_ <? _); intros Hrun; run_inv Hrun;
    reflexivity.
Qed.

Lemma enemies_loop_body_player env enemy self o self' o' :
  enemies_loop_body env enemy self o = Ok (self', o') ->
  player self' = player self.
Proof.
  unfold enemies_loop_body. destruct (_ <? _); intros Hrun; run_inv Hrun;
    reflexivity.
Qed.

Lemma projectiles_loop_body_player projectile self o self' o' :
  projectiles_loop_body projectile self o = Ok (self', o') ->
  player self' = player self.
Proof.
  unfold projectiles_loop_body, hit_first_enemy.
  destruct (_ >? _); [intros Hrun; run_inv Hrun; reflexivity|].
  destruct (find _ _); intros Hrun; run_inv Hrun; reflexivity.
Qed.

Lemma update_game_objects_player env self o self' o' :
  update_game_objects env self o = Ok (self', o') ->
  player self' = Player.update (player self).
Proof.
  unfold update_game_objects. intros Hrun.
  apply bind_Ok in Hrun. destruct Hrun as (self1 & o1 & H1 & Hrun).
  apply bind_Ok in Hrun. destruct Hrun as (self2 & o2 & H2 & Hrun).
  apply bind_Ok in Hrun. destruct Hrun as (self3 & o3 & H3 & Hrun).
  apply bind_Ok in Hrun. destruct Hrun as (now & o4 & _ & Hrun).
  apply bind_Ok in Hrun. destruct Hrun as (self5 & o5 & H5 & Hrun).
  apply (for_each_preserves player _ _ walls_loop_body_player) in H1.
  apply (for_each_preserves player _ _ (enemies_loop_body_player env)) in H2.
  apply (for_each_preserves player _ _ projectiles_loop_body_player) in H3.
  assert (E5 : player self5 = player self3).
  { destruct (_ >? _) in H5; run_inv H5; [|reflexivity].
    match goal with
    | Hcreate : create_wall_pair _ _ _ = Ok _ |- _ =>
        destruct (create_wall_pair_run _ _ _ _ _ Hcreate) as (? & ? & -> & _)
    end. reflexivity. }
  assert (E6 : player self' = player self5).
  { destruct (_ >? _) in Hrun; [destruct (_ <? _) in Hrun|]; run_inv Hrun;
      try reflexivity.
    match goal with
    | Hspawn : spawn_enemy _ _ _ = Ok _ |- _ =>
        destruct (spawn_enemy_run _ _ _ _ _ Hspawn) as (? & -> & _)
    end. reflexivity. }
  rewrite E6, E5, H3, H2, H1. reflexivity.
Qed.

(** C7.  In every simulation step the player's velocity becomes
    [min(velocity + gravity, max_velocity)], the new velocity is then added
    to [y], and so the velocity after the step does not exceed the
    configured maximum; a flap sets the velocity to the flap impulse
    whatever the velocity was. *)
Theorem C7_player_velocity_clamped env self o self' o' :
  update_game_objects env self o = Ok (self', o') ->
  let before := player self in
  let after := player self' in
  Player.velocity after
  = Qmin (Player.velocity before + Player.gravity before)
         (Player.max_velocity before)
  /\ Player.y after = (Player.y before + Player.velocity after)%Q
  /\ (Player.velocity after <= Player.max_velocity after)%Q
  /\ Player.max_velocity after = Player.max_velocity before
  /\ Player.velocity (Player.flap before) = Player.flap_strength before
  /\ forall event running,
       game_state self = PLAYING -> type event = KEYDOWN ->
       key event = K_SPACE ->
       exists o1,
         handle_event env event (running, self) o
         = Ok ((running, set_player self (Player.flap before)), o1).
Proof.
  intros Hrun before after. unfold after.
  rewrite (update_game_objects_player _ _ _ _ _ Hrun). fold before.
  split; [reflexivity|]. split; [reflexivity|].
  split; [apply Q.le_min_r|]. split; [reflexivity|]. split; [reflexivity|].
  intros event running Hst Hty Hkey.
  unfold handle_event. cbn [fst snd]. rewrite Hty, Hkey, Hst.
  cbn [EventType_eqb Key_eqb GameState_eqb].
  eexists. reflexivity.
Qed.

Lemma C7_player_velocity_clamped_witness :
  exists self o self' o',
    Sample.playing = Ok (self, o)
    /\ update_game_objects Sample.env self o = Ok (self', o')
    /\ Player.velocity (player self') = Qmin ((1 # 2) + (1 # 2)) 10
    /\ (Player.velocity (player self') <= 10)%Q.
Proof.
  assert (Hrun : exists self o self' o',
             Sample.playing = Ok (self, o)
             /\ update_game_objects Sample.env self o = Ok (self', o')
             /\ Player.velocity (player self) = 1 # 2
             /\ Player.gravity (player self) = 1 # 2
             /\ Player.max_velocity (player self) = 10%Q).
  { eexists _, _, _, _. split; [vm_compute; reflexivity|].
    split; [vm_compute; reflexivity|]. repeat split. }
  destruct Hrun as (self & o & self' & o' & Hplay & Hrun & Hv & Hg & Hm).
  destruct (C7_player_velocity_clamped Sample.env self o self' o' Hrun)
    as (Hvel & _ & Hle & Hmax & _).
  exists self, o, self', o'.
  rewrite Hv, Hg, Hm in Hvel. rewrite Hmax, Hm in Hle. auto.
Defined.

(** ** High score at game over (C5) *)

Lemma int_whole (q : Q) (n : Z) : (q == inject_Z n)%Q -> int q = n.
Proof.
  unfold Qeq, int. cbn [Qnum Qden inject_Z]. intros Hq.
  rewrite Z.mul_1_r in Hq. rewrite Hq. apply Z.quot_mul. discriminate.
Qed.

Lemma Qlt_bool_whole (h : Z) (q : Q) (n : Z) :
  (q == inject_Z n)%Q -> Qlt_bool (inject_Z h) q = (h <? n).
Proof.
  intros Hq. unfold Qlt_bool.
  destruct (Z.ltb_spec h n) as [Hlt|Hge].
  - destruct (Qle_bool q (inject_Z h)) eqn:Hle; [|reflexivity].
    apply Qle_bool_iff in Hle. rewrite Hq in Hle.
    rewrite <- Zle_Qle in Hle. lia.
  - assert (Hle : Qle_bool q (inject_Z h) = true).
    { apply Qle_bool_iff. rewrite Hq. rewrite <- Zle_Qle. exact Hge. }
    rewrite Hle. reflexivity.
Qed.

(** C5.  When a simulation step ends the game, the stored high score is
    replaced by the truncated score and written to the file if the
    truncated score exceeds it; otherwise the high score and the file stay
    as they were. *)
Theorem C5_high_score_updated_iff_exceeded env self o self' o' :
  reachable env self o ->
  game_state self = PLAYING ->
  simulate env self o = Ok (self', o') ->
  game_state self' = GAME_OVER ->
  (high_score self < int (score self') ->
   high_score self' = int (score self')
   /\ highscore_txt o' = Content (str (int (score self'))))
  /\ (int (score self') <= high_score self ->
      high_score self' = high_score self
      /\ highscore_txt o' = highscore_txt o).
Proof.
  intros Hreach Hst Hrun Hover.
  pose proof (reachable_wf _ _ _ Hreach) as Hwf.
  destruct (simulate_run _ _ _ _ _ Hwf Hrun) as (_ & _ & Hplaying).
  destruct (Hplaying Hst)
    as (mid & o1 & collided & o2 & Hupdate & Hcheck & Hscore & Hcase).
  destruct (update_game_objects_run _ _ _ _ _ Hwf Hupdate)
    as (Hwf1 & _ & Hst1 & _).
  destruct collided.
  - destruct Hcase as (_ & Hcase). rewrite Hscore.
    destruct (wf_whole _ _ Hwf1) as (n & _ & Hn).
    rewrite (Qlt_bool_whole _ _ _ Hn) in Hcase.
    rewrite (int_whole _ _ Hn).
    destruct (Z.ltb_spec (high_score self) n) as [Hlt|Hge].
    + rewrite (int_whole _ _ Hn) in Hcase. split; [auto | lia].
    + split; [lia | auto].
  - destruct Hcase as (-> & _). congruence.
Qed.

Lemma C5_high_score_updated_iff_exceeded_witness :
  exists self o self' o',
    Sample.about_to_crash = Ok (self, o)
    /\ simulate Sample.steady_env self o = Ok (self', o')
    /\ high_score self = 0
    /\ high_score self' = 7
    /\ highscore_txt o' = Content (text_of_string "7").
Proof.
  assert (Hrun : exists self o self' o',
             Sample.about_to_crash = Ok (self, o)
             /\ simulate Sample.steady_env self o = Ok (self', o')
             /\ game_state self = PLAYING
             /\ game_state self' = GAME_OVER
             /\ high_score self = 0
             /\ int (score self') = 7).
  { eexists _, _, _, _. split; [vm_compute; reflexivity|].
    split; [vm_compute; reflexivity|]. repeat split. }
  destruct Hrun as (self & o & self' & o' & Hstart & Hrun & Hst & Hover & Hh & Hs).
  destruct (C5_high_score_updated_iff_exceeded Sample.steady_env self o self' o'
              (start_and_run_reachable _ _ _ _ _ _ Hstart) Hst Hrun Hover)
    as (Hup & _).
  rewrite Hh, Hs in Hup. destruct Hup as (Hhigh & Hfile); [reflexivity|].
  exists self, o, self', o'. auto.
Defined.

(** ** The state machine (C9) *)

(** C9.  In every reachable state: the flap key in START changes nothing;
    an input that is not an accepted trigger of the current state is
    ignored without error; an event changes the game state only from START
    to PLAYING by a left click on the start button or from GAME_OVER to
    PLAYING by the restart key; the simulation changes it only from PLAYING
    to GAME_OVER after a collision; drawing does not change it. *)
Theorem C9_transitions_only_by_documented_triggers
    env event running self o :
  reachable env self o ->
  (game_state self = START -> type event = KEYDOWN -> key event = K_SPACE ->
   handle_event env event (running, self) o = Ok ((running, self), o))
  /\ (documented_trigger self event = false ->
      handle_event env event (running, self) o = Ok ((running, self), o))
  /\ (forall running' self' o',
        handle_event env event (running, self) o
        = Ok ((running', self'), o') ->
        game_state self' <> game_state self ->
        game_state self' = PLAYING
        /\ ((game_state self = START /\ type event = MOUSEBUTTONDOWN
             /\ button event = 1 /\ hits_start_button self event = true)
            \/ (game_state self = GAME_OVER /\ type event = KEYDOWN
                /\ key event = K_SPACE)))
  /\ (forall self' o',
        simulate env self o = Ok (self', o') ->
        game_state self' <> game_state self ->
        game_state self = PLAYING /\ game_state self' = GAME_OVER
        /\ exists mid o1 o2,
             update_game_objects env self o = Ok (mid, o1)
             /\ check_collisions mid o1 = Ok (true, o2))
  /\ game_state (draw env self) = game_state self.
Proof.
  intros Hreach. pose proof (reachable_wf _ _ _ Hreach) as Hwf.
  split; [|split; [|split; [|split]]].
  - intros Hst Hty Hkey. unfold handle_event. cbn [fst snd].
    rewrite Hty, Hkey, Hst. reflexivity.
  - unfold documented_trigger, handle_event. cbn [fst snd].
    destruct (type event); cbn [EventType_eqb]; try discriminate;
      [|destruct (key event), (game_state self); cbn [Key_eqb GameState_eqb andb];
        try discriminate; reflexivity | reflexivity].
    destruct (button event =? 1); cbn [andb]; [|reflexivity].
    destruct (game_state self) eqn:Hst; cbn [GameState_eqb andb];
      try discriminate; try reflexivity.
    unfold hits_start_button, hasattr_start_button_rect, click_start_button.
    destruct (start_button_rect self); [|reflexivity].
    intros ->. reflexivity.
  - intros running' self' o' Hrun Hchange.
    destruct (handle_event_run _ _ _ _ _ _ _ _ Hrun)
      as [[-> ->] | [(Hst & Hty & Hb & Hhit & -> & ->)
         | [(_ & _ & _ & -> & _)
         | [(Hst & Hty & Hkey & mid & _ & ->) | (_ & _ & _ & Hshoot)]]]].
    + congruence.
    + split; [reflexivity|]. left. auto.
    + exfalso. apply Hchange. reflexivity.
    + split; [reflexivity|]. right. auto.
    + exfalso. apply Hchange.
      destruct (shoot_projectile_run _ _ _ _ _ Hshoot)
        as (_ & [[-> _] | (projectile & -> & _)]); reflexivity.
  - intros self' o' Hrun Hchange.
    destruct (simulate_run _ _ _ _ _ Hwf Hrun) as (_ & Hidle & Hplaying).
    destruct (game_state self) eqn:Hst;
      try (destruct Hidle as [-> _]; [discriminate | congruence]).
    destruct (Hplaying eq_refl)
      as (mid & o1 & collided & o2 & Hupdate & Hcheck & _ & Hcase).
    destruct (update_game_objects_run _ _ _ _ _ Hwf Hupdate)
      as (_ & _ & Hst1 & _).
    destruct collided.
    + split; [reflexivity|]. split; [tauto|]. eauto.
    + destruct Hcase as (-> & _). congruence.
  - apply draw_game_state.
Qed.

Lemma C9_transitions_only_by_documented_triggers_witness :
  exists self o,
    __init__ Sample.env Sample.config Sample.outside = Ok (self, o)
    /\ game_state self = START
    /\ handle_event Sample.env (Sample.key_down K_SPACE) (true, self) o
       = Ok ((true, self), o)
    /\ handle_event Sample.env (Sample.key_down K_RIGHT) (true, self) o
       = Ok ((true, self), o).
Proof.
  assert (Hrun : exists self o,
             __init__ Sample.env Sample.config Sample.outside = Ok (self, o)
             /\ game_state self = START).
  { eexists _, _. split; [vm_compute; reflexivity | reflexivity]. }
  destruct Hrun as (self & o & Hinit & Hst).
  pose proof (reach_init _ _ _ _ _ Hinit) as Hreach.
  destruct (C9_transitions_only_by_documented_triggers Sample.env
              (Sample.key_down K_SPACE) true self o Hreach) as (Hflap & _).
  destruct (C9_transitions_only_by_documented_triggers Sample.env
              (Sample.key_down K_RIGHT) true self o Hreach)
    as (_ & Hignored & _).
  exists self, o. split; [exact Hinit|]. split; [exact Hst|]. split.
  - apply Hflap; [exact Hst | reflexivity | reflexivity].
  - apply Hignored. unfold documented_trigger. rewrite Hst. reflexivity.
Defined.

(** ** Obstacle pairs stay together (C10) *)



(** ** What the game writes, it reads back *)

Lemma chars_no_space (d : Decimal.uint) :
  Forall (fun c => is_space c = false) (chars d).
Proof.
  induction d; unfold chars in *;
    cbn [NilEmpty.string_of_uint list_ascii_of_string];
    constructor; auto.
Qed.

Lemma lstrip_id (l : list ascii) :
  Forall (fun c => is_space c = false) l -> lstrip l = l.
Proof.
  destruct 1 as [|c l Hc _]; cbn [lstrip]; [|rewrite Hc]; reflexivity.
Qed.

Lemma strip_id (l : list ascii) :
  Forall (fun c => is_space c = false) l -> strip l = l.
Proof.
  intros Hl. unfold strip. rewrite (lstrip_id l Hl).
  rewrite lstrip_id; [apply rev_involutive|].
  apply Forall_rev. exact Hl.
Qed.

(** Evaluates the test and the value of the digit under consideration. *)
Ltac eval_digit :=
  match goal with
  | |- context [is_digit ?c] => change (is_digit c) with true; cbv iota
  end;
  match goal with
  | |- context [digit_value ?c] =>
      let v := eval vm_compute in (digit_value c) in
      change (digit_value c) with v
  end.

Lemma digits_of_uint_acc (d : Decimal.uint) : forall acc : positive,
  digits (Zpos acc) true (chars d) = Some (Zpos (Pos.of_uint_acc d acc)).
Proof.
  induction d; intros acc; unfold chars in *;
    cbn [NilEmpty.string_of_uint list_ascii_of_string digits
         Pos.of_uint_acc]; try reflexivity;
    eval_digit; rewrite <- IHd; f_equal; lia.
Qed.

Lemma digits_of_uint (d : Decimal.uint) :
  digits 0 true (chars d) = Some (Z.of_uint d).
Proof.
  unfold Z.of_uint.
  induction d; unfold chars in *;
    cbn [NilEmpty.string_of_uint list_ascii_of_string digits Pos.of_uint];
    try reflexivity; eval_digit;
    [exact IHd | ..]; apply digits_of_uint_acc.
Qed.

Lemma digits_first (d : Decimal.uint) :
  d <> Decimal.Nil -> digits 0 false (chars d) = digits 0 true (chars d).
Proof.
  destruct d; [congruence|..]; intros _; reflexivity.
Qed.

Lemma signed_digits_unsigned (d : Decimal.uint) :
  d <> Decimal.Nil -> signed_digits (chars d) = digits 0 false (chars d).
Proof.
  destruct d; [congruence|..]; intros _; reflexivity.
Qed.

Lemma literal_unsigned (d : Decimal.uint) :
  signed_digits (strip (list_ascii_of_string (NilZero.string_of_uint d)))
  = Some (Z.of_uint d).
Proof.
  destruct (Decimal.uint_eq_dec d Decimal.Nil) as [->|Hd]; [reflexivity|].
  replace (NilZero.string_of_uint d) with (NilEmpty.string_of_uint d)
    by (destruct d; congruence || reflexivity).
  fold (chars d).
  rewrite (strip_id _ (chars_no_space d)).
  rewrite (signed_digits_unsigned d Hd), (digits_first d Hd).
  apply digits_of_uint.
Qed.

Lemma literal_negative (d : Decimal.uint) :
  signed_digits
    (strip (list_ascii_of_string (String "-" (NilZero.string_of_uint d))))
  = Some (- Z.of_uint d).
Proof.
  destruct (Decimal.uint_eq_dec d Decimal.Nil) as [->|Hd]; [reflexivity|].
  replace (NilZero.string_of_uint d) with (NilEmpty.string_of_uint d)
    by (destruct d; congruence || reflexivity).
  cbn [list_ascii_of_string]. fold (chars d).
  rewrite strip_id by (constructor; [reflexivity | apply chars_no_space]).
  cbn [signed_digits]. rewrite (digits_first d Hd), digits_of_uint.
  reflexivity.
Qed.

Lemma literal_numeral (n : Z) : signed_digits (strip (numeral n)) = Some n.
Proof.
  unfold numeral. rewrite <- (DecimalZ.of_to n) at 2.
  destruct (Z.to_int n) as [d|d]; cbn [NilZero.string_of_int Z.of_int].
  - apply literal_unsigned.
  - apply literal_negative.
Qed.

(** ASCII text is its own ASCII form. *)
Lemma to_ascii_below_127 env (l : list ascii) :
  Forall (fun c => (N_of_ascii c < 127)%N) l ->
  to_ascii env (map N_of_ascii l) = Some l.
Proof.
  induction 1 as [|c l Hc _ IH]; [reflexivity|].
  cbn [map to_ascii]. rewrite IH. unfold to_ascii_char.
  apply N.ltb_lt in Hc. rewrite Hc, ascii_N_embedding. reflexivity.
Qed.

Lemma chars_below_127 (d : Decimal.uint) :
  Forall (fun c => (N_of_ascii c < 127)%N) (chars d).
Proof.
  induction d; unfold chars in *;
    cbn [NilEmpty.string_of_uint list_ascii_of_string];
    constructor; auto; reflexivity.
Qed.

Lemma numeral_below_127 (n : Z) :
  Forall (fun c => (N_of_ascii c < 127)%N) (numeral n).
Proof.
  assert (Hu : forall d, Forall (fun c => (N_of_ascii c < 127)%N)
                 (list_ascii_of_string (NilZero.string_of_uint d))).
  { intros d. destruct d; try apply (chars_below_127 _).
    constructor; [reflexivity | constructor]. }
  unfold numeral.
  destruct (Z.to_int n) as [d|d]; cbn [NilZero.string_of_int];
    [apply Hu|].
  cbn [list_ascii_of_string]. constructor; [reflexivity | apply Hu].
Qed.

(** [int(str(n))] is [n], unless [n] has more digits than the interpreter
    reads. *)
Lemma py_int_str env (n : Z) :
  py_int env (str n)
  = if exceeds_limit env (numeral n) then None else Some n.
Proof.
  unfold py_int, str.
  rewrite (to_ascii_below_127 env _ (numeral_below_127 n)).
  rewrite literal_numeral. reflexivity.
Qed.



(** Within the limit the file is read back without error: no limit, or a
    number of at most 640 digits. *)
Lemma save_then_load_within_limit env self o :
  exceeds_limit env (numeral (high_score self)) = false ->
  exists o',
    save_high_score self o = Ok (tt, o')
    /\ load_high_score env o' = Ok (high_score self, o').
Proof.
  intros Hfits. eexists. split; [reflexivity|].
  unfold load_high_score. cbn [highscore_txt].
  rewrite py_int_str, Hfits. reflexivity.
Qed.

(** * Further properties *)

(** ** The loop over the projectiles, exactly *)

Lemma projectiles_loop_exact todo : forall done self o,
  projectiles self = done ++ todo ->
  distinct (done ++ todo) ->
  distinct (enemies self) ->
  let r := fire_pass (width self) todo (enemies self) in
  for_each todo projectiles_loop_body self o
  = Ok (set_score
          (set_projectiles (set_enemies self (snd (fst r)))
                           (done ++ fst (fst r)))
          (add_each (snd r) 2 (score self)), o).
Proof.
  induction todo as [|projectile rest IH]; intros done self o Hp Hnd Hen.
  - cbn [for_each fire_pass fst snd add_each].
    rewrite app_nil_r in *. rewrite <- Hp. destruct self; reflexivity.
  - cbn [for_each].
    rewrite (bind_eq _ _ _ _ _ (projectiles_loop_body_run _ _ _ _ o Hp Hnd Hen)).
    cbn [fire_pass].
    destruct (Rect.left (Projectile.rect (Projectile.update projectile))
              >? width self).
    + rewrite (IH done); [reflexivity | reflexivity | | exact Hen].
      apply (distinct_middle _ _ _ Hnd).
    + destruct (find (touches (Projectile.update projectile)) (enemies self))
        as [enemy|].
      * rewrite (IH done); [reflexivity | reflexivity | |].
        -- apply (distinct_middle _ _ _ Hnd).
        -- apply distinct_filter. exact Hen.
      * rewrite (IH (done ++ [Projectile.update projectile])).
        -- cbn [fst snd score width enemies set_projectiles].
           rewrite <- app_assoc. reflexivity.
        -- cbn [projectiles set_projectiles]. rewrite <- app_assoc.
           reflexivity.
        -- apply (distinct_replace _ _ _ _ Hnd
                    (Projectile_update_ident projectile)).
        -- exact Hen.
Qed.

Lemma without_incl {A} `{Identified A} (o : A) (l : list A) :
  incl (without o l) l.
Proof. intros a Ha. apply filter_In in Ha. tauto. Qed.

Lemma without_length {A} `{Identified A} (o : A) (l : list A) :
  (List.length (without o l) <= List.length l)%nat.
Proof. apply filter_length_le. Qed.

Lemma fire_pass_enemies width todo : forall enemies,
  incl (snd (fst (fire_pass width todo enemies))) enemies
  /\ (List.length (snd (fst (fire_pass width todo enemies)))
      <= List.length enemies)%nat.
Proof.
  induction todo as [|projectile rest IH]; intros enemies; cbn [fire_pass].
  - cbn [fst snd]. split; [apply incl_refl | lia].
  - destruct (_ >? _); [apply IH|].
    destruct (find _ enemies) as [enemy|]; cbn [fst snd]; [|apply IH].
    destruct (IH (without enemy enemies)) as [Hincl Hlen]. split.
    + eapply incl_tran; [exact Hincl | apply without_incl].
    + pose proof (without_length enemy enemies). lia.
Qed.

Lemma find_none_all {A} (f : A -> bool) (l : list A) :
  find f l = None -> forall a, In a l -> f a = false.
Proof. intros Hfind a Ha. exact (find_none f l Hfind a Ha). Qed.

(** After the loop, the projectiles left are not past the right edge and
    touch none of the enemies left. *)
Lemma fire_pass_projectiles width todo : forall enemies,
  Forall (fun projectile =>
            Rect.left (Projectile.rect projectile) <= width
            /\ forall enemy,
                 In enemy (snd (fst (fire_pass width todo enemies))) ->
                 touches projectile enemy = false)
         (fst (fst (fire_pass width todo enemies))).
Proof.
  induction todo as [|projectile rest IH]; intros enemies; cbn [fire_pass].
  - constructor.
  - destruct (Z.gtb_spec (Rect.left (Projectile.rect
                                       (Projectile.update projectile))) width)
      as [_|Hin]; [apply IH|].
    destruct (find _ enemies) as [enemy|] eqn:Hfind; cbn [fst snd];
      [apply IH|].
    constructor; [|apply IH].
    split; [exact Hin|]. intros enemy Henemy.
    apply (find_none_all _ _ Hfind).
    apply (proj1 (fire_pass_enemies width rest enemies)). exact Henemy.
Qed.

(** ** Spawning, exactly *)

Lemma create_wall_pair_exact env self o self' o' :
  create_wall_pair env self o = Ok (self', o') ->
  let gap := Config.walls_gap (config self) in
  let wall_speed := (Config.walls_speed (config self)
                     * Config.level_wall_speed_multiplier (config self))%Q in
  exists gap_y,
    gap <= gap_y <= height self - gap
    /\ self'
       = set_walls self
           (walls self
            ++ [Wall.__init__ (next_oid o) (width self) 0
                  (Config.walls_width (config self)) (gap_y - gap / 2)
                  wall_speed;
                Wall.__init__ (S (next_oid o)) (width self) (gap_y + gap / 2)
                  (Config.walls_width (config self))
                  (height self - (gap_y + gap / 2)) wall_speed]).
Proof.
  intros Hrun gap wall_speed. unfold create_wall_pair in Hrun.
  fold gap wall_speed in Hrun.
  apply bind_Ok in Hrun. destruct Hrun as (gap_y & o1 & Hrand & Hrun).
  destruct (randint_Ok _ _ _ _ _ _ Hrand) as (Hrange & Hnext & _).
  unfold bind, new_oid, ret in Hrun. cbn [next_oid] in Hrun.
  inversion Hrun; subst. rewrite Hnext. exists gap_y. auto.
Qed.

Lemma spawn_enemy_exact env self o self' o' :
  spawn_enemy env self o = Ok (self', o') ->
  let enemy_height := Config.enemies_height (config self) in
  exists y direction r,
    enemy_height <= y <= height self - enemy_height
    /\ self'
       = set_enemies self
           (enemies self
            ++ [Enemy.__init__ (next_oid o) (width self) y (config self)
                  (Config.level_enemy_speed_multiplier (config self))
                  direction r]).
Proof.
  intros Hrun enemy_height. unfold spawn_enemy in Hrun.
  fold enemy_height in Hrun.
  apply bind_Ok in Hrun. destruct Hrun as (y & o1 & Hrand & Hrun).
  destruct (randint_Ok _ _ _ _ _ _ Hrand) as (Hrange & Hnext & _).
  unfold bind, new_oid, choice_sign, draw_raw, random, ret in Hrun.
  cbn [next_oid] in Hrun. inversion Hrun; subst. rewrite Hnext.
  eexists y, _, _. auto.
Qed.

Lemma randint_raises env a b o :
  b < a -> randint env a b o = Raise ValueError.
Proof.
  intros Hlt. unfold randint. destruct (Z.ltb_spec b a); [reflexivity | lia].
Qed.

(** ** A simulation step, exactly *)

Lemma update_game_objects_exact env self o self' o' :
  wf self o ->
  update_game_objects env self o = Ok (self', o') ->
  let now := ticks env (ticks_read o) in
  let r := fire_pass (width self) (projectiles self)
                     (enemies_kept (sin env) (enemies self)) in
  config self' = config self
  /\ width self' = width self
  /\ height self' = height self
  /\ last_shot self' = last_shot self
  /\ projectiles self' = fst (fst r)
  /\ score self'
     = add_each (snd r) 2
         (add_each (walls_culled (walls self)) (1 # 2) (score self))
  /\ (if now - last_wall self >? Config.level_wall_frequency (config self)
      then (exists top_wall bottom_wall,
              walls self' = walls_kept (walls self) ++ [top_wall; bottom_wall]
              /\ Rect.x (Wall.rect top_wall) = width self
              /\ Rect.x (Wall.rect bottom_wall) = width self)
           /\ last_wall self' = now
      else walls self' = walls_kept (walls self)
           /\ last_wall self' = last_wall self)
  /\ (if (now - last_enemy self >? Config.enemies_spawn_rate (config self))
         && (Z.of_nat (List.length (snd (fst r)))
             <? Config.level_enemy_count (config self))
      then (exists enemy,
              enemies self' = snd (fst r) ++ [enemy]
              /\ Rect.x (Enemy.rect enemy) = width self
              /\ Enemy.y enemy = inject_Z (Enemy.original_y enemy)
              /\ Enemy.amplitude enemy = 100%Q
              /\ Config.enemies_height (config self)
                 <= Enemy.original_y enemy
                 <= height self - Config.enemies_height (config self))
           /\ last_enemy self' = now
      else enemies self' = snd (fst r)
           /\ last_enemy self' = last_enemy self).
Proof.
  intros Hwf Hrun now r. revert Hrun. unfold update_game_objects.
  set (self0 := set_player self (Player.update (player self))).
  assert (Hwf0 : wf self0 o) by (apply (wf_same self); auto).
  rewrite (bind_eq _ _ _ _ _
             (walls_loop_run (walls self0) [] self0 o eq_refl
                             (wf_walls _ _ Hwf0))).
  cbn [app]. set (self1 := set_score _ _).
  assert (Hwf1 : distinct (enemies self1)) by apply (wf_enemies _ _ Hwf0).
  rewrite (bind_eq _ _ _ _ _
             (enemies_loop_run env (enemies self1) [] self1 o eq_refl Hwf1)).
  cbn [app]. set (self2 := set_enemies _ _).
  assert (Hp2 : distinct (projectiles self2))
    by apply (wf_projectiles _ _ Hwf0).
  assert (He2 : distinct (enemies self2)).
  { unfold self2. cbn [enemies set_enemies].
    apply distinct_filter, distinct_map; [reflexivity | exact Hwf1]. }
  rewrite (bind_eq _ _ _ _ _
             (projectiles_loop_exact (projectiles self2) [] self2 o eq_refl
                                     Hp2 He2)).
  cbn [app]. set (self3 := set_score _ _).
  rewrite (bind_eq _ _ _ _ _ (get_ticks_Ok env o)).
  intros Hrun.
  change (ticks env (ticks_read o)) with now in Hrun.
  change (fire_pass (width self2) (projectiles self2) (enemies self2))
    with r in (value of self3).
  apply bind_Ok in Hrun. destruct Hrun as (self4 & o4 & Hwalls & Henemies).
  change (last_wall self3) with (last_wall self) in Hwalls.
  change (config self3) with (config self) in Hwalls.
  assert (H4 : config self4 = config self /\ width self4 = width self
               /\ height self4 = height self
               /\ last_shot self4 = last_shot self
               /\ projectiles self4 = fst (fst r)
               /\ score self4 = score self3
               /\ enemies self4 = snd (fst r)
               /\ last_enemy self4 = last_enemy self
               /\ if now - last_wall self
                     >? Config.level_wall_frequency (config self)
                  then (exists top_wall bottom_wall,
                          walls self4
                          = walls_kept (walls self) ++ [top_wall; bottom_wall]
                          /\ Rect.x (Wall.rect top_wall) = width self
                          /\ Rect.x (Wall.rect bottom_wall) = width self)
                       /\ last_wall self4 = now
                  else walls self4 = walls_kept (walls self)
                       /\ last_wall self4 = last_wall self).
  { destruct (now - last_wall self
              >? Config.level_wall_frequency (config self)).
    - apply bind_Ok in Hwalls. destruct Hwalls as (mid & o5 & Hcreate & Hret).
      run_inv Hret.
      destruct (create_wall_pair_exact _ _ _ _ _ Hcreate) as (gap_y & _ & ->).
      repeat split. eexists _, _. repeat split.
    - run_inv Hwalls. repeat split. }
  destruct H4 as (Hc4 & Hw4 & Hh4 & Hs4 & Hp4 & Hsc4 & He4 & Hle4 & Hwall).
  rewrite Hle4, Hc4, He4 in Henemies.
  assert (H5 : config self' = config self4 /\ width self' = width self4
               /\ height self' = height self4
               /\ last_shot self' = last_shot self4
               /\ projectiles self' = projectiles self4
               /\ score self' = score self4
               /\ walls self' = walls self4
               /\ last_wall self' = last_wall self4
               /\ if (now - last_enemy self
                      >? Config.enemies_spawn_rate (config self))
                     && (Z.of_nat (List.length (snd (fst r)))
                         <? Config.level_enemy_count (config self))
                  then (exists enemy,
                          enemies self' = snd (fst r) ++ [enemy]
                          /\ Rect.x (Enemy.rect enemy) = width self
                          /\ Enemy.y enemy = inject_Z (Enemy.original_y enemy)
                          /\ Enemy.amplitude enemy = 100%Q
                          /\ Config.enemies_height (config self)
                             <= Enemy.original_y enemy
                             <= height self
                                - Config.enemies_height (config self))
                       /\ last_enemy self' = now
                  else enemies self' = snd (fst r)
                       /\ last_enemy self' = last_enemy self).
  { destruct (now - last_enemy self
              >? Config.enemies_spawn_rate (config self));
      cbn [andb];
      [destruct (Z.of_nat (List.length (snd (fst r)))
                 <? Config.level_enemy_count (config self))|].
    - apply bind_Ok in Henemies.
      destruct Henemies as (mid & o5 & Hspawn & Hret). run_inv Hret.
      destruct (spawn_enemy_exact _ _ _ _ _ Hspawn)
        as (y & direction & rnd & Hrange & ->).
      rewrite Hc4, Hh4 in Hrange.
      cbn [config width height last_shot projectiles score walls last_wall
           enemies last_enemy set_last_enemy set_enemies].
      rewrite He4, Hw4.
      do 8 (split; [reflexivity|]). split; [|reflexivity].
      eexists. split; [reflexivity|]. split; [reflexivity|].
      split; [reflexivity|]. split; [reflexivity | exact Hrange].
    - run_inv Henemies. do 8 (split; [reflexivity|]). auto.
    - run_inv Henemies. do 8 (split; [reflexivity|]). auto. }
  destruct H5 as (Hc5 & Hw5 & Hh5 & Hs5 & Hp5 & Hsc5 & Hwl5 & Hlw5 & Henemy).
  split; [congruence|]. split; [congruence|]. split; [congruence|].
  split; [congruence|]. split; [congruence|].
  split; [rewrite Hsc5, Hsc4; reflexivity|].
  split; [|exact Henemy].
  rewrite Hwl5, Hlw5. exact Hwall.
Qed.

(** ** What the other operations leave alone *)

(** What a step adds to the collections. *)
Lemma update_game_objects_spawned env self o self' o' :
  wf self o ->
  update_game_objects env self o = Ok (self', o') ->
  let now := ticks env (ticks_read o) in
  let r := fire_pass (width self) (projectiles self)
                     (enemies_kept (sin env) (enemies self)) in
  let gap := Config.walls_gap (config self) in
  let wall_speed := (Config.walls_speed (config self)
                     * Config.level_wall_speed_multiplier (config self))%Q in
  (if now - last_wall self >? Config.level_wall_frequency (config self)
   then exists gap_y,
          gap <= gap_y <= height self - gap
          /\ walls self'
             = walls_kept (walls self)
               ++ [Wall.__init__ (next_oid o) (width self) 0
                     (Config.walls_width (config self)) (gap_y - gap / 2)
                     wall_speed;
                   Wall.__init__ (S (next_oid o)) (width self)
                     (gap_y + gap / 2) (Config.walls_width (config self))
                     (height self - (gap_y + gap / 2)) wall_speed]
   else walls self' = walls_kept (walls self))
  /\ exists spawned,
       enemies self' = snd (fst r) ++ spawned
       /\ (List.length spawned <= 1)%nat
       /\ Forall (fun enemy => (next_oid o <= ident enemy)%nat) spawned.
Proof.
  intros Hwf Hrun now r gap wall_speed. revert Hrun.
  unfold update_game_objects.
  set (self0 := set_player self (Player.update (player self))).
  assert (Hwf0 : wf self0 o) by (apply (wf_same self); auto).
  rewrite (bind_eq _ _ _ _ _
             (walls_loop_run (walls self0) [] self0 o eq_refl
                             (wf_walls _ _ Hwf0))).
  cbn [app]. set (self1 := set_score _ _).
  assert (Hwf1 : distinct (enemies self1)) by apply (wf_enemies _ _ Hwf0).
  rewrite (bind_eq _ _ _ _ _
             (enemies_loop_run env (enemies self1) [] self1 o eq_refl Hwf1)).
  cbn [app]. set (self2 := set_enemies _ _).
  assert (Hp2 : distinct (projectiles self2))
    by apply (wf_projectiles _ _ Hwf0).
  assert (He2 : distinct (enemies self2)).
  { unfold self2. cbn [enemies set_enemies].
    apply distinct_filter, distinct_map; [reflexivity | exact Hwf1]. }
  rewrite (bind_eq _ _ _ _ _
             (projectiles_loop_exact (projectiles self2) [] self2 o eq_refl
                                     Hp2 He2)).
  cbn [app]. set (self3 := set_score _ _).
  rewrite (bind_eq _ _ _ _ _ (get_ticks_Ok env o)).
  set (o3 := Build_Outside _ _ _ _ _).
  intros Hrun.
  change (ticks env (ticks_read o)) with now in Hrun.
  change (fire_pass (width self2) (projectiles self2) (enemies self2))
    with r in (value of self3).
  apply bind_Ok in Hrun. destruct Hrun as (self4 & o4 & Hwalls & Henemies).
  change (last_wall self3) with (last_wall self) in Hwalls.
  change (config self3) with (config self) in Hwalls.
  assert (H4 : enemies self4 = snd (fst r)
               /\ (next_oid o <= next_oid o4)%nat
               /\ if now - last_wall self
                     >? Config.level_wall_frequency (config self)
                  then exists gap_y,
                         gap <= gap_y <= height self - gap
                         /\ walls self4
                            = walls_kept (walls self)
                              ++ [Wall.__init__ (next_oid o) (width self) 0
                                    (Config.walls_width (config self))
                                    (gap_y - gap / 2) wall_speed;
                                  Wall.__init__ (S (next_oid o)) (width self)
                                    (gap_y + gap / 2)
                                    (Config.walls_width (config self))
                                    (height self - (gap_y + gap / 2))
                                    wall_speed]
                  else walls self4 = walls_kept (walls self)).
  { destruct (now - last_wall self
              >? Config.level_wall_frequency (config self)).
    - apply bind_Ok in Hwalls. destruct Hwalls as (mid & o5 & Hcreate & Hret).
      run_inv Hret.
      destruct (create_wall_pair_run _ _ _ _ _ Hcreate)
        as (_ & _ & _ & _ & _ & _ & Hnext & _).
      destruct (create_wall_pair_exact _ _ _ _ _ Hcreate)
        as (gap_y & Hrange & ->).
      split; [reflexivity|]. split; [rewrite Hnext; cbn [next_oid o3]; lia|].
      exists gap_y. split; [exact Hrange | reflexivity].
    - run_inv Hwalls. split; [reflexivity|]. split; [cbn; lia | reflexivity]. }
  destruct H4 as (He4 & Hnext4 & Hwall).
  assert (H5 : walls self' = walls self4
               /\ exists spawned,
                    enemies self' = enemies self4 ++ spawned
                    /\ (List.length spawned <= 1)%nat
                    /\ Forall (fun enemy => (next_oid o <= ident enemy)%nat)
                              spawned).
  { assert (Hnone : walls self4 = walls self4
                    /\ exists spawned,
                         enemies self4 = enemies self4 ++ spawned
                         /\ (List.length spawned <= 1)%nat
                         /\ Forall (fun enemy =>
                                      (next_oid o <= ident enemy)%nat)
                                   spawned).
    { split; [reflexivity|]. exists []. rewrite app_nil_r.
      split; [reflexivity|]. split; [cbn; lia | constructor]. }
    destruct (now - last_enemy self4
              >? Config.enemies_spawn_rate (config self4));
      [destruct (Z.of_nat (List.length (enemies self4))
                 <? Config.level_enemy_count (config self4))|].
    - apply bind_Ok in Henemies.
      destruct Henemies as (mid & o5 & Hspawn & Hret). run_inv Hret.
      destruct (spawn_enemy_run _ _ _ _ _ Hspawn)
        as (enemy & -> & Hid & _).
      cbn [walls enemies set_last_enemy set_enemies].
      split; [reflexivity|]. exists [enemy].
      split; [reflexivity|]. split; [cbn; lia|].
      constructor; [lia | constructor].
    - run_inv Henemies. exact Hnone.
    - run_inv Henemies. exact Hnone. }
  destruct H5 as (Hw5 & spawned & He5 & Hlen & Hids).
  split.
  - rewrite Hw5. exact Hwall.
  - exists spawned. rewrite He5, He4. auto.
Qed.

Lemma create_wall_pair_outside env self o self' o' :
  create_wall_pair env self o = Ok (self', o') ->
  played o' = played o
  /\ highscore_txt o' = highscore_txt o
  /\ ticks_read o' = ticks_read o.
Proof.
  unfold create_wall_pair, randint.
  destruct (_ <? _); [discriminate|].
  unfold bind, draw_raw, new_oid, ret. intros Hrun; inversion Hrun; subst.
  repeat split.
Qed.

Lemma spawn_enemy_outside env self o self' o' :
  spawn_enemy env self o = Ok (self', o') ->
  played o' = played o
  /\ highscore_txt o' = highscore_txt o
  /\ ticks_read o' = ticks_read o.
Proof.
  unfold spawn_enemy, randint.
  destruct (_ <? _); [discriminate|].
  unfold bind, draw_raw, new_oid, choice_sign, random, ret.
  cbn [bind]. intros Hrun; inversion Hrun; subst. repeat split.
Qed.

Lemma reset_game_fields env self o self' o' :
  reset_game env self o = Ok (self', o') ->
  config self' = config self
  /\ width self' = width self
  /\ height self' = height self
  /\ high_score self' = high_score self
  /\ game_state self' = game_state self
  /\ start_button_rect self' = start_button_rect self
  /\ enemies self' = []
  /\ projectiles self' = []
  /\ score self' = 0%Q
  /\ played o' = played o
  /\ exists top_wall bottom_wall, walls self' = [top_wall; bottom_wall].
Proof.
  unfold reset_game. unfold bind at 1. unfold new_oid at 1.
  rewrite (bind_eq _ _ _ _ _ (get_ticks_Ok env _)).
  rewrite (bind_eq _ _ _ _ _ (get_ticks_Ok env _)).
  intros Hrun. apply bind_Ok in Hrun.
  destruct Hrun as (mid & o1 & Hcreate & Hret). run_inv Hret.
  destruct (create_wall_pair_outside _ _ _ _ _ Hcreate) as (Hplayed & _).
  destruct (create_wall_pair_exact _ _ _ _ _ Hcreate) as (gap_y & _ & ->).
  do 9 (split; [reflexivity|]). split; [exact Hplayed|].
  eexists _, _. reflexivity.
Qed.

Lemma __init___fields env config o self o' :
  __init__ env config o = Ok (self, o') ->
  FlappyBird.config self = config
  /\ game_state self = START
  /\ start_button_rect self = None
  /\ enemies self = []
  /\ projectiles self = []
  /\ exists high,
      load_high_score env o = Ok (high, o) /\ high_score self = high.
Proof.
  unfold __init__. intros Hrun. apply bind_Ok in Hrun.
  destruct Hrun as (high & o1 & Hload & Hreset).
  assert (o1 = o) as ->.
  { unfold load_high_score in Hload.
    destruct (highscore_txt o); [| | |destruct (py_int env s)]; congruence. }
  destruct (reset_game_fields _ _ _ _ _ Hreset)
    as (Hc & _ & _ & Hh & Hg & Hb & He & Hp & _).
  repeat split; try assumption. eauto.
Qed.

(** The simulation block of a frame, without any assumption on the state. *)
Lemma simulate_exact env self o self' o' :
  simulate env self o = Ok (self', o') ->
  (game_state self <> PLAYING /\ self' = self /\ o' = o)
  \/ (game_state self = PLAYING
      /\ exists mid o1 collided o2,
           update_game_objects env self o = Ok (mid, o1)
           /\ check_collisions mid o1 = Ok (collided, o2)
           /\ self'
              = (if collided : bool
                 then set_game_state
                        (if Qlt_bool (inject_Z (high_score mid)) (score mid)
                         then set_high_score mid (int (score mid))
                         else mid)
                        GAME_OVER
                 else mid)
           /\ played o'
              = (if collided : bool
                 then played o2 ++ [gameover_sound] else played o2)).
Proof.
  unfold simulate.
  destruct (game_state self) eqn:Hst; cbn [GameState_eqb].
  1, 3: intros Hrun; run_inv Hrun; left; repeat split; discriminate.
  intros Hrun. right. split; [reflexivity|].
  apply bind_Ok in Hrun. destruct Hrun as (mid & o1 & Hupdate & Hrun).
  destruct (check_collisions_run mid o1) as (collided & o2 & Hcheck & _).
  rewrite (bind_eq _ _ _ _ _ Hcheck) in Hrun.
  exists mid, o1, collided, o2. split; [exact Hupdate|].
  split; [exact Hcheck|].
  destruct collided; [|run_inv Hrun; split; reflexivity].
  rewrite (bind_eq _ _ _ _ _ (play_Ok _ _)) in Hrun.
  destruct (Qlt_bool _ _); cbn in Hrun; inversion Hrun; subst;
    split; reflexivity.
Qed.

Lemma draw_fields env self :
  config (draw env self) = config self
  /\ enemies (draw env self) = enemies self
  /\ projectiles (draw env self) = projectiles self
  /\ walls (draw env self) = walls self
  /\ score (draw env self) = score self
  /\ high_score (draw env self) = high_score self.
Proof.
  unfold draw, draw_start_screen, draw_game_objects,
    draw_game_over_screen, draw_scrolling_background.
  destruct (game_state self); cbn [GameState_eqb]; repeat split.
Qed.

(** An event changes neither the configuration nor the high score, and the
    enemies only by emptying the collection on a restart. *)
Lemma handle_event_fields env event running self o running' self' o' :
  handle_event env event (running, self) o = Ok ((running', self'), o') ->
  config self' = config self
  /\ high_score self' = high_score self
  /\ highscore_txt o' = highscore_txt o
  /\ (enemies self' = enemies self \/ enemies self' = []).
Proof.
  intros Hrun.
  destruct (handle_event_run _ _ _ _ _ _ _ _ Hrun)
    as [[-> ->] | [(_ & _ & _ & _ & -> & ->)
       | [(_ & _ & _ & -> & Hplay)
       | [(_ & _ & _ & mid & Hreset & ->) | (_ & _ & _ & Hshoot)]]]].
  - auto.
  - repeat split. auto.
  - rewrite play_Ok in Hplay. inversion Hplay; subst. repeat split. auto.
  - destruct (reset_game_fields _ _ _ _ _ Hreset)
      as (Hc & _ & _ & Hh & _ & _ & He & _).
    destruct (reset_game_run _ _ _ _ _ Hreset) as (_ & Hhs & _).
    repeat split; auto.
  - destruct (shoot_projectile_run _ _ _ _ _ Hshoot)
      as (Hhs & [[-> _] | (projectile & -> & _)]); repeat split; auto.
Qed.

Lemma enemies_kept_length sin (l : list Enemy.t) :
  (List.length (enemies_kept sin l) <= List.length l)%nat.
Proof.
  unfold enemies_kept. etransitivity; [apply filter_length_le|].
  rewrite length_map. reflexivity.
Qed.

Lemma enemies_kept_on_screen sin (l : list Enemy.t) :
  Forall (fun enemy => 0 <= Rect.right (Enemy.rect enemy))
         (enemies_kept sin l).
Proof.
  unfold enemies_kept, enemy_off_screen. apply Forall_forall.
  intros enemy Hin. apply filter_In in Hin. destruct Hin as [_ Hon].
  destruct (Z.ltb_spec (Rect.right (Enemy.rect enemy)) 0);
    [discriminate | assumption].
Qed.

Lemma walls_kept_on_screen (l : list Wall.t) :
  Forall (fun wall => 0 <= Rect.right (Wall.rect wall)) (walls_kept l).
Proof.
  unfold walls_kept, wall_off_screen. apply Forall_forall.
  intros wall Hin. apply filter_In in Hin. destruct Hin as [_ Hon].
  destruct (Z.ltb_spec (Rect.right (Wall.rect wall)) 0);
    [discriminate | assumption].
Qed.

(** ** The enemy population *)

(** The number of live enemies never exceeds the cap of the level (and
    stays 0 when the cap is not positive). *)
Theorem enemies_never_exceed_cap env self o :
  reachable env self o ->
  Z.of_nat (List.length (enemies self))
  <= Z.max 0 (Config.level_enemy_count (config self)).
Proof.
  induction 1 as [config o self o' Hinit
                 | event running self o running' self' o' Hreach IH Hev
                 | self o self' o' Hreach IH Hsim
                 | self o Hreach IH].
  - destruct (__init___fields _ _ _ _ _ Hinit) as (_ & _ & _ & -> & _).
    cbn. lia.
  - destruct (handle_event_fields _ _ _ _ _ _ _ _ Hev)
      as (-> & _ & _ & [-> | ->]); [exact IH | cbn; lia].
  - destruct (simulate_exact _ _ _ _ _ Hsim)
      as [(_ & -> & _) | (_ & mid & o1 & collided & o2 & Hup & _ & -> & _)];
      [exact IH|].
    assert (Hmid : Z.of_nat (List.length (enemies mid))
                   <= Z.max 0 (Config.level_enemy_count (config mid))).
    { destruct (update_game_objects_exact _ _ _ _ _
                  (reachable_wf _ _ _ Hreach) Hup)
        as (Hc & _ & _ & _ & _ & _ & _ & Hen).
      rewrite Hc.
      pose proof (proj2 (fire_pass_enemies (width self) (projectiles self)
                           (enemies_kept (sin env) (enemies self)))) as Hlen.
      pose proof (enemies_kept_length (sin env) (enemies self)) as Hkept.
      destruct (_ >? _) in Hen; cbn [andb] in Hen;
        [destruct (Z.ltb_spec
                     (Z.of_nat (List.length
                        (snd (fst (fire_pass (width self) (projectiles self)
                           (enemies_kept (sin env) (enemies self)))))))
                     (Config.level_enemy_count (config self))) in Hen|].
      - destruct Hen as ((enemy & -> & _) & _).
        rewrite length_app. cbn [List.length]. lia.
      - destruct Hen as (-> & _). lia.
      - destruct Hen as (-> & _). lia. }
    destruct collided; [|exact Hmid].
    destruct (Qlt_bool _ _); exact Hmid.
  - destruct (draw_fields env self) as (-> & -> & _). exact IH.
Qed.

Lemma enemies_never_exceed_cap_witness :
  exists self o,
    Sample.about_to_crash = Ok (self, o)
    /\ List.length (enemies self) = 3%nat
    /\ Z.of_nat (List.length (enemies self)) <= 3.
Proof.
  assert (Hrun : exists self o,
             Sample.about_to_crash = Ok (self, o)
             /\ List.length (enemies self) = 3%nat
             /\ Config.level_enemy_count (config self) = 3).
  { eexists _, _. split; [vm_compute; reflexivity|]. split; reflexivity. }
  destruct Hrun as (self & o & Hstart & Hlen & Hcap).
  pose proof (enemies_never_exceed_cap Sample.steady_env self o
                (start_and_run_reachable _ _ _ _ _ _ Hstart)) as Hle.
  rewrite Hcap in Hle. exists self, o. auto.
Defined.

(** ** Score and high score *)

(** A simulation step never lowers the score. *)
Theorem score_never_decreases_in_step env self o self' o' :
  reachable env self o ->
  simulate env self o = Ok (self', o') ->
  (score self <= score self')%Q.
Proof.
  intros Hreach Hsim. pose proof (reachable_wf _ _ _ Hreach) as Hwf.
  destruct (simulate_exact _ _ _ _ _ Hsim)
    as [(_ & -> & _) | (_ & mid & o1 & collided & o2 & Hup & _ & -> & _)];
    [apply Qle_refl|].
  destruct (update_game_objects_run _ _ _ _ _ Hwf Hup)
    as (_ & _ & _ & _ & _ & pairs & hits & _ & Hscore).
  assert (Hmid : (score self <= score mid)%Q).
  { rewrite Hscore. rewrite <- (Qplus_0_r (score self)) at 1.
    rewrite <- Qplus_assoc. apply Qplus_le_r.
    rewrite <- inject_Z_plus. change 0%Q with (inject_Z 0).
    rewrite <- Zle_Qle. lia. }
  destruct collided; [|exact Hmid].
  destruct (Qlt_bool _ _); exact Hmid.
Qed.

Lemma score_never_decreases_in_step_witness :
  exists self o self' o',
    Sample.about_to_crash = Ok (self, o)
    /\ simulate Sample.steady_env self o = Ok (self', o')
    /\ (score self <= score self')%Q.
Proof.
  assert (Hrun : exists self o self' o',
             Sample.about_to_crash = Ok (self, o)
             /\ simulate Sample.steady_env self o = Ok (self', o')).
  { eexists _, _, _, _. split; [vm_compute; reflexivity|].
    vm_compute; reflexivity. }
  destruct Hrun as (self & o & self' & o' & Hstart & Hsim).
  exists self, o, self', o'. split; [exact Hstart|]. split; [exact Hsim|].
  exact (score_never_decreases_in_step Sample.steady_env self o self' o'
           (start_and_run_reachable _ _ _ _ _ _ Hstart) Hsim).
Defined.

(** The high score never decreases: events and drawing leave it alone and
    a simulation step can only raise it. *)
Theorem high_score_never_decreases env self o :
  reachable env self o ->
  (forall event running running' self' o',
     handle_event env event (running, self) o = Ok ((running', self'), o') ->
     high_score self' = high_score self)
  /\ (forall self' o',
        simulate env self o = Ok (self', o') ->
        high_score self <= high_score self')
  /\ high_score (draw env self) = high_score self.
Proof.
  intros Hreach. pose proof (reachable_wf _ _ _ Hreach) as Hwf.
  split; [|split].
  - intros event running running' self' o' Hev.
    apply (handle_event_fields _ _ _ _ _ _ _ _ Hev).
  - intros self' o' Hsim.
    destruct (simulate_exact _ _ _ _ _ Hsim)
      as [(_ & -> & _) | (_ & mid & o1 & collided & o2 & Hup & _ & -> & _)];
      [lia|].
    destruct (update_game_objects_run _ _ _ _ _ Hwf Hup)
      as (Hwf1 & _ & _ & Hhigh & _).
    destruct collided; [|lia].
    destruct (wf_whole _ _ Hwf1) as (n & _ & Hn).
    rewrite (Qlt_bool_whole _ _ _ Hn), (int_whole _ _ Hn).
    destruct (Z.ltb_spec (high_score mid) n);
      cbn [high_score set_game_state set_high_score]; lia.
  - apply draw_fields.
Qed.

Lemma high_score_never_decreases_witness :
  exists self o self' o',
    Sample.about_to_crash = Ok (self, o)
    /\ simulate Sample.steady_env self o = Ok (self', o')
    /\ high_score self <= high_score self'.
Proof.
  assert (Hrun : exists self o self' o',
             Sample.about_to_crash = Ok (self, o)
             /\ simulate Sample.steady_env self o = Ok (self', o')).
  { eexists _, _, _, _. split; [vm_compute; reflexivity|].
    vm_compute; reflexivity. }
  destruct Hrun as (self & o & self' & o' & Hstart & Hsim).
  exists self, o, self', o'. split; [exact Hstart|]. split; [exact Hsim|].
  destruct (high_score_never_decreases Sample.steady_env self o
              (start_and_run_reachable _ _ _ _ _ _ Hstart))
    as (_ & Hstep & _).
  exact (Hstep self' o' Hsim).
Defined.

(** ** What a simulation step leaves in the collections *)

(** After a simulation step no projectile is past the right edge of the
    window, and every wall and every enemy either still reaches into the
    window from the left or was spawned in this step at the right edge. *)
Theorem step_culls_stale_entities env self o self' o' :
  reachable env self o ->
  update_game_objects env self o = Ok (self', o') ->
  Forall (fun projectile =>
            Rect.left (Projectile.rect projectile) <= width self')
         (projectiles self')
  /\ Forall (fun wall =>
               0 <= Rect.right (Wall.rect wall)
               \/ Rect.x (Wall.rect wall) = width self')
            (walls self')
  /\ Forall (fun enemy =>
               0 <= Rect.right (Enemy.rect enemy)
               \/ Rect.x (Enemy.rect enemy) = width self')
            (enemies self').
Proof.
  intros Hreach Hup.
  destruct (update_game_objects_exact _ _ _ _ _
              (reachable_wf _ _ _ Hreach) Hup)
    as (_ & -> & _ & _ & -> & _ & Hwalls & Henemies).
  set (r := fire_pass _ _ _) in *.
  assert (Hold : Forall (fun enemy =>
                           0 <= Rect.right (Enemy.rect enemy)
                           \/ Rect.x (Enemy.rect enemy) = width self)
                        (snd (fst r))).
  { apply Forall_forall. intros enemy Hin. left.
    apply (proj1 (fire_pass_enemies _ _ _)) in Hin.
    pose proof (enemies_kept_on_screen (sin env) (enemies self)) as Hon.
    rewrite Forall_forall in Hon. apply Hon, Hin. }
  assert (Hkept : Forall (fun wall =>
                            0 <= Rect.right (Wall.rect wall)
                            \/ Rect.x (Wall.rect wall) = width self)
                         (walls_kept (walls self))).
  { eapply Forall_impl; [|apply walls_kept_on_screen]. cbn. auto. }
  split; [|split].
  - eapply Forall_impl; [|apply fire_pass_projectiles]. cbn. tauto.
  - destruct (_ >? _) in Hwalls.
    + destruct Hwalls as ((top_wall & bottom_wall & -> & Ht & Hb) & _).
      apply Forall_app. split; [exact Hkept|].
      constructor; [auto|]. constructor; [auto | constructor].
    + destruct Hwalls as (-> & _). exact Hkept.
  - destruct (_ && _) in Henemies.
    + destruct Henemies as ((enemy & -> & Hx & _) & _).
      apply Forall_app. split; [exact Hold|].
      constructor; [auto | constructor].
    + destruct Henemies as (-> & _). exact Hold.
Qed.

Lemma step_culls_stale_entities_witness :
  exists self o self' o',
    Sample.about_to_crash = Ok (self, o)
    /\ update_game_objects Sample.steady_env self o = Ok (self', o')
    /\ List.length (walls self') = 4%nat
    /\ Forall (fun wall =>
                 0 <= Rect.right (Wall.rect wall)
                 \/ Rect.x (Wall.rect wall) = 400)
              (walls self').
Proof.
  assert (Hrun : exists self o self' o',
             Sample.about_to_crash = Ok (self, o)
             /\ update_game_objects Sample.steady_env self o = Ok (self', o')
             /\ List.length (walls self') = 4%nat
             /\ width self' = 400).
  { eexists _, _, _, _. split; [vm_compute; reflexivity|].
    split; [vm_compute; reflexivity|]. split; reflexivity. }
  destruct Hrun as (self & o & self' & o' & Hstart & Hup & Hlen & Hw).
  destruct (step_culls_stale_entities Sample.steady_env self o self' o'
              (start_and_run_reachable _ _ _ _ _ _ Hstart) Hup)
    as (_ & Hwalls & _).
  rewrite Hw in Hwalls. exists self, o, self', o'. auto.
Defined.

(** After a simulation step no projectile of the collection touches an
    enemy of the collection, except possibly the one enemy spawned at the
    end of this very step. *)
Theorem step_resolves_every_hit env self o self' o' :
  reachable env self o ->
  update_game_objects env self o = Ok (self', o') ->
  exists old spawned,
    enemies self' = old ++ spawned
    /\ (List.length spawned <= 1)%nat
    /\ Forall (fun enemy => Rect.x (Enemy.rect enemy) = width self') spawned
    /\ forall projectile enemy,
         In projectile (projectiles self') -> In enemy old ->
         touches projectile enemy = false.
Proof.
  intros Hreach Hup.
  destruct (update_game_objects_exact _ _ _ _ _
              (reachable_wf _ _ _ Hreach) Hup)
    as (_ & -> & _ & _ & -> & _ & _ & Henemies).
  set (r := fire_pass _ _ _) in *.
  assert (Hfree : forall projectile enemy,
             In projectile (fst (fst r)) -> In enemy (snd (fst r)) ->
             touches projectile enemy = false).
  { intros projectile enemy Hp He.
    pose proof (fire_pass_projectiles (width self) (projectiles self)
                  (enemies_kept (sin env) (enemies self))) as Hall.
    rewrite Forall_forall in Hall. apply (Hall projectile Hp). exact He. }
  destruct (_ && _) in Henemies.
  - destruct Henemies as ((enemy & -> & Hx & _) & _).
    exists (snd (fst r)), [enemy]. split; [reflexivity|].
    split; [cbn; lia|]. split; [|exact Hfree].
    constructor; [exact Hx | constructor].
  - destruct Henemies as (-> & _).
    exists (snd (fst r)), []. rewrite app_nil_r. split; [reflexivity|].
    split; [cbn; lia|]. split; [constructor | exact Hfree].
Qed.

Lemma step_resolves_every_hit_witness :
  exists self o self' o' old spawned,
    Sample.after_shot = Ok (self, o)
    /\ update_game_objects Sample.env self o = Ok (self', o')
    /\ List.length (projectiles self') = 1%nat
    /\ enemies self' = old ++ spawned
    /\ forall projectile enemy,
         In projectile (projectiles self') -> In enemy old ->
         touches projectile enemy = false.
Proof.
  assert (Hrun : exists self o self' o',
             Sample.after_shot = Ok (self, o)
             /\ update_game_objects Sample.env self o = Ok (self', o')
             /\ List.length (projectiles self') = 1%nat).
  { eexists _, _, _, _. split; [vm_compute; reflexivity|].
    split; [vm_compute; reflexivity | reflexivity]. }
  destruct Hrun as (self & o & self' & o' & Hstart & Hup & Hlen).
  destruct (step_resolves_every_hit Sample.env self o self' o'
              (start_and_run_reachable _ _ _ _ _ _ Hstart) Hup)
    as (old & spawned & He & _ & _ & Hfree).
  exists self, o, self', o', old, spawned. auto.
Defined.

(** ** The spawn scheduler *)

(** A simulation step spawns one obstacle pair exactly when more than the
    level's wall frequency has elapsed since the last spawn, whatever the
    number of obstacles, and then records the time: the obstacles are then
    those the culling left, in their order, followed by the two new ones,
    which stand at the right edge, one from the top down to half a gap
    above a position drawn between one gap from the top and one gap from
    the bottom, the other from half a gap below it to the bottom.
    Otherwise the obstacles are exactly those the culling left and the time
    stays. *)
Theorem wall_pair_spawned_when_due env self o self' o' :
  reachable env self o ->
  update_game_objects env self o = Ok (self', o') ->
  let now := ticks env (ticks_read o) in
  let due := now - last_wall self
             >? Config.level_wall_frequency (config self) in
  let gap := Config.walls_gap (config self) in
  let wall_speed := (Config.walls_speed (config self)
                     * Config.level_wall_speed_multiplier (config self))%Q in
  (if due
   then exists gap_y,
          gap <= gap_y <= height self - gap
          /\ walls self'
             = walls_kept (walls self)
               ++ [Wall.__init__ (next_oid o) (width self) 0
                     (Config.walls_width (config self)) (gap_y - gap / 2)
                     wall_speed;
                   Wall.__init__ (S (next_oid o)) (width self)
                     (gap_y + gap / 2) (Config.walls_width (config self))
                     (height self - (gap_y + gap / 2)) wall_speed]
   else walls self' = walls_kept (walls self))
  /\ List.length (walls self')
     = (List.length (walls_kept (walls self)) + (if due then 2 else 0))%nat
  /\ last_wall self' = (if due then now else last_wall self).
Proof.
  intros Hreach Hup now due gap wall_speed.
  pose proof (reachable_wf _ _ _ Hreach) as Hwf.
  destruct (update_game_objects_exact _ _ _ _ _ Hwf Hup)
    as (_ & _ & _ & _ & _ & _ & Hwalls & _).
  destruct (update_game_objects_spawned _ _ _ _ _ Hwf Hup) as (Hpair & _).
  fold now due in Hwalls. fold now due gap wall_speed in Hpair.
  split; [exact Hpair|]. destruct due.
  - destruct Hwalls as ((top_wall & bottom_wall & -> & _) & ->).
    rewrite length_app. split; reflexivity.
  - destruct Hwalls as (-> & ->). split; [lia | reflexivity].
Qed.

Lemma wall_pair_spawned_when_due_witness :
  (exists self o self' o' gap_y,
     Sample.head_on = Ok (self, o)
     /\ update_game_objects Sample.head_on_env self o = Ok (self', o')
     /\ last_wall self = 22000
     /\ last_wall self' = 24000
     /\ 150 <= gap_y <= 650
     /\ walls self'
        = walls_kept (walls self)
          ++ [Wall.__init__ 29 400 0 60 (gap_y - 150 / 2) 3;
              Wall.__init__ 30 400 (gap_y + 150 / 2) 60
                            (800 - (gap_y + 150 / 2)) 3]
     /\ List.length (walls self')
        = (List.length (walls_kept (walls self)) + 2)%nat)
  /\ (exists self o self' o',
        Sample.about_to_crash = Ok (self, o)
        /\ update_game_objects Sample.steady_env self o = Ok (self', o')
        /\ last_wall self = 16000
        /\ last_wall self' = 16000
        /\ walls self' = walls_kept (walls self)
        /\ List.length (walls self')
           = (List.length (walls_kept (walls self)) + 0)%nat).
Proof.
  split.
  - assert (Hrun : exists self o self' o',
               Sample.head_on = Ok (self, o)
               /\ update_game_objects Sample.head_on_env self o
                  = Ok (self', o')
               /\ last_wall self = 22000
               /\ ticks Sample.head_on_env (ticks_read o) = 24000
               /\ config self = Sample.config
               /\ width self = 400
               /\ height self = 800
               /\ next_oid o = 29%nat).
    { eexists _, _, _, _. split; [vm_compute; reflexivity|].
      split; [vm_compute; reflexivity|].
      do 5 (split; [reflexivity|]). reflexivity. }
    destruct Hrun
      as (self & o & self' & o' & Hstart & Hup & Hlast & Hnow & Hc & Hw & Hh
          & Hnext).
    destruct (wall_pair_spawned_when_due Sample.head_on_env self o self' o'
                (start_and_run_reachable _ _ _ _ _ _ Hstart) Hup)
      as (Hpair & Hlen & Htime).
    rewrite Hnow, Hlast, Hc in Hpair, Hlen, Htime.
    destruct Hpair as (gap_y & Hrange & Hwalls).
    rewrite Hh in Hrange. rewrite Hw, Hh, Hnext in Hwalls.
    exists self, o, self', o', gap_y.
    split; [exact Hstart|]. split; [exact Hup|]. split; [exact Hlast|].
    split; [exact Htime|]. split; [exact Hrange|].
    split; [exact Hwalls | exact Hlen].
  - assert (Hrun : exists self o self' o',
               Sample.about_to_crash = Ok (self, o)
               /\ update_game_objects Sample.steady_env self o
                  = Ok (self', o')
               /\ last_wall self = 16000
               /\ ticks Sample.steady_env (ticks_read o) = 17000
               /\ Config.level_wall_frequency (config self) = 1500).
    { eexists _, _, _, _. split; [vm_compute; reflexivity|].
      split; [vm_compute; reflexivity|]. repeat split. }
    destruct Hrun
      as (self & o & self' & o' & Hstart & Hup & Hlast & Hnow & Hf).
    destruct (wall_pair_spawned_when_due Sample.steady_env self o self' o'
                (start_and_run_reachable _ _ _ _ _ _ Hstart) Hup)
      as (Hpair & Hlen & Htime).
    rewrite Hnow, Hlast, Hf in Hpair, Hlen, Htime.
    exists self, o, self', o'. auto 10.
Defined.

(** A simulation step spawns one enemy exactly when more than the spawn
    rate has elapsed since the last spawn and the enemies left by this
    step's culling and hits are fewer than the cap; when the cap is
    reached the time of the last spawn is not touched. *)
Theorem enemy_spawned_when_due_and_below_cap env self o self' o' :
  reachable env self o ->
  update_game_objects env self o = Ok (self', o') ->
  let now := ticks env (ticks_read o) in
  let left_enemies :=
    snd (fst (fire_pass (width self) (projectiles self)
                        (enemies_kept (sin env) (enemies self)))) in
  let due := now - last_enemy self
             >? Config.enemies_spawn_rate (config self) in
  let below_cap := Z.of_nat (List.length left_enemies)
                   <? Config.level_enemy_count (config self) in
  (due && below_cap = true ->
   (exists enemy, enemies self' = left_enemies ++ [enemy])
   /\ last_enemy self' = now)
  /\ (due && below_cap = false ->
      enemies self' = left_enemies /\ last_enemy self' = last_enemy self).
Proof.
  intros Hreach Hup now left_enemies due below_cap.
  destruct (update_game_objects_exact _ _ _ _ _
              (reachable_wf _ _ _ Hreach) Hup)
    as (_ & _ & _ & _ & _ & _ & _ & Henemies).
  fold now left_enemies due below_cap in Henemies.
  destruct (due && below_cap).
  - split; [|discriminate]. intros _.
    destruct Henemies as ((enemy & He & _) & Ht). eauto.
  - split; [discriminate|]. intros _. exact Henemies.
Qed.

Lemma enemy_spawned_when_due_and_below_cap_witness :
  exists self o self' o',
    Sample.about_to_crash = Ok (self, o)
    /\ update_game_objects Sample.steady_env self o = Ok (self', o')
    /\ List.length (enemies self) = 3%nat
    /\ List.length (enemies self') = 3%nat
    /\ last_enemy self' = last_enemy self.
Proof.
  assert (Hrun : exists self o self' o',
             Sample.about_to_crash = Ok (self, o)
             /\ update_game_objects Sample.steady_env self o = Ok (self', o')
             /\ List.length (enemies self) = 3%nat
             /\ List.length (enemies self') = 3%nat
             /\ (ticks Sample.steady_env (ticks_read o) - last_enemy self
                 >? Config.enemies_spawn_rate (config self))
                && (Z.of_nat
                      (List.length
                         (snd (fst (fire_pass (width self) (projectiles self)
                                      (enemies_kept (sin Sample.steady_env)
                                                    (enemies self))))))
                    <? Config.level_enemy_count (config self)) = false).
  { eexists _, _, _, _. split; [vm_compute; reflexivity|].
    split; [vm_compute; reflexivity|]. repeat split. }
  destruct Hrun as (self & o & self' & o' & Hstart & Hup & Hl & Hl' & Hcap).
  destruct (enemy_spawned_when_due_and_below_cap Sample.steady_env
              self o self' o'
              (start_and_run_reachable _ _ _ _ _ _ Hstart) Hup)
    as (_ & Hskip).
  destruct (Hskip Hcap) as (_ & Ht).
  exists self, o, self', o'. auto.
Defined.

(** ** Where the gap of an obstacle pair lies *)

(** For a non-negative configured gap, the opening of a spawned pair lies
    within the window: both segments have a height of at least the gap
    minus its floored half, the top segment ends at or below the top edge
    and the bottom segment starts at or above the bottom edge. *)
Theorem wall_gap_lies_within_window env self o self' o' :
  create_wall_pair env self o = Ok (self', o') ->
  let gap := Config.walls_gap (config self) in
  exists top_wall bottom_wall,
    walls self' = walls self ++ [top_wall; bottom_wall]
    /\ gap - gap / 2 <= Wall.height top_wall
    /\ gap - gap / 2 <= Wall.height bottom_wall
    /\ (0 <= gap ->
        0 <= Rect.bottom (Wall.rect top_wall)
        /\ Rect.bottom (Wall.rect top_wall) <= Rect.top (Wall.rect bottom_wall)
        /\ Rect.top (Wall.rect bottom_wall) <= height self).
Proof.
  intros Hrun gap.
  destruct (create_wall_pair_exact _ _ _ _ _ Hrun) as (gap_y & Hrange & ->).
  fold gap in Hrange. eexists _, _. split; [reflexivity|].
  unfold Wall.height, Wall.rect, Wall.__init__, GameObject.__init__,
    Rect.top, Rect.bottom.
  cbn [Wall.base GameObject.height GameObject.rect Rect.y Rect.h].
  fold gap.
  assert (Hhalf : 0 <= gap -> 0 <= gap / 2 <= gap).
  { intros Hgap. split; [apply Z.div_pos; lia|].
    apply Z.div_le_upper_bound; lia. }
  split; [lia|]. split; [lia|]. intros Hgap. specialize (Hhalf Hgap). lia.
Qed.

Lemma wall_gap_lies_within_window_witness :
  exists self' o' top_wall bottom_wall,
    create_wall_pair Sample.env (before_reset Sample.config 0) Sample.outside
    = Ok (self', o')
    /\ walls self' = [top_wall; bottom_wall]
    /\ 75 <= Wall.height top_wall
    /\ 75 <= Wall.height bottom_wall.
Proof.
  assert (Hrun : exists self' o',
             create_wall_pair Sample.env (before_reset Sample.config 0)
                              Sample.outside = Ok (self', o')).
  { eexists _, _. vm_compute. reflexivity. }
  destruct Hrun as (self' & o' & Hrun).
  destruct (wall_gap_lies_within_window Sample.env _ _ _ _ Hrun)
    as (top_wall & bottom_wall & Hw & Ht & Hb & _).
  exists self', o', top_wall, bottom_wall. auto.
Defined.

(** A configured gap wider than half the window height leaves no place
    for the gap centre: spawning a pair raises [ValueError], and so do a
    restart and start-up (unless reading the high score fails first). *)
Theorem gap_wider_than_half_window_cannot_start env config :
  Config.window_height config - Config.walls_gap config
  < Config.walls_gap config ->
  (forall self o,
     FlappyBird.config self = config ->
     height self = Config.window_height config ->
     create_wall_pair env self o = Raise ValueError
     /\ reset_game env self o = Raise ValueError)
  /\ forall o, exists e, __init__ env config o = Raise e.
Proof.
  intros Hgap.
  assert (Hcreate : forall self o,
             FlappyBird.config self = config ->
             height self = Config.window_height config ->
             create_wall_pair env self o = Raise ValueError).
  { intros self o Hc Hh. unfold create_wall_pair. rewrite Hc, Hh.
    unfold bind at 1. rewrite (randint_raises _ _ _ _ Hgap). reflexivity. }
  assert (Hreset : forall self o,
             FlappyBird.config self = config ->
             height self = Config.window_height config ->
             reset_game env self o = Raise ValueError).
  { intros self o Hc Hh. unfold reset_game.
    unfold bind at 1. unfold new_oid at 1.
    rewrite (bind_eq _ _ _ _ _ (get_ticks_Ok env _)).
    rewrite (bind_eq _ _ _ _ _ (get_ticks_Ok env _)).
    unfold bind. rewrite Hcreate; [reflexivity | exact Hc | exact Hh]. }
  split; [auto|].
  intros o. unfold __init__, bind.
  destruct (load_high_score env o) as [[high o1]|e]; [|eauto].
  exists ValueError. apply Hreset; reflexivity.
Qed.

Lemma gap_wider_than_half_window_cannot_start_witness :
  __init__ Sample.env Sample.wide_gap_config Sample.outside
  = Raise ValueError.
Proof.
  destruct (gap_wider_than_half_window_cannot_start Sample.env
              Sample.wide_gap_config) as (_ & Hinit).
  - vm_compute. reflexivity.
  - destruct (Hinit Sample.outside) as (e & He).
    rewrite He. f_equal.
    assert (Hv : __init__ Sample.env Sample.wide_gap_config Sample.outside
                 = Raise ValueError) by (vm_compute; reflexivity).
    congruence.
Defined.

Lemma create_wall_pair_raises env self o e :
  create_wall_pair env self o = Raise e -> e = ValueError.
Proof.
  unfold create_wall_pair, randint.
  destruct (_ <? _); unfold bind, raise, draw_raw, new_oid, ret;
    congruence.
Qed.

Lemma spawn_enemy_raises env self o :
  height self - Config.enemies_height (config self)
  < Config.enemies_height (config self) ->
  spawn_enemy env self o = Raise ValueError.
Proof.
  intros Hlt. unfold spawn_enemy. unfold bind at 1.
  rewrite (randint_raises _ _ _ _ Hlt). reflexivity.
Qed.

(** With enemies taller than half the window there is no place to spawn
    one: the first simulation step in which an enemy is due raises
    [ValueError]. *)
Theorem tall_enemies_crash_when_first_due env self o :
  reachable env self o ->
  height self - Config.enemies_height (config self)
  < Config.enemies_height (config self) ->
  let now := ticks env (ticks_read o) in
  let left_enemies :=
    snd (fst (fire_pass (width self) (projectiles self)
                        (enemies_kept (sin env) (enemies self)))) in
  (now - last_enemy self >? Config.enemies_spawn_rate (config self))
  && (Z.of_nat (List.length left_enemies)
      <? Config.level_enemy_count (config self)) = true ->
  update_game_objects env self o = Raise ValueError.
Proof.
  intros Hreach Htall now left_enemies Hdue.
  pose proof (reachable_wf _ _ _ Hreach) as Hwf.
  apply andb_prop in Hdue. destruct Hdue as [Hdue Hcap].
  unfold update_game_objects.
  set (self0 := set_player self (Player.update (player self))).
  assert (Hwf0 : wf self0 o) by (apply (wf_same self); auto).
  rewrite (bind_eq _ _ _ _ _
             (walls_loop_run (walls self0) [] self0 o eq_refl
                             (wf_walls _ _ Hwf0))).
  cbn [app]. set (self1 := set_score _ _).
  assert (Hwf1 : distinct (enemies self1)) by apply (wf_enemies _ _ Hwf0).
  rewrite (bind_eq _ _ _ _ _
             (enemies_loop_run env (enemies self1) [] self1 o eq_refl Hwf1)).
  cbn [app]. set (self2 := set_enemies _ _).
  assert (Hp2 : distinct (projectiles self2))
    by apply (wf_projectiles _ _ Hwf0).
  assert (He2 : distinct (enemies self2)).
  { unfold self2. cbn [enemies set_enemies].
    apply distinct_filter, distinct_map; [reflexivity | exact Hwf1]. }
  rewrite (bind_eq _ _ _ _ _
             (projectiles_loop_exact (projectiles self2) [] self2 o eq_refl
                                     Hp2 He2)).
  cbn [app]. set (self3 := set_score _ _).
  rewrite (bind_eq _ _ _ _ _ (get_ticks_Ok env o)).
  fold now. set (o3 := Build_Outside _ _ _ _ _).
  assert (Hspawn : forall self4 o4,
             config self4 = config self -> height self4 = height self ->
             last_enemy self4 = last_enemy self ->
             enemies self4 = left_enemies ->
             (if now - last_enemy self4
                 >? Config.enemies_spawn_rate (config self4)
              then
                if Z.of_nat (List.length (enemies self4))
                   <? Config.level_enemy_count (config self4)
                then self5 <- spawn_enemy env self4 ;;
                     ret (set_last_enemy self5 now)
                else ret self4
              else ret self4) o4 = Raise ValueError).
  { intros self4 o4 Hc Hh Hl He. rewrite Hl, Hc, He, Hdue, Hcap.
    unfold bind. rewrite spawn_enemy_raises; [reflexivity|].
    rewrite Hc, Hh. exact Htall. }
  unfold bind at 1.
  destruct (now - last_wall self3 >? Config.level_wall_frequency (config self3)).
  - unfold bind at 1.
    destruct (create_wall_pair env self3 o3) as [[mid o5]|e] eqn:Hcreate.
    + destruct (create_wall_pair_exact _ _ _ _ _ Hcreate) as (gap_y & _ & ->).
      apply Hspawn; reflexivity.
    + rewrite (create_wall_pair_raises _ _ _ _ Hcreate). reflexivity.
  - apply Hspawn; reflexivity.
Qed.

Lemma tall_enemies_crash_when_first_due_witness :
  exists self o,
    Sample.before_first_enemy = Ok (self, o)
    /\ game_state self = PLAYING
    /\ update_game_objects Sample.env self o = Raise ValueError.
Proof.
  assert (Hrun : exists self o,
             Sample.before_first_enemy = Ok (self, o)
             /\ game_state self = PLAYING
             /\ height self - Config.enemies_height (config self)
                < Config.enemies_height (config self)
             /\ (ticks Sample.env (ticks_read o) - last_enemy self
                 >? Config.enemies_spawn_rate (config self))
                && (Z.of_nat
                      (List.length
                         (snd (fst (fire_pass (width self) (projectiles self)
                                      (enemies_kept (sin Sample.env)
                                                    (enemies self))))))
                    <? Config.level_enemy_count (config self)) = true).
  { eexists _, _. split; [vm_compute; reflexivity|]. repeat split. }
  destruct Hrun as (self & o & Hstart & Hst & Htall & Hdue).
  exists self, o. split; [exact Hstart|]. split; [exact Hst|].
  exact (tall_enemies_crash_when_first_due Sample.env self o
           (start_and_run_reachable _ _ _ _ _ _ Hstart) Htall Hdue).
Defined.

(** ** Enemies oscillate around their spawn height *)

Lemma enemies_kept_from sin (l : list Enemy.t) (enemy : Enemy.t) :
  In enemy (enemies_kept sin l) ->
  exists before, In before l /\ enemy = Enemy.update sin before.
Proof.
  unfold enemies_kept. intros Hin. apply filter_In in Hin.
  destruct Hin as [Hin _]. apply in_map_iff in Hin.
  destruct Hin as (before & <- & Hbefore). eauto.
Qed.

(** As long as [math.sin] stays within [-1, 1], every live enemy keeps the
    amplitude 100 it was created with and is never further than 100 above
    or below the height at which it was spawned. *)
Theorem enemies_stay_within_amplitude env self o :
  (forall t, -1 <= sin env t <= 1)%Q ->
  reachable env self o ->
  Forall (fun enemy =>
            Enemy.amplitude enemy = 100%Q
            /\ (inject_Z (Enemy.original_y enemy) - 100 <= Enemy.y enemy
                <= inject_Z (Enemy.original_y enemy) + 100)%Q)
         (enemies self).
Proof.
  intros Hsin.
  induction 1 as [config o self o' Hinit
                 | event running self o running' self' o' Hreach IH Hev
                 | self o self' o' Hreach IH Hsim
                 | self o Hreach IH].
  - destruct (__init___fields _ _ _ _ _ Hinit) as (_ & _ & _ & -> & _).
    constructor.
  - destruct (handle_event_fields _ _ _ _ _ _ _ _ Hev)
      as (_ & _ & _ & [-> | ->]); [exact IH | constructor].
  - destruct (simulate_exact _ _ _ _ _ Hsim)
      as [(_ & -> & _) | (_ & mid & o1 & collided & o2 & Hup & _ & -> & _)];
      [exact IH|].
    assert (Hmid : Forall (fun enemy =>
                     Enemy.amplitude enemy = 100%Q
                     /\ (inject_Z (Enemy.original_y enemy) - 100
                         <= Enemy.y enemy
                         <= inject_Z (Enemy.original_y enemy) + 100)%Q)
                          (enemies mid)).
    { destruct (update_game_objects_exact _ _ _ _ _
                  (reachable_wf _ _ _ Hreach) Hup)
        as (_ & _ & _ & _ & _ & _ & _ & Hen).
      set (r := fire_pass _ _ _) in *.
      assert (Hold : Forall (fun enemy =>
                       Enemy.amplitude enemy = 100%Q
                       /\ (inject_Z (Enemy.original_y enemy) - 100
                           <= Enemy.y enemy
                           <= inject_Z (Enemy.original_y enemy) + 100)%Q)
                            (snd (fst r))).
      { apply Forall_forall. intros enemy Hin.
        apply (proj1 (fire_pass_enemies _ _ _)) in Hin.
        destruct (enemies_kept_from _ _ _ Hin) as (before & Hb & ->).
        rewrite Forall_forall in IH. destruct (IH before Hb) as (Ha & _).
        split; [exact Ha|].
        unfold Enemy.y, Enemy.update.
        cbn [Enemy.base Enemy.original_y GameObject.y GameObject.set_rect
             GameObject.set_y GameObject.set_x].
        rewrite Ha.
        destruct (Hsin (Enemy.time before + (5 # 100))%Q) as [Hlo Hhi].
        set (s := sin env (Enemy.time before + (5 # 100))%Q) in *.
        split.
        - unfold Qminus. apply Qplus_le_r.
          setoid_replace (- (100))%Q with (100 * (-1))%Q by reflexivity.
          apply Qmult_le_l; [reflexivity | exact Hlo].
        - apply Qplus_le_r.
          setoid_replace 100%Q with (100 * 1)%Q at 2 by reflexivity.
          apply Qmult_le_l; [reflexivity | exact Hhi]. }
      destruct (_ && _) in Hen.
      - destruct Hen as ((enemy & -> & _ & Hy & Ha & _) & _).
        apply Forall_app. split; [exact Hold|].
        constructor; [|constructor]. split; [exact Ha|]. rewrite Hy.
        split.
        + unfold Qminus. rewrite <- (Qplus_0_r (inject_Z _)) at 2.
          apply Qplus_le_r. discriminate.
        + rewrite <- (Qplus_0_r (inject_Z _)) at 1.
          apply Qplus_le_r. discriminate.
      - destruct Hen as (-> & _). exact Hold. }
    destruct collided; [|exact Hmid].
    destruct (Qlt_bool _ _); exact Hmid.
  - destruct (draw_fields env self) as (_ & -> & _). exact IH.
Qed.

Lemma enemies_stay_within_amplitude_witness :
  exists self o,
    Sample.about_to_crash = Ok (self, o)
    /\ List.length (enemies self) = 3%nat
    /\ Forall (fun enemy =>
                 Enemy.amplitude enemy = 100%Q
                 /\ (inject_Z (Enemy.original_y enemy) - 100 <= Enemy.y enemy
                     <= inject_Z (Enemy.original_y enemy) + 100)%Q)
              (enemies self).
Proof.
  assert (Hrun : exists self o,
             Sample.about_to_crash = Ok (self, o)
             /\ List.length (enemies self) = 3%nat).
  { eexists _, _. split; [vm_compute; reflexivity | reflexivity]. }
  destruct Hrun as (self & o & Hstart & Hlen).
  exists self, o. split; [exact Hstart|]. split; [exact Hlen|].
  apply (enemies_stay_within_amplitude Sample.steady_env self o).
  - intros t. split; discriminate.
  - exact (start_and_run_reachable _ _ _ _ _ _ Hstart).
Defined.

(** ** The frame loop *)

Lemma handle_event_running env event running self o running' self' o' :
  handle_event env event (running, self) o = Ok ((running', self'), o') ->
  running' = running && negb (is_quit event).
Proof.
  unfold handle_event, is_quit. cbn [fst snd].
  destruct (type event); cbn [EventType_eqb negb].
  - intros Hrun; inversion Hrun. rewrite andb_false_r. reflexivity.
  - rewrite andb_true_r.
    destruct (button event =? 1);
      [destruct (_ && _)|]; intros Hrun; inversion Hrun; reflexivity.
  - rewrite andb_true_r.
    destruct (Key_eqb (key event) K_SPACE).
    + destruct (GameState_eqb (game_state self) PLAYING);
        [|destruct (GameState_eqb (game_state self) GAME_OVER)];
        intros Hrun; run_inv Hrun; congruence.
    + destruct (_ && _); intros Hrun; run_inv Hrun; congruence.
  - rewrite andb_true_r. intros Hrun; inversion Hrun; reflexivity.
Qed.

Lemma for_each_events_running env events : forall running self o st o',
  for_each events (handle_event env) (running, self) o = Ok (st, o') ->
  fst st = running && negb (existsb is_quit events).
Proof.
  induction events as [|event events IH]; intros running self o st o' Hrun.
  - cbn in Hrun. inversion Hrun. cbn. rewrite andb_true_r. reflexivity.
  - cbn [for_each] in Hrun. apply bind_Ok in Hrun.
    destruct Hrun as ([running1 self1] & o1 & Hev & Hrun).
    rewrite (IH _ _ _ _ _ Hrun), (handle_event_running _ _ _ _ _ _ _ _ Hev).
    cbn [existsb]. rewrite negb_orb, andb_assoc. reflexivity.
Qed.

(** A quit event ends the loop after the frame that holds it: that frame
    is still processed in full, the frames after it never are; without a
    quit event the loop goes on with the next frame. *)
Theorem run_stops_after_quit_frame env events frames self o :
  (existsb is_quit events = true ->
   run env (events :: frames) self o = run env [events] self o)
  /\ (existsb is_quit events = false ->
      run env (events :: frames) self o
      = (st <- run_frame env events self ;; run env frames (snd st)) o).
Proof.
  assert (Hflag : forall st o1,
             run_frame env events self o = Ok (st, o1) ->
             fst st = negb (existsb is_quit events)).
  { intros st o1 Hrun. unfold run_frame in Hrun. apply bind_Ok in Hrun.
    destruct Hrun as (st1 & o2 & Hev & Hrun). apply bind_Ok in Hrun.
    destruct Hrun as (self2 & o3 & _ & Hret). run_inv Hret. cbn [fst].
    apply (for_each_events_running _ _ _ _ _ _ _ Hev). }
  split; intros Hquit; cbn [run]; unfold bind;
    destruct (run_frame env events self o) as [[st o1]|e] eqn:Hframe;
    try reflexivity;
    rewrite (Hflag _ _ eq_refl), Hquit; reflexivity.
Qed.

Lemma run_stops_after_quit_frame_witness :
  run Sample.env
      [[Build_Event QUIT 0 (0, 0) K_OTHER]; [Sample.left_click (200, 400)]]
      (before_reset Sample.config 0) Sample.outside
  = run Sample.env [[Build_Event QUIT 0 (0, 0) K_OTHER]]
        (before_reset Sample.config 0) Sample.outside.
Proof.
  apply (run_stops_after_quit_frame Sample.env
           [Build_Event QUIT 0 (0, 0) K_OTHER]
           [[Sample.left_click (200, 400)]]).
  reflexivity.
Defined.

Lemma handle_event_idle env event running self o :
  (game_state self = GAME_OVER /\ is_space_key event = false)
  \/ (game_state self = START /\ is_left_click event = false) ->
  handle_event env event (running, self) o
  = Ok ((running && negb (is_quit event), self), o).
Proof.
  unfold handle_event, is_space_key, is_left_click, is_quit. cbn [fst snd].
  intros [[Hst Hev] | [Hst Hev]]; rewrite Hst;
    destruct (type event); cbn [EventType_eqb andb negb] in *;
    rewrite ?andb_true_r, ?andb_false_r; try reflexivity.
  - destruct (button event =? 1); reflexivity.
  - rewrite Hev. destruct (Key_eqb (key event) K_RIGHT); reflexivity.
  - rewrite Hev. reflexivity.
  - destruct (Key_eqb (key event) K_SPACE);
      [|destruct (Key_eqb (key event) K_RIGHT)]; reflexivity.
Qed.

(** Outside PLAYING the simulation is frozen.  In GAME_OVER a frame without
    the restart key changes nothing at all, neither of the program state
    nor of the outside world; in START a frame without a left click only
    records the start button that was drawn. *)
Theorem frame_outside_playing_is_idle env events self o :
  (game_state self = GAME_OVER ->
   forallb (fun event => negb (is_space_key event)) events = true ->
   run_frame env events self o
   = Ok ((negb (existsb is_quit events), self), o))
  /\ (game_state self = START ->
      forallb (fun event => negb (is_left_click event)) events = true ->
      run_frame env events self o
      = Ok ((negb (existsb is_quit events),
             set_start_button_rect self
               (Some (create_button env self (height self / 2)))), o)).
Proof.
  assert (Hloop : forall (skip : Event -> bool),
             (forall event running o1,
                skip event = false ->
                handle_event env event (running, self) o1
                = Ok ((running && negb (is_quit event), self), o1)) ->
             forall events running,
               forallb (fun event => negb (skip event)) events = true ->
               for_each events (handle_event env) (running, self) o
               = Ok ((running && negb (existsb is_quit events), self), o)).
  { intros skip Hidle evs. induction evs as [|event evs IH];
      intros running Hall.
    - cbn. rewrite andb_true_r. reflexivity.
    - cbn [forallb] in Hall. apply andb_prop in Hall.
      destruct Hall as [Hev Hall]. apply negb_true_iff in Hev.
      cbn [for_each]. rewrite (bind_eq _ _ _ _ _ (Hidle _ _ _ Hev)).
      rewrite (IH _ Hall). cbn [existsb].
      rewrite negb_orb, andb_assoc. reflexivity. }
  split; intros Hst Hall; unfold run_frame.
  - rewrite (bind_eq _ _ _ _ _
               (Hloop is_space_key
                  (fun event running o1 H =>
                     handle_event_idle env event running self o1
                       (or_introl (conj Hst H))) events true Hall)).
    cbn [fst snd andb]. unfold simulate. rewrite Hst.
    cbn [GameState_eqb]. unfold bind, ret, draw, draw_game_over_screen.
    rewrite Hst. reflexivity.
  - rewrite (bind_eq _ _ _ _ _
               (Hloop is_left_click
                  (fun event running o1 H =>
                     handle_event_idle env event running self o1
                       (or_intror (conj Hst H))) events true Hall)).
    cbn [fst snd andb]. unfold simulate. rewrite Hst.
    cbn [GameState_eqb].
    unfold bind, ret, draw, draw_start_screen, draw_scrolling_background.
    rewrite Hst. reflexivity.
Qed.

Lemma frame_outside_playing_is_idle_witness :
  exists self o,
    Sample.game_over = Ok (self, o)
    /\ run_frame Sample.env
         [Sample.left_click (200, 400); Sample.key_down K_RIGHT] self o
       = Ok ((true, self), o).
Proof.
  assert (Hrun : exists self o,
             Sample.game_over = Ok (self, o)
             /\ game_state self = GAME_OVER).
  { eexists _, _. split; [vm_compute; reflexivity | reflexivity]. }
  destruct Hrun as (self & o & Hstart & Hst).
  exists self, o. split; [exact Hstart|].
  apply (frame_outside_playing_is_idle Sample.env
           [Sample.left_click (200, 400); Sample.key_down K_RIGHT] self o);
    [exact Hst | reflexivity].
Defined.

(** ** The start button *)

Lemma half_plus_twenty (n : Z) : Z.shiftr (n + 2 * 20) 1 = Z.shiftr n 1 + 20.
Proof.
  rewrite !Z.shiftr_div_pow2 by lia. change (2 ^ 1) with 2.
  rewrite Z.add_comm, (Z.mul_comm 2 20), Z.div_add_l by lia. lia.
Qed.

(** The button drawn on the start screen surrounds the rendered text with
    a margin of 20 on every side, and once the start screen has been
    drawn a left click anywhere on the text starts the game. *)
Theorem click_on_start_text_starts_game env self event running o :
  game_state self = START ->
  let shown := draw env self in
  let text_rect :=
    Rect.centered (fst (start_text_size env)) (snd (start_text_size env))
                  (width self / 2) (height self / 2) in
  (exists button_rect,
     start_button_rect shown = Some button_rect
     /\ Rect.x button_rect = Rect.x text_rect - 20
     /\ Rect.y button_rect = Rect.y text_rect - 20
     /\ Rect.w button_rect = Rect.w text_rect + 40
     /\ Rect.h button_rect = Rect.h text_rect + 40)
  /\ (type event = MOUSEBUTTONDOWN -> button event = 1 ->
      Rect.collidepoint text_rect (pos event) = true ->
      handle_event env event (running, shown) o
      = Ok ((running, set_game_state shown PLAYING), o)).
Proof.
  intros Hst shown text_rect.
  assert (Hshown : shown
                   = set_start_button_rect self
                       (Some (Rect.make (Rect.x text_rect - 20)
                                        (Rect.y text_rect - 20)
                                        (Rect.w text_rect + 40)
                                        (Rect.h text_rect + 40)))).
  { unfold shown, draw, draw_start_screen, draw_scrolling_background.
    rewrite Hst. cbn [GameState_eqb]. f_equal. f_equal.
    unfold create_button, Rect.set_centerx, Rect.set_x.
    fold text_rect.
    cbn [Rect.x Rect.y Rect.w Rect.h].
    change (2 * 20) with 40. f_equal.
    unfold text_rect, Rect.centered. cbn [Rect.x Rect.w].
    change 40 with (2 * 20). rewrite half_plus_twenty. lia. }
  split.
  - rewrite Hshown. eexists. split; [reflexivity|]. repeat split.
  - intros Hty Hb Hhit. rewrite Hshown.
    unfold handle_event. cbn [fst snd]. rewrite Hty, Hb.
    cbn [EventType_eqb game_state set_start_button_rect].
    rewrite Hst.
    unfold hasattr_start_button_rect, click_start_button.
    cbn [GameState_eqb andb start_button_rect set_start_button_rect Z.eqb
         Pos.eqb].
    assert (Hin : Rect.collidepoint
                    (Rect.make (Rect.x text_rect - 20) (Rect.y text_rect - 20)
                               (Rect.w text_rect + 40) (Rect.h text_rect + 40))
                    (pos event) = true).
    { unfold Rect.collidepoint in *. cbn [Rect.x Rect.y Rect.w Rect.h].
      repeat (apply andb_prop in Hhit; destruct Hhit as [Hhit ?]).
      repeat (apply andb_true_intro; split); lia. }
    rewrite Hin. reflexivity.
Qed.

Lemma click_on_start_text_starts_game_witness :
  exists self o shown,
    __init__ Sample.env Sample.config Sample.outside = Ok (self, o)
    /\ shown = draw Sample.env self
    /\ handle_event Sample.env (Sample.left_click (200, 400)) (true, shown) o
       = Ok ((true, set_game_state shown PLAYING), o).
Proof.
  assert (Hrun : exists self o,
             __init__ Sample.env Sample.config Sample.outside = Ok (self, o)
             /\ game_state self = START
             /\ width self = 400 /\ height self = 800).
  { eexists _, _. split; [vm_compute; reflexivity|]. repeat split. }
  destruct Hrun as (self & o & Hinit & Hst & Hw & Hh).
  exists self, o, (draw Sample.env self).
  split; [exact Hinit|]. split; [reflexivity|].
  apply (click_on_start_text_starts_game Sample.env self
           (Sample.left_click (200, 400)) true o Hst);
    [reflexivity | reflexivity|].
  rewrite Hw, Hh. reflexivity.
Defined.

(** A mouse click that arrives before the start screen has been drawn for
    the first time finds no start button and is ignored. *)
Theorem click_before_first_draw_is_ignored
    env config o self o' event running o1 :
  __init__ env config o = Ok (self, o') ->
  type event = MOUSEBUTTONDOWN ->
  handle_event env event (running, self) o1 = Ok ((running, self), o1).
Proof.
  intros Hinit Hty.
  destruct (__init___fields _ _ _ _ _ Hinit) as (_ & Hst & Hb & _).
  unfold handle_event. cbn [fst snd]. rewrite Hty, Hst.
  unfold hasattr_start_button_rect. rewrite Hb.
  cbn [EventType_eqb GameState_eqb andb].
  destruct (button event =? 1); reflexivity.
Qed.

Lemma click_before_first_draw_is_ignored_witness :
  exists self o,
    __init__ Sample.env Sample.config Sample.outside = Ok (self, o)
    /\ handle_event Sample.env (Sample.left_click (200, 400)) (true, self) o
       = Ok ((true, self), o).
Proof.
  assert (Hrun : exists self o,
             __init__ Sample.env Sample.config Sample.outside = Ok (self, o)).
  { eexists _, _. vm_compute. reflexivity. }
  destruct Hrun as (self & o & Hinit).
  exists self, o. split; [exact Hinit|].
  exact (click_before_first_draw_is_ignored Sample.env Sample.config
           Sample.outside self o (Sample.left_click (200, 400)) true o
           Hinit eq_refl).
Defined.

(** ** The scrolling background *)

Lemma float_mod_bounds (q : Q) (w : Z) :
  0 < w -> (0 <= float_mod q w < inject_Z w)%Q.
Proof.
  intros Hw. unfold float_mod.
  assert (HW : (0 < inject_Z w)%Q)
    by (change 0%Q with (inject_Z 0); rewrite <- Zlt_Qlt; exact Hw).
  set (W := inject_Z w) in *.
  pose proof (Qfloor_le (q / W)) as Hlo.
  pose proof (Qlt_floor (q / W)) as Hhi.
  rewrite inject_Z_plus in Hhi. change (inject_Z 1) with 1%Q in Hhi.
  set (f := inject_Z (Qfloor (q / W))) in *.
  assert (Hq : (q == W * (q / W))%Q) by (field; lra).
  assert (H1 : (W * f <= W * (q / W))%Q)
    by (apply Qmult_le_l; assumption).
  assert (H2 : (W * (q / W) < W * (f + 1))%Q)
    by (apply Qmult_lt_l; assumption).
  rewrite <- Hq in H1, H2. split; lra.
Qed.

Lemma tile_parity (n : Z) :
  negb ((n + 1) mod 2 =? 0) = negb (negb (n mod 2 =? 0))
  /\ negb ((n + 2) mod 2 =? 0) = negb (n mod 2 =? 0).
Proof.
  pose proof (Z.mod_pos_bound n 2 ltac:(lia)).
  pose proof (Z.div_mod n 2 ltac:(lia)).
  assert (H1 : (n + 1) mod 2 = (if n mod 2 =? 0 then 1 else 0)).
  { destruct (Z.eqb_spec (n mod 2) 0).
    - symmetry. apply (Z.mod_unique_pos _ _ (n / 2)); lia.
    - symmetry. apply (Z.mod_unique_pos _ _ (n / 2 + 1)); lia. }
  assert (H2 : (n + 2) mod 2 = n mod 2).
  { symmetry. apply (Z.mod_unique_pos _ _ (n / 2 + 1)); lia. }
  rewrite H1, H2. destruct (n mod 2 =? 0); split; reflexivity.
Qed.

(** In a window of positive width the background is drawn as three tiles
    side by side, alternating between the image and its mirror; the first
    starts at or left of the left edge, by less than one window width, so
    the three cover the whole window. *)
Theorem scrolling_background_covers_window self :
  0 < width self ->
  exists flipped x0 x1 x2,
    scrolling_background_blits self
    = Some [(flipped, x0); (negb flipped, x1); (flipped, x2)]
    /\ (- inject_Z (width self) < x0 <= 0)%Q
    /\ (x1 == x0 + inject_Z (width self))%Q
    /\ (x2 == x1 + inject_Z (width self))%Q.
Proof.
  intros Hw. unfold scrolling_background_blits.
  destruct (Z.eqb_spec (width self) 0) as [E|_]; [lia|].
  assert (Hone : Qceiling (inject_Z (width self) / inject_Z (width self)) = 1).
  { assert (HW : (0 < inject_Z (width self))%Q)
      by (change 0%Q with (inject_Z 0); rewrite <- Zlt_Qlt; exact Hw).
    assert (E1 : (inject_Z (width self) / inject_Z (width self) == 1)%Q)
      by (field; lra).
    rewrite (Qceiling_comp _ _ E1). reflexivity. }
  rewrite Hone. change (Z.to_nat (1 + 2)) with 3%nat. cbn [seq map].
  set (first_tile := Qfloor (bg_scroll self / inject_Z (width self))).
  set (m := float_mod (bg_scroll self) (width self)).
  destruct (tile_parity first_tile) as [P1 P2].
  change (Z.of_nat 0) with 0. change (Z.of_nat 1) with 1.
  change (Z.of_nat 2) with 2.
  rewrite Z.add_0_r, P1, P2.
  eexists _, _, _, _. split; [reflexivity|].
  pose proof (float_mod_bounds (bg_scroll self) (width self) Hw) as Hm.
  fold m in Hm.
  rewrite Z.mul_0_l, Z.mul_1_l, inject_Z_mult.
  change (inject_Z 0) with 0%Q. change (inject_Z 2) with 2%Q.
  split; [split; lra|]. split; lra.
Qed.

Lemma scrolling_background_covers_window_witness :
  exists self o flipped x0 x1 x2,
    Sample.playing = Ok (self, o)
    /\ scrolling_background_blits self
       = Some [(flipped, x0); (negb flipped, x1); (flipped, x2)]
    /\ (- (400) < x0 <= 0)%Q.
Proof.
  assert (Hrun : exists self o,
             Sample.playing = Ok (self, o) /\ width self = 400).
  { eexists _, _. split; [vm_compute; reflexivity | reflexivity]. }
  destruct Hrun as (self & o & Hstart & Hw).
  destruct (scrolling_background_covers_window self)
    as (flipped & x0 & x1 & x2 & Hblits & Hx0 & _).
  - rewrite Hw. reflexivity.
  - rewrite Hw in Hx0. exists self, o, flipped, x0, x1, x2. auto.
Defined.

(** ** The high score from one run to the next *)



(** ** Audio cues *)

Lemma for_each_outside {A S : Type} (body : A -> S -> M S) (l : list A) :
  (forall a s o s' o', body a s o = Ok (s', o') -> o' = o) ->
  forall s o s' o', for_each l body s o = Ok (s', o') -> o' = o.
Proof.
  intros Hbody. induction l as [|a l IH]; intros s o s' o' Hrun.
  - cbn in Hrun. inversion Hrun; reflexivity.
  - cbn [for_each] in Hrun. apply bind_Ok in Hrun.
    destruct Hrun as (s1 & o1 & Hb & Hrun).
    rewrite (IH _ _ _ _ Hrun). eapply Hbody; exact Hb.
Qed.

Lemma walls_loop_body_outside wall self o self' o' :
  walls_loop_body wall self o = Ok (self', o') -> o' = o.
Proof.
  unfold walls_loop_body. destruct (_ <? _); intros Hrun; run_inv Hrun;
    reflexivity.
Qed.

Lemma enemies_loop_body_outside env enemy self o self' o' :
  enemies_loop_body env enemy self o = Ok (self', o') -> o' = o.
Proof.
  unfold enemies_loop_body. destruct (_ <? _); intros Hrun; run_inv Hrun;
    reflexivity.
Qed.

Lemma projectiles_loop_body_outside projectile self o self' o' :
  projectiles_loop_body projectile self o = Ok (self', o') -> o' = o.
Proof.
  unfold projectiles_loop_body, hit_first_enemy.
  destruct (_ >? _); [intros Hrun; run_inv Hrun; reflexivity|].
  destruct (find _ _); intros Hrun; run_inv Hrun; reflexivity.
Qed.

(** A simulation step sends nothing to the mixer and does not touch the
    high-score file. *)
Lemma update_game_objects_outside env self o self' o' :
  update_game_objects env self o = Ok (self', o') ->
  played o' = played o /\ highscore_txt o' = highscore_txt o.
Proof.
  unfold update_game_objects. intros Hrun.
  apply bind_Ok in Hrun. destruct Hrun as (self1 & o1 & H1 & Hrun).
  apply bind_Ok in Hrun. destruct Hrun as (self2 & o2 & H2 & Hrun).
  apply bind_Ok in Hrun. destruct Hrun as (self3 & o3 & H3 & Hrun).
  apply bind_Ok in Hrun. destruct Hrun as (now & o4 & H4 & Hrun).
  apply bind_Ok in Hrun. destruct Hrun as (self5 & o5 & H5 & Hrun).
  apply (for_each_outside _ _ walls_loop_body_outside) in H1.
  apply (for_each_outside _ _ (enemies_loop_body_outside env)) in H2.
  apply (for_each_outside _ _ projectiles_loop_body_outside) in H3.
  subst o1 o2 o3. rewrite get_ticks_Ok in H4. inversion H4; subst now o4.
  assert (E5 : played o5 = played o /\ highscore_txt o5 = highscore_txt o).
  { destruct (_ >? _) in H5.
    - apply bind_Ok in H5. destruct H5 as (mid & o6 & Hcreate & Hret).
      run_inv Hret.
      destruct (create_wall_pair_outside _ _ _ _ _ Hcreate) as (-> & -> & _).
      split; reflexivity.
    - run_inv H5. split; reflexivity. }
  destruct E5 as [<- <-].
  destruct (_ >? _) in Hrun; [destruct (_ <? _) in Hrun|].
  - apply bind_Ok in Hrun. destruct Hrun as (mid & o6 & Hspawn & Hret).
    run_inv Hret.
    destruct (spawn_enemy_outside _ _ _ _ _ Hspawn) as (-> & -> & _).
    split; reflexivity.
  - run_inv Hrun. split; reflexivity.
  - run_inv Hrun. split; reflexivity.
Qed.

(** How a simulation step ends, from the collisions it finds after moving
    everything: a wall hit, an enemy hit or touching the top or bottom of
    the window ends the game, anything else lets it go on.  The game-over
    cue is played exactly when the game ends, and the enemy cue comes
    before it exactly when the player touches an enemy and no wall; a step
    that does not end the game plays nothing. *)
Theorem collisions_end_the_game_with_cues env self o self' o' :
  game_state self = PLAYING ->
  simulate env self o = Ok (self', o') ->
  exists mid o1,
    update_game_objects env self o = Ok (mid, o1)
    /\ let player_rect := Player.rect (player mid) in
       let wall_hit :=
         existsb (fun wall => Rect.colliderect player_rect (Wall.rect wall))
                 (walls mid) in
       let enemy_hit :=
         existsb (fun enemy =>
                    Rect.colliderect player_rect (Enemy.rect enemy))
                 (enemies mid) in
       let out_of_bounds :=
         (Rect.top player_rect <=? 0)
         || (Rect.bottom player_rect >=? height mid) in
       (if wall_hit || enemy_hit || out_of_bounds
        then game_state self' = GAME_OVER else self' = mid)
       /\ played o'
          = played o
            ++ (if wall_hit then [gameover_sound]
                else if enemy_hit then [enemy_sound; gameover_sound]
                else if out_of_bounds then [gameover_sound]
                else []).
Proof.
  intros Hst Hsim.
  destruct (simulate_exact _ _ _ _ _ Hsim)
    as [(Hno & _) | (_ & mid & o1 & collided & o2 & Hup & Hcheck & -> & Hpl)];
    [congruence|].
  exists mid, o1. split; [exact Hup|].
  destruct (update_game_objects_outside _ _ _ _ _ Hup) as (Hplayed & _).
  cbv zeta. rewrite Hpl. unfold check_collisions in Hcheck.
  destruct (existsb _ (walls mid)).
  - run_inv Hcheck. cbn [orb]. rewrite Hplayed.
    split; reflexivity.
  - destruct (existsb _ (enemies mid)).
    + rewrite (bind_eq _ _ _ _ _ (play_Ok _ _)) in Hcheck.
      run_inv Hcheck. cbn [orb played].
      rewrite Hplayed, <- app_assoc. split; reflexivity.
    + destruct (_ || _); run_inv Hcheck; cbn [orb];
        rewrite Hplayed, ?app_nil_r; split; reflexivity.
Qed.

Lemma collisions_end_the_game_with_cues_witness :
  exists self o self' o',
    Sample.about_to_crash = Ok (self, o)
    /\ simulate Sample.steady_env self o = Ok (self', o')
    /\ game_state self' = GAME_OVER
    /\ played o' = played o ++ [gameover_sound].
Proof.
  assert (Hrun : exists self o self' o',
             Sample.about_to_crash = Ok (self, o)
             /\ simulate Sample.steady_env self o = Ok (self', o')
             /\ game_state self = PLAYING
             /\ game_state self' = GAME_OVER
             /\ played o' = played o ++ [gameover_sound]).
  { eexists _, _, _, _. split; [vm_compute; reflexivity|].
    split; [vm_compute; reflexivity|]. repeat split. }
  destruct Hrun as (self & o & self' & o' & Hstart & Hsim & Hst & Hover & Hpl).
  destruct (collisions_end_the_game_with_cues Sample.steady_env
              self o self' o' Hst Hsim) as (mid & o1 & _ & _).
  exists self, o, self', o'. auto.
Defined.

(** ** Scoring *)

Lemma without_found {A} `{Identified A} (f : A -> bool) (l : list A) a :
  distinct l -> find f l = Some a ->
  S (List.length (without a l)) = List.length l.
Proof.
  intros Hnd Hfind.
  destruct (find_split _ _ _ Hfind) as (l1 & l2 & -> & _).
  rewrite (without_middle _ _ _ Hnd), !length_app. cbn [List.length]. lia.
Qed.

Lemma fire_pass_hits width todo : forall enemies,
  distinct enemies ->
  (List.length (snd (fst (fire_pass width todo enemies)))
   + snd (fire_pass width todo enemies) = List.length enemies)%nat.
Proof.
  induction todo as [|projectile rest IH]; intros enemies Hnd;
    cbn [fire_pass].
  - cbn [fst snd]. lia.
  - destruct (_ >? _); [apply IH, Hnd|].
    destruct (find _ enemies) as [enemy|] eqn:Hfind; cbn [fst snd];
      [|apply IH, Hnd].
    pose proof (without_found _ _ _ Hnd Hfind) as Hlen.
    pose proof (IH (without enemy enemies) (distinct_filter _ _ Hnd)). lia.
Qed.

(** A simulation step adds to the score exactly one point for each
    obstacle pair it removes and two points for each enemy that a
    projectile destroys. *)
Theorem step_scores_pairs_and_kills env self o self' o' :
  reachable env self o ->
  update_game_objects env self o = Ok (self', o') ->
  let on_screen := enemies_kept (sin env) (enemies self) in
  let survivors :=
    snd (fst (fire_pass (width self) (projectiles self) on_screen)) in
  exists pairs kills : nat,
    List.length (walls self)
    = (List.length (walls_kept (walls self)) + 2 * pairs)%nat
    /\ List.length on_screen = (List.length survivors + kills)%nat
    /\ (score self'
        == score self + inject_Z (Z.of_nat pairs)
           + 2 * inject_Z (Z.of_nat kills))%Q.
Proof.
  intros Hreach Hup on_screen survivors.
  pose proof (reachable_wf _ _ _ Hreach) as Hwf.
  destruct (update_game_objects_exact _ _ _ _ _ Hwf Hup)
    as (_ & _ & _ & _ & _ & Hscore & _).
  destruct (paired_kept _ (wf_paired _ _ Hwf)) as (_ & pairs & Hculled & Hlen).
  fold on_screen in Hscore.
  exists pairs, (snd (fire_pass (width self) (projectiles self) on_screen)).
  split; [exact Hlen|]. split.
  - symmetry. apply fire_pass_hits. unfold on_screen.
    apply distinct_filter, distinct_map;
      [reflexivity | apply (wf_enemies _ _ Hwf)].
  - rewrite Hscore, !add_each_sum, Hculled.
    rewrite Nat2Z.inj_mul, inject_Z_mult.
    change (inject_Z (Z.of_nat 2)) with 2%Q. field.
Qed.

Lemma step_scores_pairs_and_kills_witness :
  exists self o self' o',
    Sample.about_to_crash = Ok (self, o)
    /\ update_game_objects Sample.steady_env self o = Ok (self', o')
    /\ (score self == 6)%Q
    /\ (score self' == 7)%Q.
Proof.
  assert (Hrun : exists self o self' o',
             Sample.about_to_crash = Ok (self, o)
             /\ update_game_objects Sample.steady_env self o = Ok (self', o')
             /\ (score self == 6)%Q
             /\ (score self' == 7)%Q).
  { eexists _, _, _, _. split; [vm_compute; reflexivity|].
    split; [vm_compute; reflexivity|]. split; reflexivity. }
  destruct Hrun as (self & o & self' & o' & Hstart & Hup & Hs & Hs').
  destruct (step_scores_pairs_and_kills Sample.steady_env self o self' o'
              (start_and_run_reachable _ _ _ _ _ _ Hstart) Hup)
    as (pairs & kills & _).
  exists self, o, self', o'. auto.
Defined.

(** ** Obstacles only move to the left *)

(** The obstacles that a simulation step keeps are those of before, each
    moved to the left by its speed and otherwise unchanged: same vertical
    position, same size, same speed. *)
Theorem walls_only_move_left env self o self' o' :
  reachable env self o ->
  update_game_objects env self o = Ok (self', o') ->
  exists spawned,
    walls self' = walls_kept (walls self) ++ spawned
    /\ Forall (fun wall =>
                 exists before,
                   In before (walls self)
                   /\ ident wall = ident before
                   /\ Wall.x wall = (Wall.x before - Wall.speed before)%Q
                   /\ Rect.x (Wall.rect wall) = int (Wall.x wall)
                   /\ Rect.y (Wall.rect wall) = Rect.y (Wall.rect before)
                   /\ Rect.w (Wall.rect wall) = Rect.w (Wall.rect before)
                   /\ Rect.h (Wall.rect wall) = Rect.h (Wall.rect before)
                   /\ Wall.speed wall = Wall.speed before)
              (walls_kept (walls self)).
Proof.
  intros Hreach Hup.
  destruct (update_game_objects_exact _ _ _ _ _
              (reachable_wf _ _ _ Hreach) Hup)
    as (_ & _ & _ & _ & _ & _ & Hwalls & _).
  assert (Hkept : Forall (fun wall =>
                 exists before,
                   In before (walls self)
                   /\ ident wall = ident before
                   /\ Wall.x wall = (Wall.x before - Wall.speed before)%Q
                   /\ Rect.x (Wall.rect wall) = int (Wall.x wall)
                   /\ Rect.y (Wall.rect wall) = Rect.y (Wall.rect before)
                   /\ Rect.w (Wall.rect wall) = Rect.w (Wall.rect before)
                   /\ Rect.h (Wall.rect wall) = Rect.h (Wall.rect before)
                   /\ Wall.speed wall = Wall.speed before)
              (walls_kept (walls self))).
  { apply Forall_forall. intros wall Hin. unfold walls_kept in Hin.
    apply filter_In in Hin. destruct Hin as [Hin _].
    apply in_map_iff in Hin. destruct Hin as (before & <- & Hb).
    exists before. repeat split. exact Hb. }
  destruct (_ >? _) in Hwalls.
  - destruct Hwalls as ((top_wall & bottom_wall & -> & _) & _). eauto.
  - destruct Hwalls as (-> & _). exists []. rewrite app_nil_r. auto.
Qed.

Lemma walls_only_move_left_witness :
  exists self o self' o' spawned,
    Sample.about_to_crash = Ok (self, o)
    /\ update_game_objects Sample.steady_env self o = Ok (self', o')
    /\ walls self' = walls_kept (walls self) ++ spawned
    /\ List.length (walls_kept (walls self)) = 4%nat.
Proof.
  assert (Hrun : exists self o self' o',
             Sample.about_to_crash = Ok (self, o)
             /\ update_game_objects Sample.steady_env self o = Ok (self', o')
             /\ List.length (walls_kept (walls self)) = 4%nat).
  { eexists _, _, _, _. split; [vm_compute; reflexivity|].
    split; [vm_compute; reflexivity|]. reflexivity. }
  destruct Hrun as (self & o & self' & o' & Hstart & Hup & Hlen).
  destruct (walls_only_move_left Sample.steady_env self o self' o'
              (start_and_run_reachable _ _ _ _ _ _ Hstart) Hup)
    as (spawned & Hw & _).
  exists self, o, self', o', spawned. auto.
Defined.

(** * Hits within a simulation step *)

(** ** The loop over the projectiles, one projectile at a time *)

Lemma distinct_same_object {A} `{Identified A} (l : list A) (a b : A) :
  distinct l -> In a l -> In b l -> ident a = ident b -> a = b.
Proof.
  unfold distinct. induction l as [|c l IH]; cbn [map In]; [tauto|].
  intros Hnd Ha Hb Hid. inversion Hnd as [|i ids Hnot Hnd']; subst.
  destruct Ha as [->|Ha], Hb as [->|Hb]; auto.
  - exfalso. apply Hnot. rewrite Hid. apply in_map. exact Hb.
  - exfalso. apply Hnot. rewrite <- Hid. apply in_map. exact Ha.
Qed.

(** The loop over [done ++ todo] is the loop over [done] followed by the
    loop over [todo]. *)
Lemma fire_pass_app width done : forall todo enemies,
  let r1 := fire_pass width done enemies in
  let r2 := fire_pass width todo (snd (fst r1)) in
  fire_pass width (done ++ todo) enemies
  = (fst (fst r1) ++ fst (fst r2), snd (fst r2), (snd r1 + snd r2)%nat).
Proof.
  induction done as [|projectile done IH]; intros todo enemies;
    cbn [fire_pass app fst snd].
  - destruct (fire_pass width todo enemies) as [[P E] n]. reflexivity.
  - destruct (_ >? _); [apply IH|].
    destruct (find _ enemies) as [enemy|]; cbn [fst snd]; rewrite IH;
      reflexivity.
Qed.

Lemma fire_pass_distinct width todo : forall enemies,
  distinct enemies -> distinct (snd (fst (fire_pass width todo enemies))).
Proof.
  induction todo as [|projectile rest IH]; intros enemies Hnd;
    cbn [fire_pass]; [exact Hnd|].
  destruct (_ >? _); [apply IH, Hnd|].
  destruct (find _ enemies) as [enemy|]; cbn [fst snd]; apply IH;
    [apply distinct_filter|]; exact Hnd.
Qed.

(** The projectiles left are projectiles of before. *)
Lemma fire_pass_ids width todo : forall enemies,
  incl (map ident (fst (fst (fire_pass width todo enemies))))
       (map ident todo).
Proof.
  induction todo as [|projectile rest IH]; intros enemies;
    cbn [fire_pass]; [apply incl_refl|].
  cbn [map].
  destruct (_ >? _); [apply incl_tl, IH|].
  destruct (find _ enemies) as [enemy|]; cbn [fst snd map];
    [apply incl_tl, IH|].
  rewrite Projectile_update_ident.
  apply incl_cons; [left; reflexivity | apply incl_tl, IH].
Qed.

(** An enemy that no projectile touches stays. *)
Lemma fire_pass_untouched width todo : forall enemies other,
  distinct enemies ->
  In other enemies ->
  (forall projectile, In projectile todo ->
                      touches (Projectile.update projectile) other = false) ->
  In other (snd (fst (fire_pass width todo enemies))).
Proof.
  induction todo as [|projectile rest IH]; intros enemies other Hnd Hin Hno;
    cbn [fire_pass]; [exact Hin|].
  assert (Hrest : forall q, In q rest ->
                            touches (Projectile.update q) other = false)
    by (intros q Hq; apply Hno; right; exact Hq).
  destruct (_ >? _); [apply IH; assumption|].
  destruct (find _ enemies) as [enemy|] eqn:Hfind; cbn [fst snd];
    [|apply IH; assumption].
  apply IH; [apply distinct_filter; exact Hnd | | exact Hrest].
  apply filter_In. split; [exact Hin|].
  destruct (find_some _ _ Hfind) as [Henemy Htouch].
  unfold same_object. destruct (Nat.eqb_spec (ident other) (ident enemy))
    as [Hid|]; [|reflexivity].
  rewrite (distinct_same_object _ _ _ Hnd Hin Henemy Hid) in Hno.
  rewrite (Hno projectile (or_introl eq_refl)) in Htouch. discriminate.
Qed.

(** ** Projectile hits (C8) *)

(** C8.  In a simulation step, when the loop over the projectiles reaches a
    projectile that, once moved, is not past the right edge and touches an
    enemy still in the collection, then by the end of that step the
    projectile and the first such enemy are both gone from their
    collections, that hit adds exactly 2 to the score, and the projectile
    takes no other enemy: the later projectiles meet every other enemy that
    was there, and each of these that no later projectile touches is still
    in the collection.  The enemies still there when the loop reaches the
    projectile are those on screen after their move, less the ones that the
    projectiles before it took. *)
Theorem C8_step_removes_projectile_and_first_enemy
    env self o self' o' projectile done rest enemy before after :
  reachable env self o ->
  update_game_objects env self o = Ok (self', o') ->
  projectiles self = done ++ projectile :: rest ->
  let moved := Projectile.update projectile in
  let on_screen := enemies_kept (sin env) (enemies self) in
  let earlier := fire_pass (width self) done on_screen in
  snd (fst earlier) = before ++ enemy :: after ->
  Rect.left (Projectile.rect moved) <= width self ->
  touches moved enemy = true ->
  (forall other, In other before -> touches moved other = false) ->
  let later := fire_pass (width self) rest (before ++ after) in
  ~ In (ident projectile) (map ident (projectiles self'))
  /\ ~ In (ident enemy) (map ident (enemies self'))
  /\ projectiles self' = fst (fst earlier) ++ fst (fst later)
  /\ (exists spawned,
        enemies self' = snd (fst later) ++ spawned
        /\ (List.length spawned <= 1)%nat)
  /\ (forall other,
        In other (before ++ after) ->
        (forall later_projectile,
           In later_projectile rest ->
           touches (Projectile.update later_projectile) other = false) ->
        In other (enemies self'))
  /\ exists pairs : nat,
       List.length (walls self)
       = (List.length (walls_kept (walls self)) + 2 * pairs)%nat
       /\ (score self'
           == score self + inject_Z (Z.of_nat pairs)
              + 2 * inject_Z (Z.of_nat (snd earlier + snd later)) + 2)%Q.
Proof.
  intros Hreach Hup Hp moved on_screen earlier He Hlive Htouch Hfirst later.
  pose proof (reachable_wf _ _ _ Hreach) as Hwf.
  destruct (update_game_objects_exact _ _ _ _ _ Hwf Hup)
    as (_ & _ & _ & _ & Hproj & Hscore & _).
  destruct (update_game_objects_spawned _ _ _ _ _ Hwf Hup)
    as (_ & spawned & Hen & Hlen & Hids).
  fold on_screen in Hproj, Hscore, Hen.
  assert (Hon : distinct on_screen).
  { apply distinct_filter, distinct_map;
      [reflexivity | apply (wf_enemies _ _ Hwf)]. }
  assert (Hd1 : distinct (before ++ enemy :: after)).
  { rewrite <- He. apply fire_pass_distinct. exact Hon. }
  assert (Hr : fire_pass (width self) (projectiles self) on_screen
               = (fst (fst earlier) ++ fst (fst later), snd (fst later),
                  (snd earlier + S (snd later))%nat)).
  { rewrite Hp, fire_pass_app. fold earlier. rewrite He.
    cbn [fire_pass]. fold moved.
    destruct (Z.gtb_spec (Rect.left (Projectile.rect moved)) (width self));
      [lia|].
    rewrite (find_first _ _ _ _ Htouch Hfirst).
    rewrite (without_middle _ _ _ Hd1). reflexivity. }
  rewrite Hr in Hproj, Hscore, Hen. cbn [fst snd] in Hproj, Hscore, Hen.
  pose proof (wf_projectiles _ _ Hwf) as Hpd. rewrite Hp in Hpd.
  destruct (distinct_middle _ _ _ Hpd) as (Hnot1 & Hnot2 & _).
  destruct (distinct_middle _ _ _ Hd1) as (Hnb & Hna & Hd2).
  assert (Hold : (ident enemy < next_oid o)%nat).
  { assert (Hin : In enemy on_screen).
    { apply (proj1 (fire_pass_enemies (width self) done on_screen)).
      fold earlier. rewrite He. apply in_elt. }
    destruct (enemies_kept_from _ _ _ Hin) as (old & Hold & ->).
    rewrite Enemy_update_ident.
    exact (proj1 (Forall_forall _ _) (wf_enemies_alloc _ _ Hwf) _ Hold). }
  split; [|split; [|split; [exact Hproj|split; [eauto|split]]]].
  - rewrite Hproj, map_app, in_app_iff. intros [Hin|Hin].
    + apply Hnot1. exact (fire_pass_ids _ _ _ _ Hin).
    + apply Hnot2. exact (fire_pass_ids _ _ _ _ Hin).
  - rewrite Hen, map_app, in_app_iff. intros [Hin|Hin].
    + apply in_map_iff in Hin. destruct Hin as (other & Hid & Hin).
      apply (proj1 (fire_pass_enemies _ _ _)) in Hin.
      assert (Hin' : In (ident enemy) (map ident (before ++ after)))
        by (rewrite <- Hid; apply in_map; exact Hin).
      rewrite map_app, in_app_iff in Hin'. tauto.
    + apply in_map_iff in Hin. destruct Hin as (new & Hid & Hin).
      pose proof (proj1 (Forall_forall _ _) Hids _ Hin) as Hnew.
      cbv beta in Hnew. lia.
  - intros other Hin Hno. rewrite Hen. apply in_or_app. left.
    apply fire_pass_untouched; assumption.
  - destruct (paired_kept _ (wf_paired _ _ Hwf))
      as (_ & pairs & Hculled & Hwalls).
    exists pairs. split; [exact Hwalls|].
    rewrite Hscore, Nat.add_succ_r. cbn [add_each].
    rewrite !add_each_sum, Hculled.
    rewrite Nat2Z.inj_mul, inject_Z_mult.
    change (inject_Z (Z.of_nat 2)) with 2%Q. field.
Qed.

Lemma C8_step_removes_projectile_and_first_enemy_witness :
  exists self o self' o' projectile first second third spawned,
    Sample.head_on = Ok (self, o)
    /\ update_game_objects Sample.head_on_env self o = Ok (self', o')
    /\ projectiles self = [projectile]
    /\ enemies_kept (sin Sample.head_on_env) (enemies self)
       = [first; second; third]
    /\ touches (Projectile.update projectile) first = true
    /\ touches (Projectile.update projectile) second = true
    /\ projectiles self' = []
    /\ enemies self' = [second; third] ++ spawned
    /\ ~ In (ident first) (map ident (enemies self'))
    /\ (score self == 0)%Q
    /\ (score self' == 2)%Q.
Proof.
  assert (Hrun : exists self o self' o' projectile first second third,
             Sample.head_on = Ok (self, o)
             /\ update_game_objects Sample.head_on_env self o
                = Ok (self', o')
             /\ projectiles self = [projectile]
             /\ enemies_kept (sin Sample.head_on_env) (enemies self)
                = [first; second; third]
             /\ Rect.left (Projectile.rect (Projectile.update projectile))
                <= width self
             /\ touches (Projectile.update projectile) first = true
             /\ touches (Projectile.update projectile) second = true
             /\ (score self == 0)%Q
             /\ (score self' == 2)%Q).
  { eexists _, _, _, _, _, _, _, _. split; [vm_compute; reflexivity|].
    split; [vm_compute; reflexivity|]. split; [reflexivity|].
    split; [vm_compute; reflexivity|].
    split; [vm_compute; discriminate|].
    split; [vm_compute; reflexivity|].
    split; [vm_compute; reflexivity|].
    split; reflexivity. }
  destruct Hrun
    as (self & o & self' & o' & projectile & first & second & third & Hstart
        & Hup & Hp & He & Hlive & Hfirst & Hsecond & Hs & Hs').
  destruct (C8_step_removes_projectile_and_first_enemy
              Sample.head_on_env self o self' o' projectile [] [] first []
              [second; third]
              (start_and_run_reachable _ _ _ _ _ _ Hstart) Hup Hp He Hlive
              Hfirst (fun other (Hin : In other []) => match Hin with end))
    as (_ & Hgone & Hproj & (spawned & Hen & _) & _).
  exists self, o, self', o', projectile, first, second, third, spawned.
  auto 15.
Defined.
